(** * Scoped thread execution (lib/thread.h)

    A shallow embedding of the thread-launch primitives of MRtrix: the
    reference-counted [__Backend], the handles [__single_thread] and
    [__multi_thread], the request object [__Multi] and the dispatcher
    [__run] / [run].

    C++ effects are threaded through a small state-and-error monad.  The
    state is a [World]: the static [backend] pointer, the execution units
    started so far, and the chronological [log] of what happened
    (diagnostics, constructions and destructions of the backend,
    registrations, launches, joins).  A call ends in one of five ways: it
    returns, a C++ exception leaves it, the calling thread is suspended (a
    unit it joins is still running, or a mutex is taken), the process
    aborts, or the behaviour is undefined.

    The run of a unit belongs to its functor and to the scheduler, not to
    this header: a world records for each unit whether it still runs or how
    it ended, and the statements below hold for every world.  Where the
    claims are about calls of several threads cutting into each other, the
    registry is given a second reading, statement by statement, in
    [Interleaving].

    exception.h, debug.h and the constructor and destructor of [__Backend]
    are not among the sources; what is taken for them is said where they
    are introduced.

    After the thread primitives come the other sources: the merge of
    direction sets of cmd/dirmerge.cpp ([Dirmerge]), the two item models of
    the file dialog ([Dialog]) and the table of mask directions of
    cmd/mrpermute.cpp ([Mrpermute]).  Their definitions stand before
    [Properties], their statements after those about the thread
    primitives. *)

From Stdlib Require SpecFloat.
From stdpp Require Import base numbers list strings pretty.
From stdpp Require Import sorting.

(** ** Machine integers: [size_t] *)

Definition SIZE_MODULUS : N := 2 ^ 64.

(** [++n] on a [size_t]. *)
Definition size_succ (n : N) : N := (n + 1) mod SIZE_MODULUS.

(** [--n] and [n - 1] on a [size_t]. *)
Definition size_pred (n : N) : N := (n + (SIZE_MODULUS - 1)) mod SIZE_MODULUS.

(** ** Exceptions, outcomes, execution units *)

(** Modelled from the spec: exception.h is not among the sources.  An
    [Exception] is the framework's failure type (a worker failure is "a domain
    error"); it is built from a message and [display()] reports it through
    the diagnostic channel. *)
Record Exception := mkException { description : string }.

(** What a [throw] can carry: the framework's [Exception], or an object of
    any other type, which [catch (Exception& E)] does not match. *)
Inductive thrown :=
| MRException (E : Exception)
| Foreign (what : string).

(** How the entry operation [execute()] of a unit ended. *)
Inductive outcome :=
| Ok
| Threw (t : thrown).

Inductive status :=
| Running
| Done (o : outcome).

(** The functor instance a unit runs [execute()] on: the caller's object
    ([&functor]) or slot [i] of the handle's own vector ([&functors[i]]). *)
Inductive target :=
| Original (a : nat)
| Copy (i : nat).

Record unit_state := mkUnit { target_of : target; status_of : status }.

(** [std::future<void>]: either empty, or the result channel of unit [u]. *)
Inductive future :=
| Invalid
| Valid (u : nat).

Definition valid (f : future) : bool :=
  match f with Valid _ => true | Invalid => false end.

(** ** The world *)

Inductive event :=
| EvDebug (msg : string)            (* DEBUG (msg) *)
| EvDisplay (E : Exception)         (* E.display() *)
| EvBackendCtor                     (* __Backend::__Backend() *)
| EvBackendDtor                     (* __Backend::~__Backend() *)
| EvRegister                        (* ++backend->refcount *)
| EvUnregister                      (* --backend->refcount *)
| EvAsync (u : nat) (tgt : target)  (* std::async (std::launch::async, &F::execute, tgt) *)
| EvGet (u : nat).                  (* future::get() came back for unit u *)

Record __Backend := mkBackend { refcount : N; mutex : bool }.

(** The static [__Backend* backend]. *)
Inductive pointer :=
| nullptr
| live (b : __Backend)
| dangling.

Record World := mkWorld {
  backend : pointer;
  units : list unit_state;
  log : list event
}.

Definition set_backend (p : pointer) (w : World) : World :=
  mkWorld p (units w) (log w).

Definition set_units (us : list unit_state) (w : World) : World :=
  mkWorld (backend w) us (log w).

Definition set_log (l : list event) (w : World) : World :=
  mkWorld (backend w) (units w) l.

(** ** The monad *)

Inductive result (A : Type) :=
| Normal (a : A)
| Raise (t : thrown)
| Blocked
| Abort
| Undefined.

Arguments Normal {A} a.
Arguments Raise {A} t.
Arguments Blocked {A}.
Arguments Abort {A}.
Arguments Undefined {A}.

Definition M (S A : Type) : Type := S -> result A * S.

Definition ret {S A} (a : A) : M S A := fun s => (Normal a, s).

Definition bind {S A B} (m : M S A) (k : A -> M S B) : M S B :=
  fun s =>
    match m s with
    | (Normal a, s') => k a s'
    | (Raise t, s') => (Raise t, s')
    | (Blocked, s') => (Blocked, s')
    | (Abort, s') => (Abort, s')
    | (Undefined, s') => (Undefined, s')
    end.

Notation "'let*' x := m 'in' k" := (bind m (fun x => k))
  (at level 10, x name, m at level 100, k at level 200).
Notation "m >> k" := (bind m (fun _ => k))
  (at level 100, k at level 200, right associativity).

Definition gets {S A} (f : S -> A) : M S A := fun s => (Normal (f s), s).
Definition modify {S} (f : S -> S) : M S unit := fun s => (Normal tt, f s).
Definition raise {S A} (t : thrown) : M S A := fun s => (Raise t, s).
Definition blocked {S A} : M S A := fun s => (Blocked, s).
Definition abort {S A} : M S A := fun s => (Abort, s).
Definition undefined {S A} : M S A := fun s => (Undefined, s).

(** [try { body } catch (Exception& E) { handler }]: only an [Exception] is
    caught. *)
Definition try_catch {S A} (body : M S A) (handler : Exception -> M S A) : M S A :=
  fun s =>
    match body s with
    | (Raise (MRException E), s') => handler E s'
    | other => other
    end.

(** A destructor is [noexcept]: an exception that leaves it ends in
    [std::terminate]. *)
Definition noexcept {S A} (body : M S A) : M S A :=
  fun s =>
    match body s with
    | (Raise _, s') => (Abort, s')
    | other => other
    end.

(** Stack unwinding out of a constructor: when [body] throws, what has been
    constructed so far is destroyed by [cleanup], and the exception goes
    on.  A destructor that throws meanwhile ends in [std::terminate]. *)
Definition unwinding {S A} (body : M S A) (cleanup : M S unit) : M S A :=
  fun s =>
    match body s with
    | (Raise t, s') =>
        match cleanup s' with
        | (Normal _, s'') => (Raise t, s'')
        | (Raise _, s'') => (Abort, s'')
        | (Blocked, s'') => (Blocked, s'')
        | (Abort, s'') => (Abort, s'')
        | (Undefined, s'') => (Undefined, s'')
        end
    | other => other
    end.

(** ** Diagnostics *)

Definition emit (e : event) : M World unit :=
  modify (fun w => set_log (log w ++ [e]) w).

(** Modelled from the spec: debug.h is not among the sources, and the spec
    is silent on tracing.  [DEBUG] is taken to record its message as a trace
    line, apart from the failure reports of [display()]. *)
Definition DEBUG (msg : string) : M World unit := emit (EvDebug msg).

Definition display (E : Exception) : M World unit := emit (EvDisplay E).

Definition quoted (s : string) : string :=
  let dq := String (Ascii.ascii_of_nat 34) EmptyString in
  dq +:+ s +:+ dq.

(** ** __Backend *)

(** Modelled from the spec: the constructor is defined outside the sources.
    It installs the thread-safe diagnostic hooks and starts the count at
    zero ("constructing process-wide thread-support state on the transition
    from 0 to 1"). *)
Definition __Backend_ctor : M World __Backend :=
  emit EvBackendCtor >> ret (mkBackend 0 false).

(** Modelled from the spec: the destructor is defined outside the sources.
    It restores the previous hooks. *)
Definition __Backend_dtor : M World unit := emit EvBackendDtor.

Definition is_null (p : pointer) : bool :=
  match p with nullptr => true | _ => false end.

(** [*backend]: undefined unless the pointer is live. *)
Definition deref_backend : M World __Backend :=
  fun w =>
    match backend w with
    | live b => (Normal b, w)
    | _ => (Undefined, w)
    end.

Definition store_backend (b : __Backend) : M World unit :=
  modify (set_backend (live b)).

(** [backend = new __Backend;] *)
Definition new_backend : M World unit :=
  let* b := __Backend_ctor in store_backend b.

(** [delete backend;] *)
Definition delete_backend : M World unit :=
  deref_backend >> __Backend_dtor >> modify (set_backend dangling).

(** [get_lock().lock()]: suspends while the mutex is taken. *)
Definition mutex_lock : M World unit :=
  let* b := deref_backend in
  if mutex b then blocked else store_backend (mkBackend (refcount b) true).

Definition mutex_unlock : M World unit :=
  let* b := deref_backend in store_backend (mkBackend (refcount b) false).

(** [std::lock_guard<std::mutex> (__Backend::get_lock());]
    The guard has no name: it is a temporary, built and destroyed within
    this one statement.  The mutex is taken and released again before the
    next statement runs. *)
Definition lock_guard_temporary : M World unit :=
  mutex_lock >> mutex_unlock.

(** [++backend->refcount;] *)
Definition incr_refcount : M World unit :=
  let* b := deref_backend in
  store_backend (mkBackend (size_succ (refcount b)) (mutex b)) >> emit EvRegister.

(** [--backend->refcount;] *)
Definition decr_refcount : M World unit :=
  let* b := deref_backend in
  store_backend (mkBackend (size_pred (refcount b)) (mutex b)) >> emit EvUnregister.

Definition register_thread : M World unit :=
  let* p := gets backend in
  (if is_null p then new_backend else ret tt) >>
  lock_guard_temporary >>
  incr_refcount.

Definition unregister_thread : M World unit :=
  lock_guard_temporary >>
  decr_refcount >>
  let* b := deref_backend in
  if (refcount b =? 0)%N
  then delete_backend >> modify (set_backend nullptr)
  else ret tt.

(** ** Execution units and futures *)

(** [std::async (std::launch::async, &F::execute, tgt)]: a new unit starts
    running [execute()] on [tgt]; the call hands back its future at once.
    Thread creation is taken to succeed. *)
Definition async (tgt : target) : M World future :=
  fun w =>
    let u := length (units w) in
    (Normal (Valid u),
     mkWorld (backend w) (units w ++ [mkUnit tgt Running]) (log w ++ [EvAsync u tgt])).

Definition unit_status (w : World) (u : nat) : option status :=
  status_of <$> units w !! u.

(** [f.get()]: the caller sleeps until the unit has terminated, then
    receives what [execute()] ended with.  On an empty future the behaviour
    is undefined. *)
Definition future_get (f : future) : M World unit :=
  match f with
  | Invalid => undefined
  | Valid u =>
      let* st := gets (fun w => unit_status w u) in
      match st with
      | None => undefined
      | Some Running => blocked
      | Some (Done Ok) => emit (EvGet u)
      | Some (Done (Threw t)) => emit (EvGet u) >> raise t
      end
  end.

(** [~future()] for a future obtained from [std::async]: it joins the unit
    if the result was never fetched, and drops what the unit ended with. *)
Definition future_dtor (f : future) : M World unit :=
  match f with
  | Invalid => ret tt
  | Valid u =>
      let* st := gets (fun w => unit_status w u) in
      match st with
      | Some (Done _) => ret tt
      | Some Running => blocked
      | None => undefined
      end
  end.

(** Methods run on a pair: the world and the object itself. *)
Definition liftW {H A} (m : M World A) : M (World * H) A :=
  fun s => let '(r, w') := m (fst s) in (r, (w', snd s)).

Definition self {H} : M (World * H) H := gets snd.

(** [fld.get()] on a future member: once [get()] has come back, with a value
    or with an exception, the member is empty. *)
Definition get_member {H} (rd : H -> future) (wr : future -> H -> H) : M (World * H) unit :=
  fun s =>
    match future_get (rd (snd s)) (fst s) with
    | (Normal a, w') => (Normal a, (w', wr Invalid (snd s)))
    | (Raise t, w') => (Raise t, (w', wr Invalid (snd s)))
    | (other, w') => (other, (w', snd s))
    end.

(** ** __thread_base *)

Record __thread_base := mkBase { name : string }.

Definition __thread_base_ctor (name : string) : M World __thread_base :=
  register_thread >> ret (mkBase name).

Definition __thread_base_dtor : M World unit := unregister_thread.

(** ** Functors *)

(** What the templates ask of a functor type [F]: a member [void execute ()],
    whose run belongs to the client (the world records how it ended), and a
    copy constructor. *)
Class Functor (F : Type) := { copy_construct : F -> F }.

(** [Functor&]: a caller-owned object, known by its address. *)
Record ref (F : Type) := mkRef { address : nat; value : F }.
Arguments mkRef {F} address value.
Arguments address {F} r.
Arguments value {F} r.

(** ** __single_thread *)

Record __single_thread := mkSingle { single_base : __thread_base; thread : future }.

Definition set_thread (f : future) (h : __single_thread) : __single_thread :=
  mkSingle (single_base h) f.

Definition __single_thread_ctor {F} `{Functor F} (functor : ref F) (name : string)
  : M World __single_thread :=
  let* base := __thread_base_ctor name in
  DEBUG ("launching thread " +:+ quoted name +:+ "...") >>
  let* t := async (Original (address functor)) in
  ret (mkSingle base t).

Definition __single_thread_wait : M (World * __single_thread) unit :=
  let* h := self in
  liftW (DEBUG ("waiting for completion of thread " +:+ quoted (name (single_base h)) +:+ "...")) >>
  get_member thread set_thread >>
  liftW (DEBUG ("thread " +:+ quoted (name (single_base h)) +:+ " completed OK")).

Definition __single_thread_dtor : M (World * __single_thread) unit :=
  noexcept (
    let* h := self in
    (if valid (thread h)
     then try_catch __single_thread_wait (fun E => liftW (display E))
     else ret tt) >>
    let* h := self in
    liftW (future_dtor (thread h)) >>
    liftW __thread_base_dtor).

(** ** __multi_thread *)

Record __multi_thread (F : Type) := mkMulti {
  multi_base : __thread_base;
  threads : list future;
  functors : list F
}.
Arguments mkMulti {F} multi_base threads functors.
Arguments multi_base {F} _.
Arguments threads {F} _.
Arguments functors {F} _.

Definition thread_at {F} (i : nat) (h : __multi_thread F) : future :=
  default Invalid (threads h !! i).

Definition set_thread_at {F} (i : nat) (f : future) (h : __multi_thread F) : __multi_thread F :=
  mkMulti (multi_base h) (<[i := f]> (threads h)) (functors h).

(** [for (auto& f : functors) threads.push_back (std::async (..., &f));] *)
Fixpoint launch_copies (slots : list nat) : M World (list future) :=
  match slots with
  | [] => ret []
  | i :: rest =>
      let* t := async (Copy i) in
      let* ts := launch_copies rest in
      ret (t :: ts)
  end.

(** [std::vector<F>::max_size()] is fixed by the implementation, and in
    every implementation it is less than the largest [size_t] (it is at most
    [PTRDIFF_MAX / sizeof (F)]).  The bound taken here is the largest it
    could be, so that the constructor below fails only where it fails under
    every implementation. *)
Definition vector_max_size : N := SIZE_MODULUS - 2.

(** [std::vector<F> (count, v)]: [count] copies of [v].  A count
    above [max_size()] throws [std::length_error]; otherwise allocation is
    taken to succeed. *)
Definition vector_ctor {F S} `{Functor F} (count : N) (v : F) : M S (list F) :=
  if (vector_max_size <? count)%N
  then raise (Foreign "std::length_error")
  else ret (replicate (N.to_nat count) (copy_construct v)).

(** The base is constructed first, then the members: [threads], empty, and
    [functors (nthreads-1, functor)], which holds [nthreads-1] copies, the
    subtraction being that of [size_t].  When the construction of [functors]
    throws, the base is destroyed again and the exception leaves the
    constructor, its body not entered.  [threads.reserve] has no effect of
    its own. *)
Definition __multi_thread_ctor {F} `{Functor F} (functor : ref F) (nthreads : N) (name : string)
  : M World (__multi_thread F) :=
  let* base := __thread_base_ctor name in
  let* functors := unwinding (vector_ctor (size_pred nthreads) (value functor))
                             __thread_base_dtor in
  DEBUG ("launching " +:+ pretty nthreads +:+ " threads " +:+ quoted name +:+ "...") >>
  let* copies := launch_copies (seq 0 (length functors)) in
  let* t := async (Original (address functor)) in
  ret (mkMulti base (copies ++ [t]) functors).

(** One turn of the loop over [threads] in [wait()], on element [i]. *)
Definition wait_body {F} (i : nat) (exception_thrown : bool) : M (World * __multi_thread F) bool :=
  let* h := self in
  if valid (thread_at i h)
  then try_catch
         (get_member (thread_at i) (set_thread_at i) >> ret exception_thrown)
         (fun E => liftW (display E) >> ret true)
  else ret exception_thrown.

Fixpoint wait_loop {F} (indices : list nat) (exception_thrown : bool)
  : M (World * __multi_thread F) bool :=
  match indices with
  | [] => ret exception_thrown
  | i :: rest =>
      let* flag := wait_body i exception_thrown in
      wait_loop rest flag
  end.

Definition group_failure (name : string) : Exception :=
  mkException ("exception thrown from one or more threads " +:+ quoted name).

Definition __multi_thread_wait {F} : M (World * __multi_thread F) unit :=
  let* h := self in
  liftW (DEBUG ("waiting for completion of threads " +:+ quoted (name (multi_base h)) +:+ "...")) >>
  let* exception_thrown := wait_loop (seq 0 (length (threads h))) false in
  if exception_thrown
  then raise (MRException (group_failure (name (multi_base h))))
  else liftW (DEBUG ("threads " +:+ quoted (name (multi_base h)) +:+ " completed OK")).

Fixpoint futures_dtor (fs : list future) : M World unit :=
  match fs with
  | [] => ret tt
  | f :: rest => future_dtor f >> futures_dtor rest
  end.

(** The body, then the members ([functors], then [threads]), then the base. *)
Definition __multi_thread_dtor {F} : M (World * __multi_thread F) unit :=
  noexcept (
    try_catch __multi_thread_wait (fun E => liftW (display E)) >>
    let* h := self in
    liftW (futures_dtor (threads h)) >>
    liftW __thread_base_dtor).

(** ** __Multi, __run, multi, run *)

Record __Multi (F : Type) := mkRequest { functor : ref F; num : N }.
Arguments mkRequest {F} functor num.
Arguments functor {F} _.
Arguments num {F} _.

(** [assert (0)]: aborts, unless assertions are compiled out ([NDEBUG]). *)
Definition assert_false {S} (ndebug : bool) : M S unit :=
  if ndebug then ret tt else abort.

(** [template <class X> bool operator() (const X&)] *)
Definition call_const {F X S} (ndebug : bool) (m : __Multi F) (x : X) : M S bool :=
  assert_false ndebug >> ret false.

(** [template <class X> bool operator() (X&)] *)
Definition call_mutable {F X S} (ndebug : bool) (m : __Multi F) (x : X) : M S bool :=
  assert_false ndebug >> ret false.

(** [template <class X, class Y> bool operator() (const X&, Y&)] *)
Definition call_pair {F X Y S} (ndebug : bool) (m : __Multi F) (x : X) (y : Y) : M S bool :=
  assert_false ndebug >> ret false.

(** The class template [__run] and its specialisation for [__Multi]: the
    argument type alone selects the handle type and the constructor. *)
Class __run (X : Type) := {
  type : Type;
  call : X -> string -> M World type
}.
Arguments type X {_}.

#[export] Instance __run_primary (F : Type) `{Functor F} : __run (ref F) := {|
  type := __single_thread;
  call f name := __single_thread_ctor f name
|}.

#[export] Instance __run_Multi (F : Type) `{Functor F} : __run (__Multi F) := {|
  type := __multi_thread F;
  call m name := __multi_thread_ctor (functor m) (num m) name
|}.

(** The default of [nthreads], [number_of_threads ()], is defined outside
    the sources: here the count is always given. *)
Definition multi {F} (functor : ref F) (nthreads : N) : __Multi F :=
  mkRequest functor nthreads.

Definition run {X} `{__run X} (functor : X) (name : string) : M World (type X) :=
  call functor name.

(** ** Moving a handle *)

(** [__thread_base] declares a destructor and neither a copy nor a move
    constructor, so the compiler supplies the copy constructor alone.  It
    copies [name]; only the constructor from a name registers. *)
Definition __thread_base_copy (b : __thread_base) : __thread_base := mkBase (name b).

(** [__single_thread (__single_thread&& s) = default], run on [s]: the base
    is initialised from that of [s], which selects the copy constructor, and
    the future is moved, which leaves that of [s] empty. *)
Definition __single_thread_move : M (World * __single_thread) __single_thread :=
  let* s := self in
  modify (fun ws => (fst ws, set_thread Invalid (snd ws))) >>
  ret (mkSingle (__thread_base_copy (single_base s)) (thread s)).

(** ** The registry, one statement at a time

    [register_thread] and [unregister_thread] cut at their statements, so
    that calls made by several threads can be interleaved.  A thread is a
    program counter; the world is shared. *)

Module Interleaving.

Inductive pc :=
| Reg_test      (* if (!backend) *)
| Reg_new       (* backend = new __Backend; *)
| Reg_lock      (* the temporary guard is built *)
| Reg_unlock    (* ... and destroyed at the end of its statement *)
| Reg_incr      (* ++backend->refcount; *)
| Unreg_lock
| Unreg_unlock
| Unreg_decr    (* --backend->refcount; *)
| Unreg_test    (* if (!backend->refcount) *)
| Unreg_delete  (* delete backend; *)
| Unreg_clear   (* backend = nullptr; *)
| Returned.

Definition exec (p : pc) : M World pc :=
  match p with
  | Reg_test =>
      let* b := gets backend in
      ret (if is_null b then Reg_new else Reg_lock)
  | Reg_new => new_backend >> ret Reg_lock
  | Reg_lock => mutex_lock >> ret Reg_unlock
  | Reg_unlock => mutex_unlock >> ret Reg_incr
  | Reg_incr => incr_refcount >> ret Returned
  | Unreg_lock => mutex_lock >> ret Unreg_unlock
  | Unreg_unlock => mutex_unlock >> ret Unreg_decr
  | Unreg_decr => decr_refcount >> ret Unreg_test
  | Unreg_test =>
      let* b := deref_backend in
      ret (if (refcount b =? 0)%N then Unreg_delete else Returned)
  | Unreg_delete => delete_backend >> ret Unreg_clear
  | Unreg_clear => modify (set_backend nullptr) >> ret Returned
  | Returned => ret Returned
  end.

(** [n] statements of one thread, run without interruption. *)
Fixpoint steps (n : nat) (p : pc) : M World pc :=
  match n with
  | O => ret p
  | S n' => let* p' := exec p in steps n' p'
  end.

Record machine := mkMachine { shared : World; pcs : list pc }.

(** Thread [t] runs its next statement; [None] if it cannot (no such
    thread, it has returned, it is suspended, or the behaviour is
    undefined). *)
Definition step (t : nat) (m : machine) : option machine :=
  match pcs m !! t with
  | None => None
  | Some Returned => None
  | Some p =>
      match exec p (shared m) with
      | (Normal p', w') => Some (mkMachine w' (<[t := p']> (pcs m)))
      | _ => None
      end
  end.

Fixpoint run (schedule : list nat) (m : machine) : option machine :=
  match schedule with
  | [] => Some m
  | t :: rest =>
      match step t m with
      | Some m' => run rest m'
      | None => None
      end
  end.

(** The statements that write the count or the singleton pointer. *)
Definition mutates (p : pc) : bool :=
  match p with
  | Reg_new | Reg_incr | Unreg_decr | Unreg_delete | Unreg_clear => true
  | _ => false
  end.

Definition lock_taken (w : World) : bool :=
  match backend w with
  | live b => mutex b
  | _ => false
  end.

(** The writes a schedule performs while no thread at all holds the
    mutex, in order. *)
Fixpoint unguarded (schedule : list nat) (m : machine) : list (nat * pc) :=
  match schedule with
  | [] => []
  | t :: rest =>
      match pcs m !! t, step t m with
      | Some p, Some m' =>
          (if mutates p && negb (lock_taken (shared m)) then [(t, p)] else [])
          ++ unguarded rest m'
      | _, _ => []
      end
  end.

End Interleaving.

(** ** Sequences of registrations *)

Inductive op := Reg | Unreg.

Definition run_op (o : op) : M World unit :=
  match o with
  | Reg => register_thread
  | Unreg => unregister_thread
  end.

Fixpoint run_ops (ops : list op) : M World unit :=
  match ops with
  | [] => ret tt
  | o :: rest => run_op o >> run_ops rest
  end.

(** Live registrations after [ops], starting from [k]; [None] when an
    unregistration comes with no registration left to end. *)
Fixpoint live_after (k : N) (ops : list op) : option N :=
  match ops with
  | [] => Some k
  | Reg :: rest => live_after (k + 1) rest
  | Unreg :: rest => if (k =? 0)%N then None else live_after (k - 1) rest
  end.

(** As many unregistrations as registrations, none of them early. *)
Definition balanced (ops : list op) : bool :=
  match live_after 0 ops with
  | Some 0%N => true
  | _ => false
  end.

(** The largest number of registrations live at once. *)
Fixpoint peak (k : N) (ops : list op) : N :=
  match ops with
  | [] => k
  | Reg :: rest => N.max k (peak (k + 1) rest)
  | Unreg :: rest => N.max k (peak (k - 1) rest)
  end.

(** How often the number of live registrations comes back to zero. *)
Fixpoint returns_to_zero (k : N) (ops : list op) : nat :=
  match ops with
  | [] => 0
  | Reg :: rest => returns_to_zero (k + 1) rest
  | Unreg :: rest => (if (k =? 1)%N then 1 else 0) + returns_to_zero (k - 1) rest
  end.

(** How often a registration finds no other one live. *)
Fixpoint leaves_zero (k : N) (ops : list op) : nat :=
  match ops with
  | [] => 0
  | Reg :: rest => (if (k =? 0)%N then 1 else 0) + leaves_zero (k + 1) rest
  | Unreg :: rest => leaves_zero (k - 1) rest
  end.

Definition registrations (ops : list op) : nat :=
  length (List.filter (fun o => match o with Reg => true | Unreg => false end) ops).

Definition unregistrations (ops : list op) : nat :=
  length (List.filter (fun o => match o with Unreg => true | Reg => false end) ops).

Definition is_teardown (e : event) : bool :=
  match e with EvBackendDtor => true | _ => false end.

Definition is_construction (e : event) : bool :=
  match e with EvBackendCtor => true | _ => false end.

Definition teardowns (l : list event) : nat := length (List.filter is_teardown l).

Definition constructions (l : list event) : nat := length (List.filter is_construction l).

(** The registry holds [k] registrations: no backend for none, otherwise a
    live one that counts [k], its mutex free. *)
Definition registry_at (k : N) (w : World) : Prop :=
  backend w = if (k =? 0)%N then nullptr else live (mkBackend k false).

(** ** Vocabulary for the statements about handles *)

Definition addlog (l : list event) (w : World) : World :=
  set_log (log w ++ l) w.

Definition is_display (e : event) : bool :=
  match e with EvDisplay _ => true | _ => false end.

Definition is_get (e : event) : bool :=
  match e with EvGet _ => true | _ => false end.

Definition is_async (e : event) : bool :=
  match e with EvAsync _ _ => true | _ => false end.

Definition is_unregister (e : event) : bool :=
  match e with EvUnregister => true | _ => false end.

(** What [w'] has logged since [w]. *)
Definition logged (w w' : World) : list event :=
  drop (length (log w)) (log w').

(** The units started after [w], seen from [w']. *)
Definition started (w w' : World) : list unit_state :=
  drop (length (units w)) (units w').

(** The environment's move: unit [u] terminates with outcome [o]. *)
Definition finish (u : nat) (o : outcome) (w : World) : World :=
  set_units (alter (fun us => mkUnit (target_of us) (Done o)) u (units w)) w.

(** The failure a future holds for its caller, if its unit ended with one. *)
Definition failure_of (w : World) (f : future) : option Exception :=
  match f with
  | Valid u =>
      match unit_status w u with
      | Some (Done (Threw (MRException E))) => Some E
      | _ => None
      end
  | Invalid => None
  end.

Definition failures (w : World) (fs : list future) : list Exception :=
  omap (failure_of w) fs.

Definition has_failure (w : World) (fs : list future) : bool :=
  match failures w fs with
  | [] => false
  | _ :: _ => true
  end.

(** What joining one future adds to the log inside the group's [wait()]. *)
Definition join_events (w : World) (f : future) : list event :=
  match f with
  | Invalid => []
  | Valid u =>
      EvGet u :: match failure_of w f with
                 | Some E => [EvDisplay E]
                 | None => []
                 end
  end.

Definition join_log (w : World) (fs : list future) : list event :=
  concat (map (join_events w) fs).

(** The unit behind the future has terminated, well or with a failure of
    the framework's type. *)
Definition settled (w : World) (f : future) : Prop :=
  match f with
  | Invalid => True
  | Valid u =>
      unit_status w u = Some (Done Ok)
      \/ exists E, unit_status w u = Some (Done (Threw (MRException E)))
  end.

(** The units a list of futures still refers to. *)
Definition units_of (fs : list future) : list nat :=
  omap (fun f => match f with Valid u => Some u | Invalid => None end) fs.

(** The world after a registration that finds [k] others live, and after
    an unregistration that leaves [k - 1]. *)
Definition registered (k : N) (w : World) : World :=
  mkWorld (live (mkBackend (k + 1) false)) (units w)
          (log w ++ (if (k =? 0)%N then [EvBackendCtor] else []) ++ [EvRegister]).

Definition unregistered (k : N) (w : World) : World :=
  mkWorld (if (k =? 1)%N then nullptr else live (mkBackend (k - 1) false)) (units w)
          (log w ++ [EvUnregister] ++ (if (k =? 1)%N then [EvBackendDtor] else [])).

(** The trace lines of the handles. *)
Definition single_launching (name : string) : event :=
  EvDebug ("launching thread " +:+ quoted name +:+ "...").

Definition single_waiting (name : string) : event :=
  EvDebug ("waiting for completion of thread " +:+ quoted name +:+ "...").

Definition single_completed (name : string) : event :=
  EvDebug ("thread " +:+ quoted name +:+ " completed OK").

Definition multi_launching (n : N) (name : string) : event :=
  EvDebug ("launching " +:+ pretty n +:+ " threads " +:+ quoted name +:+ "...").

Definition multi_waiting (name : string) : event :=
  EvDebug ("waiting for completion of threads " +:+ quoted name +:+ "...").

Definition multi_completed (name : string) : event :=
  EvDebug ("threads " +:+ quoted name +:+ " completed OK").

(** A handle whose futures have all been emptied. *)
Definition spent {F} (h : __multi_thread F) : __multi_thread F :=
  mkMulti (multi_base h) (map (fun _ => Invalid) (threads h)) (functors h).

(** The functor instances a group of [copies + 1] workers runs on, in the
    order of launch, and the launches as the log records them. *)
Definition group_targets (copies : nat) (a : nat) : list target :=
  map Copy (seq 0 copies) ++ [Original a].

Definition launch_events (first : nat) (tgts : list target) : list event :=
  imap (fun j t => EvAsync (first + j) t) tgts.

Definition fresh_units (tgts : list target) : list unit_state :=
  map (fun t => mkUnit t Running) tgts.

(** ** Sample inputs *)

(** A functor without state, and the world before any thread. *)
#[export] Instance noop_functor : Functor unit := {| copy_construct x := x |}.

Definition initial_world : World := mkWorld nullptr [] [].

Definition boom : Exception := mkException "boom".

(** Two handles at rest: a single-thread handle on unit 0 and a group of
    three on units 1 to 3, in a world where every unit has terminated, units
    0 and 2 with a failure. *)
Definition sample_world : World :=
  mkWorld (live (mkBackend 2 false))
          [mkUnit (Original 7) (Done (Threw (MRException boom)));
           mkUnit (Copy 0) (Done Ok);
           mkUnit (Copy 1) (Done (Threw (MRException boom)));
           mkUnit (Original 8) (Done Ok)]
          [].

Definition sample_single : __single_thread := mkSingle (mkBase "job") (Valid 0).

Definition sample_group : __multi_thread unit :=
  mkMulti (mkBase "grp") [Valid 1; Valid 2; Valid 3] [tt; tt].

(** The sample world with the second worker of the group (unit 2) in
    another state: still running, or ended otherwise. *)
Definition sample_world_with (st : status) : World :=
  mkWorld (live (mkBackend 2 false))
          [mkUnit (Original 7) (Done (Threw (MRException boom)));
           mkUnit (Copy 0) (Done (Threw (MRException boom)));
           mkUnit (Copy 1) st;
           mkUnit (Original 8) (Done Ok)]
          [].

(** One handle alone, its unit terminated well. *)
Definition lone_world : World :=
  mkWorld (live (mkBackend 1 false)) [mkUnit (Original 7) (Done Ok)] [].

(** The sample world gone wrong otherwise: unit 0 and the second worker of
    the group (unit 2) have ended with a throwable that is not an
    [Exception], the first worker with a failure, and the third worker still
    runs. *)
Definition foreign_world : World :=
  mkWorld (live (mkBackend 2 false))
          [mkUnit (Original 7) (Done (Threw (Foreign "std::bad_alloc")));
           mkUnit (Copy 0) (Done (Threw (MRException boom)));
           mkUnit (Copy 1) (Done (Threw (Foreign "std::bad_alloc")));
           mkUnit (Original 8) Running]
          [].

(** * More arithmetic of [size_t] *)

Definition size_add (a b : N) : N := (a + b) mod SIZE_MODULUS.
Definition size_sub (a b : N) : N := (a + (SIZE_MODULUS - b mod SIZE_MODULUS)) mod SIZE_MODULUS.
Definition size_mul (a b : N) : N := (a * b) mod SIZE_MODULUS.

(** * Merging direction sets (cmd/dirmerge.cpp)

    The command reads, for each b-value, [num_subsets] sets of directions
    and splices them into one list, one direction at a time: the shell that
    is furthest behind its share, the subset whose turn it is, and in that
    subset the direction of least electrostatic energy against the
    directions of the shell already merged.

    [std::vector::operator[]] does not check its index: an index out of
    range is undefined behaviour, and the model says so.  The loops over a
    vector are folds; the two [while] loops take fuel. *)

Module Dirmerge.

(** The floating-point arithmetic of the command: [value_type] is
    [double], [float] is [float].  What the operations compute is left to
    the instance; [Math::pow2] is declared in math/math.h, which is not
    among the sources. *)
Class Arithmetic := {
  value_type : Type;
  float : Type;
  value_0_0 : value_type;                                (* 0.0 *)
  value_1_0 : value_type;                                (* 1.0 *)
  value_1_2 : value_type;                                (* 1.2 *)
  numeric_limits_max : value_type;                       (* std::numeric_limits<value_type>::max() *)
  add : value_type -> value_type -> value_type;
  sub : value_type -> value_type -> value_type;
  div : value_type -> value_type -> value_type;
  less : value_type -> value_type -> bool;
  pow2 : value_type -> value_type;
  float_of_size_t : N -> float;                          (* float (n) *)
  float_div : float -> float -> float;
  float_sub : float -> float -> float;
  value_of_float : float -> value_type                   (* the conversion in [value_type f_diff = ...] *)
}.

(** What is called and not among the sources: [to<value_type>] and
    [DWI::Directions::load_cartesian], which may throw; a matrix is the
    list of its rows. *)
Class Files `{Arithmetic} := {
  to_value_type : string -> result value_type;
  load_cartesian : string -> result (list (list value_type))
}.

(** The pure part of the monad: a computation that ends like a call does
    and has no state of its own. *)
Definition and_then {A B} (r : result A) (k : A -> result B) : result B :=
  match r with
  | Normal a => k a
  | Raise t => Raise t
  | Blocked => Blocked
  | Abort => Abort
  | Undefined => Undefined
  end.

Notation "'let!' x := r 'in' k" := (and_then r (fun x => k))
  (at level 10, x pattern, r at level 100, k at level 200).

(** [v[i]] *)
Definition at_index {A} (v : list A) (i : N) : result A :=
  match v !! N.to_nat i with
  | Some a => Normal a
  | None => Undefined
  end.

(** [v.size()] *)
Definition size {A} (v : list A) : N := N.of_nat (length v).

(** [for (size_t n = 0; n < bound; ++n) body], the variables the body
    assigns carried in [A]. *)
Definition for_upto {A} (bound : N) (body : N -> A -> result A) (init : A) : result A :=
  foldl (fun acc n => let! a := acc in body n a) (Normal init)
        (map N.of_nat (seq 0 (N.to_nat bound))).

(** [for (auto& x : v) body] *)
Definition for_each {A X} (v : list X) (body : X -> A -> result A) (init : A) : result A :=
  foldl (fun acc x => let! a := acc in body x a) (Normal init) v.

Section Model.
Context `{Arithmetic}.

(** [std::array<value_type,3>] *)
Record Direction := mkDirection { elem0 : value_type; elem1 : value_type; elem2 : value_type }.

Definition DirectionSet : Type := list Direction.

Record OutDir := mkOutDir { OutDir_d : Direction; OutDir_b : N; OutDir_pe : N }.

(** The variables the lambdas of [run] capture by reference and change. *)
Record State := mkState { dirs : list (list DirectionSet); merged : list OutDir }.

(** [dirs[b][p]] *)
Definition subset (ds : list (list DirectionSet)) (b p : N) : result DirectionSet :=
  let! shell := at_index ds b in
  at_index shell p.

(** ** The argument count *)

(** [std::vector<value_type> bvalue ((argument.size() - 2) / (1+num_subsets))]:
    the number of b-values expected, on [size_t]. *)
Definition expected_bvalues (num_subsets argument_size : N) : result N :=
  let divisor := size_add 1 num_subsets in
  if (divisor =? 0)%N then Undefined
  else Normal (size_sub argument_size 2 / divisor)%N.

Definition inconsistent : thrown :=
  MRException (mkException "inconsistent number of arguments").

Definition check_arguments (num_subsets argument_size : N) : result N :=
  let! nb := expected_bvalues num_subsets argument_size in
  if (size_add (size_mul nb (size_add 1 num_subsets)) 2 =? argument_size)%N
  then Normal nb
  else Raise inconsistent.

(** ** Reading *)

(** [for (size_t r = 0; r < m.rows(); ++r) set.push_back ({ m(r,0), m(r,1), m(r,2) })] *)
Definition rows_to_set (m : list (list value_type)) : result DirectionSet :=
  for_each m (fun row set =>
    let! c0 := at_index row 0 in
    let! c1 := at_index row 1 in
    let! c2 := at_index row 2 in
    Normal (set ++ [mkDirection c0 c1 c2])) [].

Record Reader := mkReader {
  current : N;
  nb : N;
  bvalue : list value_type;
  read : list (list DirectionSet)
}.

Context `{!Files}.

(** The body of [for (size_t i = 0; i < num_subsets; ++i)]: one file. *)
Definition read_subset (argument : list string) (cd : N * list DirectionSet)
  : result (N * list DirectionSet) :=
  let! name := at_index argument (fst cd) in
  let! m := load_cartesian name in
  let! set := rows_to_set m in
  Normal (size_succ (fst cd), snd cd ++ [set]).

(** The body of [while (current < argument.size()-1)]: one b-value and its
    subsets.  In [bvalue[nb] = to<value_type> (argument[current++])] both
    indices are used whichever side is evaluated first. *)
Definition read_shell (num_subsets : N) (argument : list string) (r : Reader) : result Reader :=
  let! text := at_index argument (current r) in
  if (nb r <? size (bvalue r))%N then
    let! value := to_value_type text in
    let! cd := for_upto num_subsets (fun _ cd => read_subset argument cd)
                        (size_succ (current r), []) in
    Normal (mkReader (fst cd) (size_succ (nb r))
                     (<[N.to_nat (nb r) := value]> (bvalue r))
                     (read r ++ [snd cd]))
  else Undefined.

Fixpoint read_loop (fuel : nat) (num_subsets : N) (argument : list string) (r : Reader)
  : option (result Reader) :=
  if (current r <? size_pred (size argument))%N then
    match fuel with
    | O => None
    | S fuel' =>
        match read_shell num_subsets argument r with
        | Normal r' => read_loop fuel' num_subsets argument r'
        | other => Some other
        end
    end
  else Some (Normal r).

(** Lines 72 to 99: the count of b-values, the check, the reading. *)
Definition read_arguments (fuel : nat) (num_subsets : N) (argument : list string)
  : option (result Reader) :=
  match check_arguments num_subsets (size argument) with
  | Normal n =>
      read_loop fuel num_subsets argument
                (mkReader 1 0 (replicate (N.to_nat n) value_0_0) [])
  | other => Some (let! _ := other in Undefined)
  end.

(** ** Merging *)

(** [size_t total = [&]{ size_t n = 0; for (auto& d : dirs) for (auto& m : d) n += m.size(); return n; }()] *)
Definition shell_count (shell : list DirectionSet) : N :=
  foldl (fun n m => size_add n (size m)) 0%N shell.

Definition total_count (ds : list (list DirectionSet)) : N :=
  foldl (fun n d => foldl (fun n m => size_add n (size m)) n d) 0%N ds.

Definition push (b p n : N) (st : State) : result State :=
  let! shell := at_index (dirs st) b in
  let! set := at_index shell p in
  let! x := at_index set n in
  Normal (mkState (<[N.to_nat b := <[N.to_nat p := delete (N.to_nat n) set]> shell]> (dirs st))
                  (merged st ++ [mkOutDir (mkDirection (elem0 x) (elem1 x) (elem2 x)) b p])).

Definition energy_pair (a b : Direction) : value_type :=
  add (div value_1_2
           (add (add (pow2 (sub (elem0 b) (elem0 a)))
                     (pow2 (sub (elem1 b) (elem1 a))))
                (pow2 (sub (elem2 b) (elem2 a)))))
      (div value_1_0
           (add (add (pow2 (add (elem0 b) (elem0 a)))
                     (pow2 (add (elem1 b) (elem1 a))))
                (pow2 (add (elem2 b) (elem2 a))))).

Definition energy (b p n : N) (st : State) : result value_type :=
  for_each (merged st) (fun d E =>
    if (OutDir_b d =? b)%N then
      let! set := subset (dirs st) b p in
      let! x := at_index set n in
      Normal (add E (energy_pair (OutDir_d d) x))
    else Normal E) value_0_0.

Definition find_lowest_energy_direction (b p : N) (st : State) : result N :=
  let! set := subset (dirs st) b p in
  let! found := for_upto (size set) (fun n found =>
      let! E := energy b p n st in
      if less E (snd found) then Normal (n, E) else Normal found)
    (0%N, numeric_limits_max) in
  Normal (fst found).

(** [fraction]: the share of each shell in the whole. *)
Definition fractions (total : N) (ds : list (list DirectionSet)) : list float :=
  map (fun d => float_div (float_of_size_t (shell_count d)) (float_of_size_t total)) ds.

Definition num_for_b (b : N) (st : State) : N :=
  foldl (fun n d => if (OutDir_b d =? b)%N then size_succ n else n) 0%N (merged st).

(** [float(num_for_b(n)) / float (merged.size()) - fraction[n]]: how far
    shell [n] is ahead of its share of the merged list. *)
Definition shortfall (n : N) (fraction : list float) (st : State) : result value_type :=
  let! share := at_index fraction n in
  Normal (value_of_float
            (float_sub (float_div (float_of_size_t (num_for_b n st))
                                  (float_of_size_t (size (merged st))))
                       share)).

(** The [for] loop of lines 188 to 194, which leaves in [b] the shell
    furthest behind its share among those that have a direction left in
    subset [nPE]. *)
Definition find_shell (num_bvalues nPE : N) (fraction : list float) (st : State) : result N :=
  let! found := for_upto num_bvalues (fun n found =>
      let! f_diff := shortfall n fraction st in
      if less f_diff (snd found) then
        let! set := subset (dirs st) n nPE in
        if (size set =? 0)%N then Normal found else Normal (n, f_diff)
      else Normal found)
    (0%N, numeric_limits_max) in
  Normal (fst found).

(** [++nPE; if (nPE >= num_subsets) nPE = 0;] *)
Definition next_subset (num_subsets nPE : N) : N :=
  if (num_subsets <=? size_succ nPE)%N then 0%N else size_succ nPE.

(** The body of [while (merged.size() < total)]. *)
Definition iteration (num_subsets num_bvalues : N) (fraction : list float)
    (s : State * N) : result (State * N) :=
  let st := fst s in
  let nPE := snd s in
  let! b := find_shell num_bvalues nPE fraction st in
  let! n := find_lowest_energy_direction b nPE st in
  let! set := subset (dirs st) b nPE in
  let! st' := (if (size set =? 0)%N then Normal st else push b nPE n st) in
  Normal (st', next_subset num_subsets nPE).

Fixpoint merge_loop (fuel : nat) (num_subsets num_bvalues total : N) (fraction : list float)
    (s : State * N) : option (result (State * N)) :=
  if (size (merged (fst s)) <? total)%N then
    match fuel with
    | O => None
    | S fuel' =>
        match iteration num_subsets num_bvalues fraction s with
        | Normal s' => merge_loop fuel' num_subsets num_bvalues total fraction s'
        | other => Some other
        end
    end
  else Some (Normal s).

(** Lines 101 to 205 of [run], from the sets read to the merged list.
    [first] is the value the generator draws; [num_bvalues] is
    [bvalue.size()]. *)
Definition merge (fuel : nat) (num_subsets num_bvalues : N) (first : N)
    (ds : list (list DirectionSet)) : option (result (list OutDir)) :=
  let total := total_count ds in
  let fraction := fractions total ds in
  match (let! st := push 0 0 first (mkState ds []) in
         (* std::vector<size_t> counts (bvalue.size(), 0); ++counts[0]; *)
         if (num_bvalues =? 0)%N then Undefined else Normal st) with
  | Normal st =>
      option_map (fun r => let! s := r in Normal (merged (fst s)))
                 (merge_loop fuel num_subsets num_bvalues total fraction
                             (st, if (1 <? num_subsets)%N then 1%N else 0%N))
  | other => Some (let! _ := other in Undefined)
  end.

(** [std::uniform_int_distribution<size_t> (0, dirs[0][0].size()-1)(rng)]:
    the values the distribution may return. *)
Definition may_draw (ds : list (list DirectionSet)) (first : N) : Prop :=
  exists set, subset ds 0 0 = Normal set /\ (first <= size_pred (size set))%N.

(** [run], from the command line to the merged list, which lines 213 to
    217 write out row by row (File::OFStream and MR::printf are not among
    the sources).  [num_subsets] is [argument[0]] as the integer the parser
    read. *)
Definition run (fuel : nat) (num_subsets : N) (argument : list string) (first : N)
  : option (result (list OutDir)) :=
  match read_arguments fuel num_subsets argument with
  | Some (Normal r) => merge fuel num_subsets (size (bvalue r)) first (read r)
  | Some other => Some (let! _ := other in Undefined)
  | None => None
  end.

(** The command line the usage describes: the number of subsets, then
    for each b-value its text and its files in order, then the output
    file. *)
Definition shell_texts (shells : list (string * list string)) : list string :=
  concat (map (fun s => fst s :: snd s) shells).

Definition command_line (subsets : string) (shells : list (string * list string))
    (out : string) : list string :=
  subsets :: shell_texts shells ++ [out].

(** File [name] loads, and its rows make [set]. *)
Definition loads_as (name : string) (set : DirectionSet) : Prop :=
  exists m, load_cartesian name = Normal m /\ rows_to_set m = Normal set.

(** The texts of one shell convert to the b-value [v] and the sets [d]. *)
Definition shell_reads (s : string * list string) (v : value_type) (d : list DirectionSet)
  : Prop :=
  to_value_type (fst s) = Normal v /\ Forall2 loads_as (snd s) d.

(** Every direction still in [dirs], with the shell and the subset it is
    in. *)
Definition tag_set (b p : nat) (set : DirectionSet) : list OutDir :=
  map (fun x => mkOutDir x (N.of_nat b) (N.of_nat p)) set.

Definition tag_shell (b : nat) (shell : list DirectionSet) : list OutDir :=
  concat (imap (tag_set b) shell).

Definition tagged (ds : list (list DirectionSet)) : list OutDir :=
  concat (imap tag_shell ds).

(** The number of subsets of each shell. *)
Definition shape (ds : list (list DirectionSet)) : list nat := map length ds.

(** Every shell has [num_subsets] subsets, as the reading leaves them. *)
Definition regular (num_subsets : N) (ds : list (list DirectionSet)) : Prop :=
  Forall (fun k => N.of_nat k = num_subsets) (shape ds).

(** Subset [p] of shell [b] has a direction left. *)
Definition nonempty_at (ds : list (list DirectionSet)) (b p : N) : Prop :=
  exists set, subset ds b p = Normal set /\ set <> [].

(** The shortfalls of a state can all be told from the largest [double]. *)
Definition comparable (fraction : list float) (st : State) : Prop :=
  forall n f, shortfall n fraction st = Normal f -> less f numeric_limits_max = true.

(** ... or there is one shell only. *)
Definition decisive (num_bvalues : N) (fraction : list float) (st : State) : Prop :=
  num_bvalues = 1%N \/ comparable fraction st.

(** The same of every state the loop can be in, by the counts alone: [k]
    directions of a shell among [m] merged. *)
Definition shortfalls_compare (total : N) (fraction : list float) : Prop :=
  forall k m share,
    (k <= m)%N -> (1 <= m)%N -> (m < total)%N -> share ∈ fraction ->
    less (value_of_float
            (float_sub (float_div (float_of_size_t k) (float_of_size_t m)) share))
         numeric_limits_max = true.

(** What the loop keeps to: the shape of [dirs], the subset in range, a
    merged list that is not empty, and every direction of the input either
    merged or still in [dirs], under the shell and the subset it was read
    in. *)
Definition kept (num_subsets num_bvalues : N) (input : list (list DirectionSet))
    (s : State * N) : Prop :=
  regular num_subsets (dirs (fst s))
  /\ size (dirs (fst s)) = num_bvalues
  /\ (snd s < num_subsets)%N
  /\ merged (fst s) <> []
  /\ merged (fst s) ++ tagged (dirs (fst s)) ≡ₚ tagged input.

End Model.

End Dirmerge.

(** ** Sample inputs for the merge *)

(** IEEE 754 arithmetic, rounding to nearest even: [double] is binary64,
    [float] is binary32, [Math::pow2] squares. *)
Definition binary64_of_binary32 (f : SpecFloat.spec_float) : SpecFloat.spec_float :=
  match f with
  | SpecFloat.S754_finite s m e =>
      SpecFloat.binary_normalize 53 1024 (SpecFloat.cond_Zopp s (Zpos m)) e s
  | other => other
  end.

#[export] Instance ieee754 : Dirmerge.Arithmetic := {|
  Dirmerge.value_type := SpecFloat.spec_float;
  Dirmerge.float := SpecFloat.spec_float;
  Dirmerge.value_0_0 := SpecFloat.S754_zero false;
  Dirmerge.value_1_0 := SpecFloat.SFone 53 1024;
  Dirmerge.value_1_2 := SpecFloat.S754_finite false 5404319552844595 (-52);
  Dirmerge.numeric_limits_max := SpecFloat.SFmax_float 53 1024;
  Dirmerge.add := SpecFloat.SFadd 53 1024;
  Dirmerge.sub := SpecFloat.SFsub 53 1024;
  Dirmerge.div := SpecFloat.SFdiv 53 1024;
  Dirmerge.less := SpecFloat.SFltb;
  Dirmerge.pow2 := fun v => SpecFloat.SFmul 53 1024 v v;
  Dirmerge.float_of_size_t := fun n => SpecFloat.binary_normalize 24 128 (Z.of_N n) 0 false;
  Dirmerge.float_div := SpecFloat.SFdiv 24 128;
  Dirmerge.float_sub := SpecFloat.SFsub 24 128;
  Dirmerge.value_of_float := binary64_of_binary32
|}.

Definition double_of_Z (z : Z) : SpecFloat.spec_float :=
  SpecFloat.binary_normalize 53 1024 z 0 false.

(** Four files of directions along the axes, and the texts of two
    b-values. *)
Definition sample_matrix (name : string) : result (list (list SpecFloat.spec_float)) :=
  if String.eqb name "b1000-AP.txt" then
    Normal [[double_of_Z 1; double_of_Z 0; double_of_Z 0];
            [double_of_Z 0; double_of_Z 1; double_of_Z 0]]
  else if String.eqb name "b1000-PA.txt" then
    Normal [[double_of_Z 0; double_of_Z 0; double_of_Z 1]]
  else if String.eqb name "b2000-AP.txt" then
    Normal [[double_of_Z 0; double_of_Z 1; double_of_Z 0]]
  else if String.eqb name "b2000-PA.txt" then
    Normal []
  else Raise (MRException (mkException "cannot open file")).

Definition sample_value (text : string) : result SpecFloat.spec_float :=
  if String.eqb text "1000" then Normal (double_of_Z 1000)
  else if String.eqb text "2000" then Normal (double_of_Z 2000)
  else Raise (MRException (mkException "error converting string")).

#[export] Instance sample_files : Dirmerge.Files := {|
  Dirmerge.to_value_type := sample_value;
  Dirmerge.load_cartesian := sample_matrix
|}.

Definition sample_shells : list (string * list string) :=
  [("1000", ["b1000-AP.txt"; "b1000-PA.txt"]); ("2000", ["b2000-AP.txt"; "b2000-PA.txt"])].

Definition axis (x y z : Z) : Dirmerge.Direction :=
  Dirmerge.mkDirection (double_of_Z x) (double_of_Z y) (double_of_Z z).

Definition sample_contents : list (Dirmerge.value_type * list Dirmerge.DirectionSet) :=
  [(double_of_Z 1000, [[axis 1 0 0; axis 0 1 0]; [axis 0 0 1]]);
   (double_of_Z 2000, [[axis 0 1 0]; []])].

Definition sample_sets : list (list Dirmerge.DirectionSet) := map snd sample_contents.


(** Two shells of two sets each, seven directions in all, the first set of
    the first shell holding four; and the state after the first direction
    of that set has been merged: three candidates are left in it, and both
    shells have a direction left in either set. *)
Definition choice_sets : list (list Dirmerge.DirectionSet) :=
  [[[axis 1 0 0; axis 1 1 0; axis 0 1 0; axis 0 1 1]; [axis 0 0 1]];
   [[axis 0 1 0]; [axis 1 0 1]]].

Definition choice_state : Dirmerge.State :=
  Dirmerge.mkState [[[axis 1 1 0; axis 0 1 0; axis 0 1 1]; [axis 0 0 1]];
                    [[axis 0 1 0]; [axis 1 0 1]]]
                   [Dirmerge.mkOutDir (axis 1 0 0) 0 0].

(** * The models of the file dialog (src/unnamed/part_000)

    [FolderModel] and [FileModel] are the two item models behind the file
    dialog.  A model is its members and the notifications it has sent to
    its views, in order; the notifications are calls into Qt
    ([beginInsertRows] and the like), which the model records and does not
    interpret. *)

Module Dialog.

Inductive signal :=
| BeginInsertRows (first last : Z)    (* beginInsertRows (QModelIndex(), first, last) *)
| EndInsertRows
| BeginRemoveRows (first last : Z)    (* beginRemoveRows (QModelIndex(), first, last) *)
| EndRemoveRows
| LayoutChanged.                      (* emit layoutChanged() *)

Inductive ItemDataRole :=
| DisplayRole
| ToolTipRole
| OtherRole.

(** [QVariant]: invalid, or a string. *)
Inductive QVariant :=
| QVariant_invalid
| QVariant_string (s : string).

(** [QModelIndex], as far as the models look into it. *)
Record QModelIndex := mkIndex { isValid : bool; row : Z }.

Definition is_DisplayRole (role : ItemDataRole) : bool :=
  match role with DisplayRole => true | _ => false end.

Definition is_ToolTipRole (role : ItemDataRole) : bool :=
  match role with ToolTipRole => true | _ => false end.

(** [int]: an [int] that overflows is undefined behaviour. *)
Definition INT_MIN : Z := - 2 ^ 31.
Definition INT_MAX : Z := 2 ^ 31 - 1.

Definition int {S} (z : Z) : M S Z :=
  if (INT_MIN <=? z)%Z && (z <=? INT_MAX)%Z then ret z else undefined.

(** A [size_t] passed where an [int] is expected: reduced modulo 2^32. *)
Definition int_of_size_t (n : N) : Z :=
  let r := (Z.of_N n mod 2 ^ 32)%Z in
  if (r <=? INT_MAX)%Z then r else (r - 2 ^ 32)%Z.

(** An [int] used in [size_t] arithmetic. *)
Definition size_t_of_int (z : Z) : N := Z.to_N (z mod Z.of_N SIZE_MODULUS).

(** [v.at (i)] and [v[i]]: an index outside the container is undefined. *)
Definition at_ {A} (v : list A) (i : Z) : result A :=
  if (i <? 0)%Z then Undefined
  else match v !! Z.to_nat i with
       | Some a => Normal a
       | None => Undefined
       end.

(** ** FolderModel *)

Module FolderModel.

(** [list] is the member of that name. *)
Record t := mk { list_ : list string; signals : list signal }.

Definition notify (s : signal) : M t unit :=
  modify (fun m => mk (list_ m) (signals m ++ [s])).

Definition add_entries (more : list string) : M t unit :=
  match more with
  | [] => ret tt
  | _ :: _ =>
      let* size := gets (fun m => Z.of_nat (length (list_ m))) in
      let* sum := int (size + Z.of_nat (length more)) in
      let* last := int (sum - 1) in
      notify (BeginInsertRows size last) >>
      modify (fun m => mk (list_ m ++ more) (signals m)) >>
      notify EndInsertRows >>
      notify LayoutChanged
  end.

Definition clear : M t unit :=
  let* size := gets (fun m => Z.of_nat (length (list_ m))) in
  (if (size =? 0)%Z then ret tt
   else
     let* last := int (size - 1) in
     notify (BeginRemoveRows 0 last) >>
     modify (fun m => mk [] (signals m)) >>
     notify EndRemoveRows) >>
  notify LayoutChanged.

Definition rowCount (m : t) : Z := Z.of_nat (length (list_ m)).

Definition data (index : QModelIndex) (role : ItemDataRole) (m : t) : result QVariant :=
  if isValid index && ((row index <? Z.of_nat (length (list_ m)))%Z && is_DisplayRole role)
  then match at_ (list_ m) (row index) with
       | Normal s => Normal (QVariant_string s)
       | _ => Undefined
       end
  else Normal QVariant_invalid.

Definition headerData (role : ItemDataRole) : QVariant :=
  if is_DisplayRole role then QVariant_string "Folders" else QVariant_invalid.

End FolderModel.

(** ** FileModel *)

(** [std::sort (list.begin(), list.end())] on strings: the order is
    [operator<] of [std::string], character by character. *)
Definition string_le (a b : string) : Prop := String.leb a b = true.

#[export] Instance string_le_dec (a b : string) : Decision (string_le a b).
Proof. unfold string_le. apply _. Defined.

Definition sort (v : list string) : list string := merge_sort string_le v.

Module FileModel.

Section WithSeries.

(** [MR::File::Dicom::Series] and the texts [data] makes of one: the
    classes of file/dicom are not among the sources.  A patient is the
    vector of its studies, a study the vector of its series. *)
Context {Series : Type}.
Variable display_text : Series -> string.
Variable tool_tip_text : Series -> string.

Record t := mk {
  list_ : list string;
  dicom_tree : list (list (list Series));
  num_dicom_series : N;
  signals : list signal
}.

Definition notify (s : signal) : M t unit :=
  modify (fun m => mk (list_ m) (dicom_tree m) (num_dicom_series m) (signals m ++ [s])).

(** The three nested loops of [add_entries]: the series of every study of
    every patient. *)
Definition count_series (tree : list (list (list Series))) : N :=
  foldl (fun n patient =>
           foldl (fun n study => size_add n (N.of_nat (length study))) n patient)
        0%N tree.

Definition add_entries (more : list string) : M t unit :=
  let* prev_num_dicom_series := gets num_dicom_series in
  modify (fun m => mk (list_ m) (dicom_tree m) (count_series (dicom_tree m)) (signals m)) >>
  let* m := gets id in
  if match more with [] => true | _ => false end
     && (prev_num_dicom_series =? num_dicom_series m)%N
  then ret tt
  else
    let size := N.of_nat (length (list_ m)) in
    notify (BeginInsertRows
              (int_of_size_t (size_add size prev_num_dicom_series))
              (int_of_size_t
                 (size_sub (size_add (size_add size (N.of_nat (length more)))
                                     (num_dicom_series m)) 1))) >>
    modify (fun m => mk (sort (list_ m ++ more)) (dicom_tree m) (num_dicom_series m)
                        (signals m)) >>
    notify EndInsertRows >>
    notify LayoutChanged.

Definition clear : M t unit :=
  let* m := gets id in
  (if (size_add (N.of_nat (length (list_ m))) (num_dicom_series m) =? 0)%N then ret tt
   else
     notify (BeginRemoveRows 0 (int_of_size_t (size_sub (N.of_nat (length (list_ m))) 1))) >>
     modify (fun m => mk [] [] 0%N (signals m)) >>
     notify EndRemoveRows) >>
  notify LayoutChanged.

Definition rowCount (m : t) : Z :=
  int_of_size_t (size_add (N.of_nat (length (list_ m))) (num_dicom_series m)).

(** The loops of [get_dicom_series], as far as the [return] inside them:
    the counter [i] and the series returned, if one has been. *)
Definition scan_step (index : N) (state : N * option Series) (series : Series)
  : N * option Series :=
  match snd state with
  | Some _ => state
  | None =>
      if (fst state =? index)%N then (size_succ (fst state), Some series)
      else (size_succ (fst state), None)
  end.

Definition scan (tree : list (list (list Series))) (index : N) : N * option Series :=
  foldl (fun state patient =>
           foldl (fun state study => foldl (scan_step index) state study) state patient)
        (0%N, None) tree.

Definition get_dicom_series (ndebug : bool) (index : N) (m : t) : result Series :=
  if negb ndebug && negb (index <? num_dicom_series m)%N then Abort
  else
    match snd (scan (dicom_tree m) index) with
    | Some series => Normal series
    | None =>
        match at_ (dicom_tree m) 0 with
        | Normal patient =>
            match at_ patient 0 with
            | Normal study => at_ study 0
            | _ => Undefined
            end
        | _ => Undefined
        end
    end.

Definition data (ndebug : bool) (index : QModelIndex) (role : ItemDataRole) (m : t)
  : result QVariant :=
  if isValid index then
    if is_DisplayRole role then
      if (row index <? int_of_size_t (num_dicom_series m))%Z then
        match get_dicom_series ndebug (size_t_of_int (row index)) m with
        | Normal series => Normal (QVariant_string (display_text series))
        | Abort => Abort
        | _ => Undefined
        end
      else if (row index
               <? int_of_size_t (size_add (num_dicom_series m)
                                          (N.of_nat (length (list_ m)))))%Z then
        match list_ m !! N.to_nat (size_sub (size_t_of_int (row index)) (num_dicom_series m))
        with
        | Some name => Normal (QVariant_string name)
        | None => Undefined
        end
      else Normal QVariant_invalid
    else if is_ToolTipRole role then
      if (row index <? int_of_size_t (num_dicom_series m))%Z then
        match get_dicom_series ndebug (size_t_of_int (row index)) m with
        | Normal series => Normal (QVariant_string (tool_tip_text series))
        | Abort => Abort
        | _ => Undefined
        end
      else Normal QVariant_invalid
    else Normal QVariant_invalid
  else Normal QVariant_invalid.

Definition headerData (role : ItemDataRole) : QVariant :=
  if is_DisplayRole role then QVariant_string "Files" else QVariant_invalid.

(** Every series of the tree, patient by patient, study by study. *)
Definition all_series (tree : list (list (list Series))) : list Series :=
  concat (concat tree).

End WithSeries.

End FileModel.

End Dialog.

(** ** Sample inputs for the models *)

(** Two patients: the first with a study of two series and a study of
    none, the second with a study of one series.  A series stands for
    itself as its text. *)
Definition sample_tree : list (list (list string)) :=
  [[["T1"; "T2"]; []]; [["DWI"]]].

Definition sample_folder_model : Dialog.FolderModel.t :=
  Dialog.FolderModel.mk ["bin"; "src"] [].

Definition sample_file_model : Dialog.FileModel.t :=
  Dialog.FileModel.mk ["a.mif"; "c.mif"] sample_tree 3 [].

(** The same before [add_entries] has counted the series. *)
Definition stale_file_model : Dialog.FileModel.t :=
  Dialog.FileModel.mk ["a.mif"; "c.mif"] sample_tree 0 [].

Definition series_only_model : Dialog.FileModel.t :=
  Dialog.FileModel.mk [] sample_tree 3 [].

(** * The table of mask directions (cmd/mrpermute.cpp)

    Lines 160 to 170 of [run]: the numbers read from the header entry are
    put two by two into the rows of a matrix. *)

Module Mrpermute.

Import Dirmerge.

(** What an access outside a [Math::Matrix] does: math/matrix.h is not among
    the sources.  Unchecked, it is undefined behaviour like that of a
    vector; checked, it throws or aborts. *)
Inductive range_check :=
| Unchecked
| Throws (t : thrown)
| Aborts.

Definition out_of_range {A} (check : range_check) : result A :=
  match check with
  | Unchecked => Undefined
  | Throws t => Raise t
  | Aborts => Abort
  end.

Section Reshape.

Context {float : Type}.

(** What [resize] leaves in the elements. *)
Variable junk : float.
Variable check : range_check.

(** A matrix is the vector of its rows. *)
Definition Matrix : Type := list (list float).

Definition resize (rows columns : N) : Matrix :=
  replicate (N.to_nat rows) (replicate (N.to_nat columns) junk).

(** [m (i, j) = v] *)
Definition assign (m : Matrix) (i j : N) (v : float) : result Matrix :=
  match m !! N.to_nat i with
  | Some r =>
      if (j <? size r)%N then Normal (<[N.to_nat i := <[N.to_nat j := v]> r]> m)
      else out_of_range check
  | None => out_of_range check
  end.

(** The body of the loop. *)
Definition assign_pair (dir_vector : list float) (i : N) (directions : Matrix) : result Matrix :=
  let! a := at_index dir_vector i in
  let! directions := assign directions (i / 2) 0 a in
  let! b := at_index dir_vector (size_add i 1) in
  assign directions (i / 2) 1 b.

(** [for (size_t i = 0; i < dir_vector.size(); i += 2)] *)
Fixpoint fill (fuel : nat) (dir_vector : list float) (i : N) (directions : Matrix)
  : option (result Matrix) :=
  if (i <? size dir_vector)%N then
    match fuel with
    | O => None
    | S fuel' =>
        match assign_pair dir_vector i directions with
        | Normal directions' => fill fuel' dir_vector (size_add i 2) directions'
        | other => Some other
        end
    end
  else Some (Normal directions).

Definition reshape (fuel : nat) (dir_vector : list float) : option (result Matrix) :=
  fill fuel dir_vector 0 (resize (size dir_vector / 2) 2).

(** The rows a vector of numbers makes, two numbers to a row. *)
Fixpoint pairs (l : list float) : Matrix :=
  match l with
  | a :: b :: l' => [a; b] :: pairs l'
  | _ => []
  end.

End Reshape.

End Mrpermute.

(** * Properties *)

(** ** Arithmetic of [size_t] *)

Lemma size_succ_small (k : N) : (k + 1 < SIZE_MODULUS)%N -> size_succ k = (k + 1)%N.
Proof. intros Hk. unfold size_succ. now apply N.mod_small. Qed.

Lemma size_pred_pos (k : N) :
  (1 <= k)%N -> (k < SIZE_MODULUS)%N -> size_pred k = (k - 1)%N.
Proof.
  intros H1 Hk. unfold size_pred.
  replace (k + (SIZE_MODULUS - 1))%N with ((k - 1) + 1 * SIZE_MODULUS)%N by lia.
  rewrite N.Div0.mod_add. apply N.mod_small. lia.
Qed.

Lemma size_pred_zero : size_pred 0 = (SIZE_MODULUS - 1)%N.
Proof. reflexivity. Qed.

#[global] Arguments size_succ : simpl never.
#[global] Arguments size_pred : simpl never.

(** ** The monad's laws of motion *)

Lemma bind_normal {S A B} (m : M S A) (k : A -> M S B) (s s' : S) (a : A) :
  m s = (Normal a, s') -> bind m k s = k a s'.
Proof. intros E. unfold bind. now rewrite E. Qed.

Lemma bind_raise {S A B} (m : M S A) (k : A -> M S B) (s s' : S) (t : thrown) :
  m s = (Raise t, s') -> bind m k s = (Raise t, s').
Proof. intros E. unfold bind. now rewrite E. Qed.

Lemma bind_blocked {S A B} (m : M S A) (k : A -> M S B) (s s' : S) :
  m s = (Blocked, s') -> bind m k s = (Blocked, s').
Proof. intros E. unfold bind. now rewrite E. Qed.

Lemma bind_abort {S A B} (m : M S A) (k : A -> M S B) (s s' : S) :
  m s = (Abort, s') -> bind m k s = (Abort, s').
Proof. intros E. unfold bind. now rewrite E. Qed.

Lemma bind_undefined {S A B} (m : M S A) (k : A -> M S B) (s s' : S) :
  m s = (Undefined, s') -> bind m k s = (Undefined, s').
Proof. intros E. unfold bind. now rewrite E. Qed.

Lemma addlog_addlog (l1 l2 : list event) (w : World) :
  addlog l2 (addlog l1 w) = addlog (l1 ++ l2) w.
Proof. unfold addlog, set_log. simpl. now rewrite app_assoc. Qed.

Lemma addlog_nil (w : World) : addlog [] w = w.
Proof. destruct w. unfold addlog, set_log. simpl. now rewrite app_nil_r. Qed.

Lemma emit_addlog (e : event) (w : World) : emit e w = (Normal tt, addlog [e] w).
Proof. reflexivity. Qed.

Lemma registry_at_addlog (k : N) (l : list event) (w : World) :
  registry_at k (addlog l w) <-> registry_at k w.
Proof. reflexivity. Qed.

(** ** The registry, call by call *)

Lemma register_thread_at (k : N) (w : World) :
  registry_at k w ->
  (k + 1 < SIZE_MODULUS)%N ->
  register_thread w = (Normal tt, registered k w).
Proof.
  intros Hat Hk. destruct w as [p us l]. unfold registry_at in Hat. simpl in Hat.
  unfold registered.
  destruct (N.eqb_spec k 0) as [-> | Hnz]; subst p.
  - cbv [register_thread bind gets is_null backend new_backend __Backend_ctor emit modify
         set_log store_backend set_backend lock_guard_temporary mutex_lock mutex_unlock
         deref_backend incr_refcount ret mutex refcount units log blocked].
    rewrite size_succ_small by exact Hk. simpl. now rewrite <- app_assoc.
  - cbv [register_thread bind gets is_null backend new_backend __Backend_ctor emit modify
         set_log store_backend set_backend lock_guard_temporary mutex_lock mutex_unlock
         deref_backend incr_refcount ret mutex refcount units log blocked].
    rewrite size_succ_small by exact Hk. reflexivity.
Qed.

Lemma unregister_thread_at (k : N) (w : World) :
  registry_at k w ->
  (1 <= k)%N -> (k < SIZE_MODULUS)%N ->
  unregister_thread w = (Normal tt, unregistered k w).
Proof.
  intros Hat H1 Hk. destruct w as [p us l]. unfold registry_at in Hat. simpl in Hat.
  unfold unregistered.
  destruct (N.eqb_spec k 0) as [-> | Hnz]; [lia |]. subst p.
  cbv [unregister_thread bind lock_guard_temporary mutex_lock mutex_unlock deref_backend
       backend mutex refcount store_backend modify set_backend decr_refcount emit set_log
       units log ret blocked].
  rewrite size_pred_pos by assumption.
  destruct (N.eqb_spec k 1) as [-> | Hn1].
  - simpl. cbv [delete_backend bind deref_backend backend __Backend_dtor emit modify set_log
                set_backend units log]. simpl. now rewrite <- app_assoc.
  - destruct (N.eqb_spec (k - 1) 0) as [E0 | _]; [lia |]. reflexivity.
Qed.

(** Unregistering with no backend dereferences a null pointer. *)
Lemma unregister_thread_null (w : World) :
  backend w = nullptr -> unregister_thread w = (Undefined, w).
Proof.
  intros E. cbv [unregister_thread bind lock_guard_temporary mutex_lock deref_backend].
  now rewrite E.
Qed.

(** ** The registry over a sequence of calls *)

Lemma teardowns_app (l1 l2 : list event) :
  teardowns (l1 ++ l2) = teardowns l1 + teardowns l2.
Proof. unfold teardowns. now rewrite List.filter_app, length_app. Qed.

Lemma constructions_app (l1 l2 : list event) :
  constructions (l1 ++ l2) = constructions l1 + constructions l2.
Proof. unfold constructions. now rewrite List.filter_app, length_app. Qed.

Lemma logged_app (w w' : World) (l : list event) :
  log w' = log w ++ l -> logged w w' = l.
Proof. intros E. unfold logged. rewrite E. apply drop_app_length. Qed.

Lemma peak_ge (ops : list op) (k : N) : (k <= peak k ops)%N.
Proof. destruct ops as [| [] rest]; simpl; lia. Qed.

Lemma run_ops_at (ops : list op) :
  forall (k k' : N) (w : World),
    registry_at k w ->
    live_after k ops = Some k' ->
    (peak k ops < SIZE_MODULUS)%N ->
    exists l,
      run_ops ops w = (Normal tt, mkWorld (if (k' =? 0)%N then nullptr else live (mkBackend k' false))
                                          (units w) (log w ++ l))
      /\ teardowns l = returns_to_zero k ops
      /\ constructions l = leaves_zero k ops.
Proof.
  induction ops as [| o rest IH]; intros k k' w Hat Hlive Hpeak.
  - simpl in Hlive. injection Hlive as <-. exists []. unfold registry_at in Hat.
    destruct w as [p us l]. simpl in *. subst p. now rewrite app_nil_r.
  - destruct o; simpl in Hlive, Hpeak.
    + pose proof (peak_ge rest (k + 1)) as Hge.
      assert (Hk : (k + 1 < SIZE_MODULUS)%N) by lia.
      pose proof (register_thread_at k w Hat Hk) as Hreg.
      unfold registered in Hreg.
      set (w1 := mkWorld (live (mkBackend (k + 1) false)) (units w)
                         (log w ++ (if (k =? 0)%N then [EvBackendCtor] else []) ++ [EvRegister])) in *.
      assert (Hat1 : registry_at (k + 1) w1).
      { unfold registry_at. simpl. destruct (N.eqb_spec (k + 1) 0); [lia | reflexivity]. }
      destruct (IH (k + 1)%N k' w1 Hat1 Hlive ltac:(lia)) as (l & Hrun & Ht & Hc).
      exists (((if (k =? 0)%N then [EvBackendCtor] else []) ++ [EvRegister]) ++ l).
      split; [| split].
      * simpl. rewrite (bind_normal _ _ _ _ _ Hreg), Hrun. subst w1. simpl.
        now rewrite <- !app_assoc.
      * rewrite teardowns_app, Ht. simpl. now destruct (k =? 0)%N.
      * rewrite constructions_app, Hc. simpl. now destruct (k =? 0)%N.
    + destruct (N.eqb_spec k 0) as [-> | Hnz]; [discriminate |].
      pose proof (peak_ge rest (k - 1)) as Hge.
      assert (Hk : (k < SIZE_MODULUS)%N) by lia.
      pose proof (unregister_thread_at k w Hat ltac:(lia) Hk) as Hun.
      unfold unregistered in Hun.
      set (w1 := mkWorld (if (k =? 1)%N then nullptr else live (mkBackend (k - 1) false)) (units w)
                         (log w ++ [EvUnregister] ++ (if (k =? 1)%N then [EvBackendDtor] else []))) in *.
      assert (Hat1 : registry_at (k - 1) w1).
      { unfold registry_at. simpl.
        destruct (N.eqb_spec k 1) as [-> | Hn1]; [reflexivity |].
        destruct (N.eqb_spec (k - 1) 0); [lia | reflexivity]. }
      destruct (IH (k - 1)%N k' w1 Hat1 Hlive ltac:(lia)) as (l & Hrun & Ht & Hc).
      exists (([EvUnregister] ++ (if (k =? 1)%N then [EvBackendDtor] else [])) ++ l).
      split; [| split].
      * simpl run_ops. rewrite (bind_normal _ _ _ _ _ Hun), Hrun. subst w1. simpl.
        now rewrite <- !app_assoc.
      * rewrite teardowns_app, Ht. simpl. now destruct (k =? 1)%N.
      * rewrite constructions_app, Hc. simpl. now destruct (k =? 1)%N.
Qed.

Lemma live_after_app (ops1 ops2 : list op) :
  forall (k k' : N),
    live_after k (ops1 ++ ops2) = Some k' ->
    exists k1, live_after k ops1 = Some k1 /\ live_after k1 ops2 = Some k'.
Proof.
  induction ops1 as [| o rest IH]; intros k k' H; simpl in *.
  - eauto.
  - destruct o; [now apply IH |].
    destruct (k =? 0)%N; [discriminate | now apply IH].
Qed.

Lemma peak_app_l (ops1 ops2 : list op) :
  forall k : N, (peak k ops1 <= peak k (ops1 ++ ops2))%N.
Proof.
  induction ops1 as [| o rest IH]; intros k; simpl.
  - apply peak_ge.
  - destruct o; [specialize (IH (k + 1)%N) | specialize (IH (k - 1)%N)]; lia.
Qed.

(** Teardowns and constructions differ by at most the backend in place. *)
Lemma leaves_returns (ops : list op) :
  forall (k k' : N),
    live_after k ops = Some k' ->
    leaves_zero k ops + (if (k =? 0)%N then 0 else 1)
    = returns_to_zero k ops + (if (k' =? 0)%N then 0 else 1).
Proof.
  induction ops as [| o rest IH]; intros k k' H; simpl in *.
  - now injection H as <-.
  - destruct o.
    + specialize (IH _ _ H).
      destruct (N.eqb_spec (k + 1) 0); [lia |]. destruct (k =? 0)%N; lia.
    + destruct (N.eqb_spec k 0) as [-> | Hnz]; [discriminate |].
      specialize (IH _ _ H).
      destruct (N.eqb_spec k 1) as [-> | Hn1]; simpl in IH; [lia |].
      destruct (N.eqb_spec (k - 1) 0); lia.
Qed.

Lemma live_after_unregs (n : nat) :
  forall k : N, (N.of_nat n <= k)%N ->
    live_after k (replicate n Unreg) = Some (k - N.of_nat n)%N.
Proof.
  induction n as [| n IH]; intros k Hk; simpl replicate; cbn [live_after].
  - f_equal. lia.
  - destruct (N.eqb_spec k 0); [lia |]. rewrite IH by lia. f_equal. lia.
Qed.

Lemma live_after_regs (n : nat) (rest : list op) :
  forall k : N,
    live_after k (replicate n Reg ++ rest) = live_after (k + N.of_nat n) rest.
Proof.
  induction n as [| n IH]; intros k; simpl replicate; cbn [app live_after].
  - f_equal. lia.
  - rewrite IH. f_equal. lia.
Qed.

Lemma returns_unregs (n : nat) :
  forall k : N, (N.of_nat n <= k)%N ->
    returns_to_zero k (replicate n Unreg)
    = if (k =? N.of_nat n)%N then (if n is O then 0 else 1) else 0.
Proof.
  induction n as [| n IH]; intros k Hk; simpl replicate; cbn [returns_to_zero].
  - now destruct (k =? N.of_nat 0)%N.
  - rewrite IH by lia.
    destruct (N.eqb_spec k 1) as [-> | Hn1].
    + assert (n = 0) as -> by lia. reflexivity.
    + destruct (N.eqb_spec k (N.of_nat (S n))) as [-> | Hne].
      * destruct (N.eqb_spec (N.of_nat (S n) - 1) (N.of_nat n)); [| lia].
        destruct n; [lia | reflexivity].
      * destruct (N.eqb_spec (k - 1) (N.of_nat n)); [lia | reflexivity].
Qed.

Lemma returns_regs (n : nat) (rest : list op) :
  forall k : N,
    returns_to_zero k (replicate n Reg ++ rest) = returns_to_zero (k + N.of_nat n) rest.
Proof.
  induction n as [| n IH]; intros k; simpl replicate; cbn [app returns_to_zero].
  - f_equal. lia.
  - rewrite IH. f_equal. lia.
Qed.

Lemma peak_nested (n : nat) :
  forall k : N, peak k (replicate n Reg ++ replicate n Unreg) = (k + N.of_nat n)%N.
Proof.
  assert (Hdown : forall m k, (N.of_nat m <= k)%N -> peak k (replicate m Unreg) = k).
  { induction m as [| m IH]; intros k Hk; simpl; [reflexivity |].
    rewrite IH by lia. lia. }
  assert (Hup : forall m k rest, (forall j, (k <= j)%N -> (j <= peak j rest)%N) ->
            peak (k + N.of_nat m) rest = (k + N.of_nat m)%N ->
            peak k (replicate m Reg ++ rest) = (k + N.of_nat m)%N).
  { induction m as [| m IH]; intros k rest Hmono Hrest; cbn [replicate app peak].
    - replace (k + N.of_nat 0)%N with k in Hrest by lia. rewrite Hrest. lia.
    - rewrite (IH (k + 1)%N rest).
      + lia.
      + intros j Hj. apply Hmono. lia.
      + replace (k + 1 + N.of_nat m)%N with (k + N.of_nat (S m))%N by lia. exact Hrest. }
  intros k. apply Hup.
  - intros j _. apply peak_ge.
  - apply Hdown. lia.
Qed.

(** [n] registrations followed by [n] unregistrations are balanced, with
    [n] live at the most. *)
Lemma nested_registrations (n : nat) :
  balanced (replicate n Reg ++ replicate n Unreg) = true
  /\ peak 0 (replicate n Reg ++ replicate n Unreg) = N.of_nat n.
Proof.
  split; [| exact (peak_nested n 0%N)].
  unfold balanced. rewrite live_after_regs, live_after_unregs by lia.
  now replace (0 + N.of_nat n - N.of_nat n)%N with 0%N by lia.
Qed.

(** C6 (as amended).  Starting with no backend, take any sequence of
    registrations and unregistrations that is balanced and keeps the number
    of live registrations within [size_t].  After every prefix the calls
    have returned, the count equals the number of live registrations, and
    the backend is in place exactly while that number is not zero: it is
    never torn down under a live registration.  The state is constructed
    once for each registration that finds none live and torn down once for
    each return of the count to zero; at every moment the constructions
    exceed the teardowns by one while a registration is live and by none
    otherwise, so every constructed state is torn down exactly once and
    none is left at the end.  For [n >= 1]
    registrations followed by [n] unregistrations that is exactly one
    teardown. *)
Theorem registry_lifetime (ops1 ops2 : list op) (w : World) :
  backend w = nullptr ->
  balanced (ops1 ++ ops2) = true ->
  (peak 0 (ops1 ++ ops2) < SIZE_MODULUS)%N ->
  exists (k1 : N) (w1 w' : World),
    live_after 0 ops1 = Some k1
    /\ run_ops ops1 w = (Normal tt, w1)
    /\ registry_at k1 w1
    /\ constructions (logged w w1) = leaves_zero 0 ops1
    /\ teardowns (logged w w1) = returns_to_zero 0 ops1
    /\ constructions (logged w w1)
       = teardowns (logged w w1) + (if (k1 =? 0)%N then 0 else 1)
    /\ run_ops (ops1 ++ ops2) w = (Normal tt, w')
    /\ backend w' = nullptr
    /\ constructions (logged w w') = leaves_zero 0 (ops1 ++ ops2)
    /\ teardowns (logged w w') = returns_to_zero 0 (ops1 ++ ops2)
    /\ teardowns (logged w w') = constructions (logged w w')
    /\ (forall n : nat,
          1 <= n ->
          ops1 ++ ops2 = replicate n Reg ++ replicate n Unreg ->
          teardowns (logged w w') = 1).
Proof.
  intros Hnull Hbal Hpeak.
  assert (Hat : registry_at 0 w) by exact Hnull.
  assert (Hlive : live_after 0 (ops1 ++ ops2) = Some 0%N).
  { unfold balanced in Hbal. destruct (live_after 0 (ops1 ++ ops2)) as [[| p] |]; done. }
  destruct (live_after_app _ _ _ _ Hlive) as (k1 & Hl1 & _).
  pose proof (peak_app_l ops1 ops2 0%N) as Hp1.
  destruct (run_ops_at ops1 0 k1 w Hat Hl1 ltac:(lia)) as (l1 & Hrun1 & Ht1 & Hc1).
  destruct (run_ops_at (ops1 ++ ops2) 0 0 w Hat Hlive Hpeak) as (l & Hrun & Ht & Hc).
  eexists k1, _, _.
  split; [exact Hl1 |]. split; [exact Hrun1 |].
  split; [reflexivity |].
  rewrite (logged_app w _ l1) by reflexivity.
  split; [exact Hc1 |]. split; [exact Ht1 |].
  split. { pose proof (leaves_returns _ _ _ Hl1) as Hlr1. cbn [N.eqb] in Hlr1. lia. }
  split; [exact Hrun |]. split; [reflexivity |].
  rewrite (logged_app w _ l) by reflexivity.
  split; [exact Hc |]. split; [exact Ht |].
  split.
  - pose proof (leaves_returns _ _ _ Hlive) as Hlr. simpl in Hlr. lia.
  - intros n Hn Hshape. rewrite Ht, Hshape, returns_regs, returns_unregs by lia.
    destruct (N.eqb_spec (0 + N.of_nat n) (N.of_nat n)); [| lia].
    destruct n; [lia | reflexivity].
Qed.

(** Witness for C6: two registrations, then two unregistrations, split in
    the middle. *)
Lemma registry_lifetime_witness :
  exists (k1 : N) (w1 w' : World),
    live_after 0 [Reg; Reg] = Some k1
    /\ run_ops [Reg; Reg] initial_world = (Normal tt, w1)
    /\ registry_at k1 w1
    /\ constructions (logged initial_world w1) = leaves_zero 0 [Reg; Reg]
    /\ teardowns (logged initial_world w1) = returns_to_zero 0 [Reg; Reg]
    /\ constructions (logged initial_world w1)
       = teardowns (logged initial_world w1) + (if (k1 =? 0)%N then 0 else 1)
    /\ run_ops ([Reg; Reg] ++ [Unreg; Unreg]) initial_world = (Normal tt, w')
    /\ backend w' = nullptr
    /\ constructions (logged initial_world w')
       = leaves_zero 0 ([Reg; Reg] ++ [Unreg; Unreg])
    /\ teardowns (logged initial_world w')
       = returns_to_zero 0 ([Reg; Reg] ++ [Unreg; Unreg])
    /\ teardowns (logged initial_world w')
       = constructions (logged initial_world w')
    /\ (forall n : nat,
          1 <= n ->
          [Reg; Reg] ++ [Unreg; Unreg] = replicate n Reg ++ replicate n Unreg ->
          teardowns (logged initial_world w') = 1).
Proof.
  apply (registry_lifetime [Reg; Reg] [Unreg; Unreg] initial_world).
  - reflexivity.
  - reflexivity.
  - vm_compute. reflexivity.
Defined.

(** C6, as first stated, fails: register, unregister, register, unregister
    is a balanced sequence of two registrations and two unregistrations, and
    the state is torn down twice, not once. *)
Lemma registry_torn_down_twice :
  balanced [Reg; Unreg; Reg; Unreg] = true
  /\ registrations [Reg; Unreg; Reg; Unreg] = 2
  /\ unregistrations [Reg; Unreg; Reg; Unreg] = 2
  /\ run_ops [Reg; Unreg; Reg; Unreg] initial_world
     = (Normal tt,
        mkWorld nullptr []
                [EvBackendCtor; EvRegister; EvUnregister; EvBackendDtor;
                 EvBackendCtor; EvRegister; EvUnregister; EvBackendDtor])
  /\ teardowns (logged initial_world
                       (snd (run_ops [Reg; Unreg; Reg; Unreg] initial_world))) = 2
  /\ ~ (forall (ops : list op) (w w' : World),
          backend w = nullptr ->
          balanced ops = true ->
          run_ops ops w = (Normal tt, w') ->
          teardowns (logged w w') = 1).
Proof.
  assert (Hrun : run_ops [Reg; Unreg; Reg; Unreg] initial_world
     = (Normal tt,
        mkWorld nullptr []
                [EvBackendCtor; EvRegister; EvUnregister; EvBackendDtor;
                 EvBackendCtor; EvRegister; EvUnregister; EvBackendDtor]))
    by (vm_compute; reflexivity).
  split; [reflexivity |]. split; [reflexivity |]. split; [reflexivity |].
  split; [exact Hrun |]. split; [now rewrite Hrun |].
  intros Hall.
  specialize (Hall [Reg; Unreg; Reg; Unreg] initial_world _ eq_refl eq_refl Hrun).
  discriminate Hall.
Qed.

(** ** The registry under interleaving *)

(** Run alone, the statements of a call add up to the call. *)
Lemma steps_register_thread (w : World) :
  Interleaving.steps 5 Interleaving.Reg_test w
  = (let* _ := register_thread in ret Interleaving.Returned) w.
Proof.
  destruct w as [[| [k [|]] |] us l]; reflexivity.
Qed.

Lemma steps_unregister_thread (w : World) :
  Interleaving.steps 6 Interleaving.Unreg_lock w
  = (let* _ := unregister_thread in ret Interleaving.Returned) w.
Proof.
  destruct w as [[| [k [|]] |] us l]; try reflexivity.
  cbv [Interleaving.steps Interleaving.exec unregister_thread bind lock_guard_temporary
       mutex_lock mutex_unlock deref_backend backend mutex refcount store_backend modify
       set_backend decr_refcount emit set_log units log ret].
  destruct (size_pred k =? 0)%N; reflexivity.
Qed.

(** C2 fails on the code.  A single call to [register_thread], run alone
    from the initial state, writes the singleton pointer before any mutex
    exists and increments the count after the temporary guard has released
    the mutex: both writes happen with the mutex free.  Interleaved, two
    calls both find the pointer null, both construct a backend, and the
    second construction discards the first registration: two registrations
    leave a count of one.  The first unregistration then tears the backend
    down under the other registration, whose own unregistration
    dereferences a null pointer.  In general the increment and the
    decrement go through whatever the state of the mutex, taken by another
    thread or free. *)
Theorem register_thread_unguarded :
  Interleaving.unguarded [0; 0; 0; 0; 0]
    (Interleaving.mkMachine initial_world [Interleaving.Reg_test])
  = [(0, Interleaving.Reg_new); (0, Interleaving.Reg_incr)]
  /\ Interleaving.run [0; 1; 0; 0; 0; 0; 1; 1; 1; 1]
        (Interleaving.mkMachine initial_world [Interleaving.Reg_test; Interleaving.Reg_test])
     = Some (Interleaving.mkMachine
               (mkWorld (live (mkBackend 1 false)) []
                        [EvBackendCtor; EvRegister; EvBackendCtor; EvRegister])
               [Interleaving.Returned; Interleaving.Returned])
  /\ unregister_thread
       (mkWorld (live (mkBackend 1 false)) []
                [EvBackendCtor; EvRegister; EvBackendCtor; EvRegister])
     = (Normal tt,
        mkWorld nullptr []
                [EvBackendCtor; EvRegister; EvBackendCtor; EvRegister;
                 EvUnregister; EvBackendDtor])
  /\ fst (run_ops [Unreg; Unreg]
            (mkWorld (live (mkBackend 1 false)) []
                     [EvBackendCtor; EvRegister; EvBackendCtor; EvRegister]))
     = Undefined
  /\ (forall (b : __Backend) (us : list unit_state) (l : list event),
        Interleaving.exec Interleaving.Reg_incr (mkWorld (live b) us l)
        = (Normal Interleaving.Returned,
           mkWorld (live (mkBackend (size_succ (refcount b)) (mutex b))) us
                   (l ++ [EvRegister]))
        /\ Interleaving.exec Interleaving.Unreg_decr (mkWorld (live b) us l)
           = (Normal Interleaving.Unreg_test,
              mkWorld (live (mkBackend (size_pred (refcount b)) (mutex b))) us
                      (l ++ [EvUnregister]))).
Proof.
  split; [vm_compute; reflexivity |].
  split; [vm_compute; reflexivity |].
  split; [vm_compute; reflexivity |].
  split; [vm_compute; reflexivity |].
  intros b us l. split; reflexivity.
Qed.

(** * Handles *)

Lemma bind_self {H A} (k : H -> M (World * H) A) (s : World * H) :
  bind self k s = k (snd s) s.
Proof. reflexivity. Qed.

(** ** Single-thread handles *)

Lemma single_wait_eq (w : World) (h : __single_thread) :
  __single_thread_wait (w, h) =
    let n := name (single_base h) in
    match thread h with
    | Invalid => (Undefined, (addlog [single_waiting n] w, h))
    | Valid u =>
        match unit_status w u with
        | None => (Undefined, (addlog [single_waiting n] w, h))
        | Some Running => (Blocked, (addlog [single_waiting n] w, h))
        | Some (Done Ok) =>
            (Normal tt,
             (addlog [single_waiting n; EvGet u; single_completed n] w, set_thread Invalid h))
        | Some (Done (Threw t)) =>
            (Raise t, (addlog [single_waiting n; EvGet u] w, set_thread Invalid h))
        end
    end.
Proof.
  destruct h as [base f], w as [b us l].
  destruct f as [| u]; [reflexivity |].
  unfold __single_thread_wait, bind, self, gets, liftW, get_member, future_get, unit_status,
    bind, gets, DEBUG, emit, modify, addlog, set_log, raise, blocked, undefined.
  simpl.
  destruct (us !! u) as [[tgt [| [| t]]] |]; simpl; rewrite <- ?app_assoc; reflexivity.
Qed.

Lemma single_ctor_eq {F} `{Functor F} (f : ref F) (n : string) (k : N) (w : World) :
  registry_at k w ->
  (k + 1 < SIZE_MODULUS)%N ->
  __single_thread_ctor f n w =
    (Normal (mkSingle (mkBase n) (Valid (length (units w)))),
     mkWorld (live (mkBackend (k + 1) false))
             (units w ++ [mkUnit (Original (address f)) Running])
             (log w ++ (if (k =? 0)%N then [EvBackendCtor] else [])
                    ++ [EvRegister; single_launching n;
                        EvAsync (length (units w)) (Original (address f))])).
Proof.
  intros Hat Hk. unfold __single_thread_ctor, __thread_base_ctor.
  pose proof (register_thread_at k w Hat Hk) as Hreg.
  unfold bind at 1 2. rewrite Hreg. unfold ret at 1.
  unfold bind, DEBUG, emit, modify, async, ret, registered, set_log. simpl.
  rewrite <- !app_assoc. reflexivity.
Qed.

(** [try { wait(); } catch (Exception& E) { E.display(); }] *)
Lemma single_try_wait_eq (w : World) (h : __single_thread) :
  try_catch __single_thread_wait (fun E => liftW (display E)) (w, h) =
    let n := name (single_base h) in
    match thread h with
    | Invalid => (Undefined, (addlog [single_waiting n] w, h))
    | Valid u =>
        match unit_status w u with
        | None => (Undefined, (addlog [single_waiting n] w, h))
        | Some Running => (Blocked, (addlog [single_waiting n] w, h))
        | Some (Done Ok) =>
            (Normal tt,
             (addlog [single_waiting n; EvGet u; single_completed n] w, set_thread Invalid h))
        | Some (Done (Threw (MRException E))) =>
            (Normal tt,
             (addlog [single_waiting n; EvGet u; EvDisplay E] w, set_thread Invalid h))
        | Some (Done (Threw (Foreign x))) =>
            (Raise (Foreign x), (addlog [single_waiting n; EvGet u] w, set_thread Invalid h))
        end
    end.
Proof.
  unfold try_catch. rewrite single_wait_eq. cbn zeta.
  destruct (thread h) as [| u]; [reflexivity |].
  destruct (unit_status w u) as [[| [| [E | x]]] |]; try reflexivity.
  unfold liftW, display. cbn [fst snd]. rewrite emit_addlog, addlog_addlog. reflexivity.
Qed.

(** The end of both destructors: nothing left to join, the base unregisters. *)
Lemma unregister_after (k : N) (w : World) :
  registry_at k w -> (1 <= k)%N -> (k < SIZE_MODULUS)%N ->
  __thread_base_dtor w = (Normal tt, unregistered k w).
Proof. apply unregister_thread_at. Qed.

Lemma single_dtor_eq (k : N) (w : World) (h : __single_thread) :
  registry_at k w -> (1 <= k)%N -> (k < SIZE_MODULUS)%N ->
  __single_thread_dtor (w, h) =
    let n := name (single_base h) in
    match thread h with
    | Invalid => (Normal tt, (unregistered k w, h))
    | Valid u =>
        match unit_status w u with
        | None => (Undefined, (addlog [single_waiting n] w, h))
        | Some Running => (Blocked, (addlog [single_waiting n] w, h))
        | Some (Done Ok) =>
            (Normal tt,
             (unregistered k (addlog [single_waiting n; EvGet u; single_completed n] w),
              set_thread Invalid h))
        | Some (Done (Threw (MRException E))) =>
            (Normal tt,
             (unregistered k (addlog [single_waiting n; EvGet u; EvDisplay E] w),
              set_thread Invalid h))
        | Some (Done (Threw (Foreign x))) =>
            (Abort, (addlog [single_waiting n; EvGet u] w, set_thread Invalid h))
        end
    end.
Proof.
  intros Hat H1 Hk.
  assert (Htail : forall w1 h1, registry_at k w1 -> thread h1 = Invalid ->
            (let* h := self in liftW (future_dtor (thread h)) >> liftW __thread_base_dtor)
              (w1, h1) = (Normal tt, (unregistered k w1, h1))).
  { intros w1 h1 Hat1 Hinv. unfold bind, self, gets, liftW. simpl. rewrite Hinv. simpl.
    rewrite (unregister_after k w1 Hat1 H1 Hk). reflexivity. }
  unfold __single_thread_dtor, noexcept.
  rewrite bind_self. cbn [snd].
  destruct (thread h) as [| u] eqn:Hth; cbn [valid].
  - rewrite (bind_normal (ret tt) _ (w, h) (w, h) tt eq_refl).
    rewrite Htail by assumption. reflexivity.
  - assert (Hw := single_try_wait_eq w h). rewrite Hth in Hw. cbn zeta in Hw.
    destruct (unit_status w u) as [[| [| [E | x]]] |] eqn:Hst.
    + rewrite (bind_blocked _ _ _ _ Hw). reflexivity.
    + rewrite (bind_normal _ _ _ _ _ Hw).
      rewrite Htail; [reflexivity | exact Hat | reflexivity].
    + rewrite (bind_normal _ _ _ _ _ Hw).
      rewrite Htail; [reflexivity | exact Hat | reflexivity].
    + rewrite (bind_raise _ _ _ _ _ Hw). reflexivity.
    + rewrite (bind_undefined _ _ _ _ Hw). reflexivity.
Qed.

(** ** Group handles: the loop of [wait()] *)

Lemma wait_body_eq {F} (i : nat) (flag : bool) (w : World) (h : __multi_thread F) :
  wait_body i flag (w, h) =
    match thread_at i h with
    | Invalid => (Normal flag, (w, h))
    | Valid u =>
        match unit_status w u with
        | None => (Undefined, (w, h))
        | Some Running => (Blocked, (w, h))
        | Some (Done Ok) => (Normal flag, (addlog [EvGet u] w, set_thread_at i Invalid h))
        | Some (Done (Threw (MRException E))) =>
            (Normal true, (addlog [EvGet u; EvDisplay E] w, set_thread_at i Invalid h))
        | Some (Done (Threw (Foreign x))) =>
            (Raise (Foreign x), (addlog [EvGet u] w, set_thread_at i Invalid h))
        end
    end.
Proof.
  unfold wait_body. rewrite bind_self. cbn [snd].
  destruct (thread_at i h) as [| u] eqn:Hth; [reflexivity |]. cbn [valid].
  destruct w as [b us l].
  unfold try_catch, bind, get_member, future_get, bind, gets, unit_status, emit, modify,
    raise, blocked, undefined, liftW, display, emit, modify, addlog, set_log, ret.
  cbn [fst snd]. rewrite Hth. simpl.
  destruct (us !! u) as [[tgt [| [| [E | x]]]] |]; simpl; rewrite <- ?app_assoc; reflexivity.
Qed.

Lemma thread_at_middle {F} (base : __thread_base) (pre suf : list future) (f : future)
      (fs : list F) :
  thread_at (length pre) (mkMulti base (pre ++ f :: suf) fs) = f.
Proof. unfold thread_at. simpl. now rewrite list_lookup_middle. Qed.

Lemma set_thread_at_middle {F} (base : __thread_base) (pre suf : list future) (f g : future)
      (fs : list F) :
  set_thread_at (length pre) g (mkMulti base (pre ++ f :: suf) fs)
  = mkMulti base ((pre ++ [g]) ++ suf) fs.
Proof.
  unfold set_thread_at. simpl. f_equal.
  rewrite insert_app_r_alt by lia. rewrite Nat.sub_diag. simpl. now rewrite <- app_assoc.
Qed.

Lemma join_log_addlog (l : list event) (w : World) (fs : list future) :
  join_log (addlog l w) fs = join_log w fs.
Proof. reflexivity. Qed.

Lemma has_failure_addlog (l : list event) (w : World) (fs : list future) :
  has_failure (addlog l w) fs = has_failure w fs.
Proof. reflexivity. Qed.

Lemma has_failure_cons (w : World) (f : future) (fs : list future) :
  has_failure w (f :: fs)
  = match failure_of w f with Some _ => true | None => has_failure w fs end.
Proof. unfold has_failure, failures. cbn [omap list_omap]. now destruct (failure_of w f). Qed.

Lemma join_log_cons (w : World) (f : future) (fs : list future) :
  join_log w (f :: fs) = join_events w f ++ join_log w fs.
Proof. reflexivity. Qed.

(** With every remaining worker terminated, well or with a failure, the
    loop visits each of them: it empties every future, logs each join and
    each failure in turn, and comes out with the flag raised if and only if
    it met a failure. *)
Lemma wait_loop_settled {F} (base : __thread_base) (fs : list F) (suf : list future) :
  forall (pre : list future) (flag : bool) (w : World),
    Forall (settled w) suf ->
    wait_loop (seq (length pre) (length suf)) flag (w, mkMulti base (pre ++ suf) fs)
    = (Normal (flag || has_failure w suf),
       (addlog (join_log w suf) w,
        mkMulti base (pre ++ map (fun _ => Invalid) suf) fs)).
Proof.
  induction suf as [| f suf IH]; intros pre flag w Hall.
  - simpl. unfold ret. rewrite addlog_nil, orb_false_r. reflexivity.
  - apply Forall_cons in Hall as [Hf Hsuf].
    cbn [length seq wait_loop].
    assert (Hbody := wait_body_eq (length pre) flag w (mkMulti base (pre ++ f :: suf) fs)).
    rewrite thread_at_middle in Hbody.
    assert (Hlen : S (length pre) = length (pre ++ [Invalid])) by (rewrite length_app; simpl; lia).
    destruct f as [| u].
    + rewrite (bind_normal _ _ _ _ _ Hbody).
      replace (pre ++ Invalid :: suf) with ((pre ++ [Invalid]) ++ suf) by now rewrite <- app_assoc.
      rewrite Hlen, (IH _ _ _ Hsuf). rewrite <- app_assoc.
      rewrite has_failure_cons, join_log_cons. reflexivity.
    + rewrite set_thread_at_middle in Hbody.
      destruct Hf as [Hok | [E HE]].
      * rewrite Hok in Hbody. rewrite (bind_normal _ _ _ _ _ Hbody).
        rewrite Hlen, (IH _ _ (addlog [EvGet u] w) Hsuf).
        rewrite addlog_addlog, join_log_addlog, has_failure_addlog, <- app_assoc.
        rewrite has_failure_cons, join_log_cons. cbn [join_events failure_of].
        rewrite Hok. reflexivity.
      * rewrite HE in Hbody. rewrite (bind_normal _ _ _ _ _ Hbody).
        rewrite Hlen, (IH _ _ (addlog [EvGet u; EvDisplay E] w) Hsuf).
        rewrite addlog_addlog, join_log_addlog, <- app_assoc.
        rewrite has_failure_cons, join_log_cons. cbn [join_events failure_of].
        rewrite HE, orb_true_r. reflexivity.
Qed.

(** What the loop returns with, it returns with only after every remaining
    worker has terminated. *)
Lemma wait_loop_returns {F} (base : __thread_base) (fs : list F) (suf : list future) :
  forall (pre : list future) (flag flag' : bool) (w : World) (s' : World * __multi_thread F),
    wait_loop (seq (length pre) (length suf)) flag (w, mkMulti base (pre ++ suf) fs)
    = (Normal flag', s') ->
    Forall (settled w) suf.
Proof.
  induction suf as [| f suf IH]; intros pre flag flag' w s' Hrun; [constructor |].
  cbn [length seq wait_loop] in Hrun.
  assert (Hbody := wait_body_eq (length pre) flag w (mkMulti base (pre ++ f :: suf) fs)).
  rewrite thread_at_middle in Hbody.
  assert (Hlen : S (length pre) = length (pre ++ [Invalid])) by (rewrite length_app; simpl; lia).
  destruct f as [| u].
  - rewrite (bind_normal _ _ _ _ _ Hbody) in Hrun.
    replace (pre ++ Invalid :: suf) with ((pre ++ [Invalid]) ++ suf) in Hrun
      by now rewrite <- app_assoc.
    rewrite Hlen in Hrun. constructor; [exact I | eapply IH; exact Hrun].
  - rewrite set_thread_at_middle in Hbody.
    destruct (unit_status w u) as [[| [| [E | x]]] |] eqn:Hst.
    + rewrite (bind_blocked _ _ _ _ Hbody) in Hrun. discriminate.
    + rewrite (bind_normal _ _ _ _ _ Hbody), Hlen in Hrun.
      constructor; [now left | eapply (IH _ _ _ (addlog _ w)); exact Hrun].
    + rewrite (bind_normal _ _ _ _ _ Hbody), Hlen in Hrun.
      constructor; [right; eauto | eapply (IH _ _ _ (addlog _ w)); exact Hrun].
    + rewrite (bind_raise _ _ _ _ _ Hbody) in Hrun. discriminate.
    + rewrite (bind_undefined _ _ _ _ Hbody) in Hrun. discriminate.
Qed.

(** The loop lets through only what is not an [Exception]. *)
Lemma wait_loop_raises {F} (base : __thread_base) (fs : list F) (suf : list future) :
  forall (pre : list future) (flag : bool) (w : World) (t : thrown)
         (s' : World * __multi_thread F),
    wait_loop (seq (length pre) (length suf)) flag (w, mkMulti base (pre ++ suf) fs)
    = (Raise t, s') ->
    exists x, t = Foreign x.
Proof.
  induction suf as [| f suf IH]; intros pre flag w t s' Hrun; [discriminate |].
  cbn [length seq wait_loop] in Hrun.
  assert (Hbody := wait_body_eq (length pre) flag w (mkMulti base (pre ++ f :: suf) fs)).
  rewrite thread_at_middle in Hbody.
  assert (Hlen : S (length pre) = length (pre ++ [Invalid])) by (rewrite length_app; simpl; lia).
  destruct f as [| u].
  - rewrite (bind_normal _ _ _ _ _ Hbody) in Hrun.
    replace (pre ++ Invalid :: suf) with ((pre ++ [Invalid]) ++ suf) in Hrun
      by now rewrite <- app_assoc.
    rewrite Hlen in Hrun. eapply IH; exact Hrun.
  - rewrite set_thread_at_middle in Hbody.
    destruct (unit_status w u) as [[| [| [E | x]]] |] eqn:Hst.
    + rewrite (bind_blocked _ _ _ _ Hbody) in Hrun. discriminate.
    + rewrite (bind_normal _ _ _ _ _ Hbody), Hlen in Hrun. eapply IH; exact Hrun.
    + rewrite (bind_normal _ _ _ _ _ Hbody), Hlen in Hrun. eapply IH; exact Hrun.
    + rewrite (bind_raise _ _ _ _ _ Hbody) in Hrun. injection Hrun as <- _. eauto.
    + rewrite (bind_undefined _ _ _ _ Hbody) in Hrun. discriminate.
Qed.

Lemma liftW_DEBUG {H} (msg : string) (w : World) (h : H) :
  liftW (DEBUG msg) (w, h) = (Normal tt, (addlog [EvDebug msg] w, h)).
Proof. reflexivity. Qed.

Lemma multi_eta {F} (h : __multi_thread F) :
  h = mkMulti (multi_base h) ([] ++ threads h) (functors h).
Proof. now destruct h. Qed.

Lemma multi_wait_settled {F} (w : World) (h : __multi_thread F) :
  Forall (settled w) (threads h) ->
  __multi_thread_wait (w, h) =
    let n := name (multi_base h) in
    if has_failure w (threads h)
    then (Raise (MRException (group_failure n)),
          (addlog (multi_waiting n :: join_log w (threads h)) w, spent h))
    else (Normal tt,
          (addlog (multi_waiting n :: join_log w (threads h) ++ [multi_completed n]) w,
           spent h)).
Proof.
  intros Hall. unfold __multi_thread_wait. rewrite bind_self. cbn [snd].
  rewrite (bind_normal _ _ _ _ _ (liftW_DEBUG _ w h)).
  pose proof (wait_loop_settled (multi_base h) (functors h) (threads h) [] false
                (addlog [multi_waiting (name (multi_base h))] w) Hall) as Hloop.
  rewrite <- multi_eta in Hloop. cbn [length] in Hloop.
  fold (multi_waiting (name (multi_base h))).
  rewrite (bind_normal _ _ _ _ _ Hloop). cbn [orb app].
  rewrite has_failure_addlog, join_log_addlog, addlog_addlog. cbn zeta.
  destruct (has_failure w (threads h)).
  - reflexivity.
  - rewrite liftW_DEBUG, addlog_addlog. reflexivity.
Qed.

Lemma multi_wait_returns {F} (w : World) (h : __multi_thread F) (r : result unit)
      (s' : World * __multi_thread F) :
  __multi_thread_wait (w, h) = (r, s') ->
  r = Normal tt \/ (exists E, r = Raise (MRException E)) ->
  Forall (settled w) (threads h).
Proof.
  intros Hrun Hr. destruct h as [base ts fs].
  unfold __multi_thread_wait in Hrun. rewrite bind_self in Hrun.
  cbn [snd multi_base threads functors] in *.
  rewrite (bind_normal _ _ _ _ _ (liftW_DEBUG _ w _)) in Hrun.
  match type of Hrun with
  | bind ?loop _ ?s = _ => destruct (loop s) as [[flag | t | | |] s1] eqn:Hloop
  end.
  - exact (wait_loop_returns base fs ts [] _ _ _ _ Hloop).
  - destruct (wait_loop_raises base fs ts [] _ _ _ _ Hloop) as [x ->].
    rewrite (bind_raise _ _ _ _ _ Hloop) in Hrun. injection Hrun as <- _.
    destruct Hr as [Hr | [E Hr]]; discriminate.
  - rewrite (bind_blocked _ _ _ _ Hloop) in Hrun. injection Hrun as <- _.
    destruct Hr as [Hr | [E Hr]]; discriminate.
  - rewrite (bind_abort _ _ _ _ Hloop) in Hrun. injection Hrun as <- _.
    destruct Hr as [Hr | [E Hr]]; discriminate.
  - rewrite (bind_undefined _ _ _ _ Hloop) in Hrun. injection Hrun as <- _.
    destruct Hr as [Hr | [E Hr]]; discriminate.
Qed.

(** ** Group handles: construction and destruction *)

Lemma launch_copies_eq (slots : list nat) :
  forall w : World,
    launch_copies slots w =
      (Normal (map Valid (seq (length (units w)) (length slots))),
       mkWorld (backend w)
               (units w ++ fresh_units (map Copy slots))
               (log w ++ launch_events (length (units w)) (map Copy slots))).
Proof.
  induction slots as [| i rest IH]; intros w.
  - destruct w. unfold fresh_units, launch_events. simpl. unfold ret.
    now rewrite !app_nil_r.
  - cbn [launch_copies].
    rewrite (bind_normal (async (Copy i)) _ w _ _ eq_refl).
    rewrite (bind_normal _ _ _ _ _ (IH _)). unfold ret.
    cbn [units log backend length seq map]. rewrite length_app. cbn [length].
    rewrite Nat.add_1_r. f_equal. f_equal.
    + unfold fresh_units. cbn [map]. now rewrite <- app_assoc.
    + unfold launch_events. cbn [map imap]. rewrite <- app_assoc. cbn [app].
      rewrite Nat.add_0_r. do 2 f_equal.
      apply imap_ext. intros j t _. cbn. f_equal. lia.
Qed.

Lemma thread_base_ctor_at (nm : string) (k : N) (w : World) :
  registry_at k w ->
  (k + 1 < SIZE_MODULUS)%N ->
  __thread_base_ctor nm w = (Normal (mkBase nm), registered k w).
Proof.
  intros Hat Hk. unfold __thread_base_ctor.
  now rewrite (bind_normal _ _ _ _ _ (register_thread_at k w Hat Hk)).
Qed.

Lemma vector_ctor_fits {F S} `{Functor F} (count : N) (v : F) (s : S) :
  (count <= vector_max_size)%N ->
  vector_ctor count v s = (Normal (replicate (N.to_nat count) (copy_construct v)), s).
Proof.
  intros Hfit. unfold vector_ctor.
  destruct (N.ltb_spec vector_max_size count); [lia | reflexivity].
Qed.

Lemma size_pred_fits (n : N) :
  (1 <= n)%N -> (n < SIZE_MODULUS)%N -> (size_pred n <= vector_max_size)%N.
Proof. intros H1 Hn. rewrite size_pred_pos by assumption. unfold vector_max_size. lia. Qed.

Lemma multi_ctor_eq {F} `{Functor F} (f : ref F) (n : N) (nm : string) (k : N) (w : World) :
  (1 <= n)%N -> (n < SIZE_MODULUS)%N ->
  registry_at k w ->
  (k + 1 < SIZE_MODULUS)%N ->
  let copies := N.to_nat (size_pred n) in
  __multi_thread_ctor f n nm w =
    (Normal (mkMulti (mkBase nm)
                     (map Valid (seq (length (units w)) (copies + 1)))
                     (replicate copies (copy_construct (value f)))),
     mkWorld (live (mkBackend (k + 1) false))
             (units w ++ fresh_units (group_targets copies (address f)))
             (log w ++ (if (k =? 0)%N then [EvBackendCtor] else [])
                    ++ [EvRegister; multi_launching n nm]
                    ++ launch_events (length (units w)) (group_targets copies (address f)))).
Proof.
  intros H1 Hn Hat Hk copies. unfold __multi_thread_ctor.
  rewrite (bind_normal _ _ _ _ _ (thread_base_ctor_at nm k w Hat Hk)).
  assert (Hvec : unwinding (vector_ctor (size_pred n) (value f)) __thread_base_dtor
                    (registered k w)
                  = (Normal (replicate copies (copy_construct (value f))), registered k w)).
  { unfold unwinding.
    now rewrite (vector_ctor_fits (size_pred n) (value f) (registered k w)
                   (size_pred_fits n H1 Hn)). }
  rewrite (bind_normal _ _ _ _ _ Hvec).
  rewrite length_replicate. fold copies.
  rewrite (bind_normal (DEBUG _) _ _ _ tt eq_refl).
  rewrite (bind_normal _ _ _ _ _ (launch_copies_eq _ _)).
  match goal with |- bind (async ?t) _ ?s = _ =>
    rewrite (bind_normal (async t) _ s _ _ eq_refl) end.
  unfold ret, registered, group_targets, fresh_units, launch_events, multi_launching.
  cbn [units log backend set_log]. rewrite !length_app, !length_map, !length_seq.
  f_equal; [f_equal |]; [| f_equal].
  - f_equal. rewrite seq_app. rewrite map_app. reflexivity.
  - rewrite map_app. cbn [map]. now rewrite <- app_assoc.
  - rewrite imap_app, length_map, length_seq. cbn [imap]. rewrite Nat.add_0_r.
    rewrite <- !app_assoc. reflexivity.
Qed.

(** A group of no worker: the count of copies wraps round to the largest
    [size_t], the vector of copies cannot be built, and the constructor
    throws after the base has registered and unregistered again.  Nothing is
    launched. *)
Lemma multi_ctor_zero {F} `{Functor F} (f : ref F) (nm : string) (k : N) (w : World) :
  registry_at k w ->
  (k + 1 < SIZE_MODULUS)%N ->
  __multi_thread_ctor f 0 nm w
  = (Raise (Foreign "std::length_error"), unregistered (k + 1) (registered k w)).
Proof.
  intros Hat Hk. unfold __multi_thread_ctor.
  rewrite (bind_normal _ _ _ _ _ (thread_base_ctor_at nm k w Hat Hk)).
  assert (Hat1 : registry_at (k + 1) (registered k w)).
  { unfold registry_at, registered. cbn [backend].
    destruct (N.eqb_spec (k + 1) 0); [lia | reflexivity]. }
  erewrite bind_raise; [reflexivity |].
  unfold unwinding. rewrite size_pred_zero.
  change (vector_ctor (SIZE_MODULUS - 1) (value f) (registered k w))
    with (@raise World (list F) (Foreign "std::length_error") (registered k w)).
  unfold raise.
  unfold __thread_base_dtor.
  rewrite (unregister_thread_at (k + 1) _ Hat1 ltac:(lia) ltac:(lia)). reflexivity.
Qed.

Lemma size_pred_count (n : N) :
  (1 <= n)%N -> (n < SIZE_MODULUS)%N -> N.to_nat (size_pred n) + 1 = N.to_nat n.
Proof. intros H1 Hn. rewrite size_pred_pos by assumption. lia. Qed.

Lemma group_targets_NoDup (copies a : nat) : NoDup (group_targets copies a).
Proof.
  unfold group_targets. apply NoDup_app. split; [| split].
  - apply NoDup_fmap_2; [intros i j [= ->]; reflexivity | apply NoDup_seq].
  - intros t Hin Hlast. apply list_elem_of_fmap in Hin as (i & -> & _).
    apply list_elem_of_singleton in Hlast. discriminate.
  - apply NoDup_singleton.
Qed.

Lemma futures_dtor_spent (fs : list future) (w : World) :
  futures_dtor (map (fun _ => Invalid) fs) w = (Normal tt, w).
Proof. induction fs as [| f fs IH]; [reflexivity |]. cbn. exact IH. Qed.

(** [try { wait(); } catch (Exception& E) { E.display(); }] on a group. *)
Lemma multi_try_wait_settled {F} (w : World) (h : __multi_thread F) :
  Forall (settled w) (threads h) ->
  try_catch __multi_thread_wait (fun E => liftW (display E)) (w, h) =
    let n := name (multi_base h) in
    (Normal tt,
     (addlog (multi_waiting n :: join_log w (threads h)
              ++ [if has_failure w (threads h)
                  then EvDisplay (group_failure n)
                  else multi_completed n]) w,
      spent h)).
Proof.
  intros Hall. unfold try_catch. rewrite (multi_wait_settled w h Hall). cbn zeta.
  destruct (has_failure w (threads h)); [| reflexivity].
  unfold liftW, display. cbn [fst snd]. rewrite emit_addlog, addlog_addlog. reflexivity.
Qed.

Lemma multi_dtor_settled {F} (k : N) (w : World) (h : __multi_thread F) :
  registry_at k w -> (1 <= k)%N -> (k < SIZE_MODULUS)%N ->
  Forall (settled w) (threads h) ->
  __multi_thread_dtor (w, h) =
    let n := name (multi_base h) in
    (Normal tt,
     (unregistered k
        (addlog (multi_waiting n :: join_log w (threads h)
                 ++ [if has_failure w (threads h)
                     then EvDisplay (group_failure n)
                     else multi_completed n]) w),
      spent h)).
Proof.
  intros Hat H1 Hk Hall. unfold __multi_thread_dtor, noexcept.
  rewrite (bind_normal _ _ _ _ _ (multi_try_wait_settled w h Hall)).
  rewrite bind_self. cbn [snd spent threads].
  rewrite (bind_normal (liftW (futures_dtor _)) _ _ _ tt
             ltac:(unfold liftW; cbn [fst snd]; rewrite futures_dtor_spent; reflexivity)).
  unfold liftW. cbn [fst snd].
  rewrite (unregister_after k _ (proj2 (registry_at_addlog k _ w) Hat) H1 Hk).
  reflexivity.
Qed.

(** ** The loop of [wait()], part of the way *)

Lemma bind_assoc {S A B C} (m : M S A) (f : A -> M S B) (g : B -> M S C) (s : S) :
  bind (bind m f) g s = bind m (fun x => bind (f x) g) s.
Proof. unfold bind. destruct (m s) as [[a | t | | |] s1]; reflexivity. Qed.

Lemma bind_ext {S A B} (m : M S A) (k1 k2 : A -> M S B) (s : S) :
  (forall a s1, k1 a s1 = k2 a s1) -> bind m k1 s = bind m k2 s.
Proof. intros Hk. unfold bind. destruct (m s) as [[a | t | | |] s1]; auto. Qed.

Lemma wait_loop_app {F} (l1 l2 : list nat) (flag : bool) (s : World * __multi_thread F) :
  wait_loop (l1 ++ l2) flag s = (let* f := wait_loop l1 flag in wait_loop l2 f) s.
Proof.
  revert flag s. induction l1 as [| i l1 IH]; intros flag s; [reflexivity |].
  cbn [app wait_loop]. rewrite bind_assoc. apply bind_ext. intros f s1. apply IH.
Qed.

Lemma wait_loop_segment {F} (base : __thread_base) (fs : list F) (mid post : list future) :
  forall (pre : list future) (flag : bool) (w : World),
    Forall (settled w) mid ->
    wait_loop (seq (length pre) (length mid)) flag (w, mkMulti base (pre ++ mid ++ post) fs)
    = (Normal (flag || has_failure w mid),
       (addlog (join_log w mid) w,
        mkMulti base (pre ++ map (fun _ => Invalid) mid ++ post) fs)).
Proof.
  induction mid as [| f mid IH]; intros pre flag w Hall.
  - cbn. unfold ret. rewrite addlog_nil, orb_false_r. reflexivity.
  - apply Forall_cons in Hall as [Hf Hmid].
    cbn [length seq wait_loop app].
    assert (Hbody := wait_body_eq (length pre) flag w
                       (mkMulti base (pre ++ f :: mid ++ post) fs)).
    rewrite thread_at_middle in Hbody.
    assert (Hlen : S (length pre) = length (pre ++ [Invalid]))
      by (rewrite length_app; simpl; lia).
    destruct f as [| u].
    + rewrite (bind_normal _ _ _ _ _ Hbody).
      replace (pre ++ Invalid :: mid ++ post) with ((pre ++ [Invalid]) ++ mid ++ post)
        by now rewrite <- app_assoc.
      rewrite Hlen, (IH _ _ _ Hmid). rewrite <- app_assoc.
      rewrite has_failure_cons, join_log_cons. reflexivity.
    + rewrite set_thread_at_middle in Hbody.
      destruct Hf as [Hok | [E HE]].
      * rewrite Hok in Hbody. rewrite (bind_normal _ _ _ _ _ Hbody).
        rewrite Hlen, (IH _ _ (addlog [EvGet u] w) Hmid).
        rewrite addlog_addlog, join_log_addlog, has_failure_addlog, <- app_assoc.
        rewrite has_failure_cons, join_log_cons. cbn [join_events failure_of].
        rewrite Hok. reflexivity.
      * rewrite HE in Hbody. rewrite (bind_normal _ _ _ _ _ Hbody).
        rewrite Hlen, (IH _ _ (addlog [EvGet u; EvDisplay E] w) Hmid).
        rewrite addlog_addlog, join_log_addlog, <- app_assoc.
        rewrite has_failure_cons, join_log_cons. cbn [join_events failure_of].
        rewrite HE, orb_true_r. reflexivity.
Qed.

(** [wait()] up to the first worker that has not terminated well or with an
    [Exception]: the workers before it are joined, their failures displayed,
    and the loop is at that worker with the flag those failures raised. *)
Lemma multi_wait_upto {F} (w : World) (base : __thread_base) (fs : list F)
      (mid post : list future) (u : nat) :
  Forall (settled w) mid ->
  __multi_thread_wait (w, mkMulti base (mid ++ Valid u :: post) fs)
  = (let* exception_thrown :=
       (let* flag := wait_body (length mid) (has_failure w mid) in
        wait_loop (seq (S (length mid)) (length post)) flag) in
     if exception_thrown
     then raise (MRException (group_failure (name base)))
     else liftW (DEBUG ("threads " +:+ quoted (name base) +:+ " completed OK")))
      (addlog (multi_waiting (name base) :: join_log w mid) w,
       mkMulti base (map (fun _ => Invalid) mid ++ Valid u :: post) fs).
Proof.
  intros Hall. unfold __multi_thread_wait. rewrite bind_self. cbn [snd multi_base threads].
  rewrite (bind_normal _ _ _ _ _ (liftW_DEBUG _ w _)).
  rewrite length_app. cbn [length]. rewrite seq_app. cbn [seq Nat.add].
  pose proof (wait_loop_segment base fs mid (Valid u :: post) [] false
                (addlog [multi_waiting (name base)] w) Hall) as Hseg.
  cbn [length app] in Hseg.
  rewrite addlog_addlog, join_log_addlog, has_failure_addlog in Hseg. cbn [orb app] in Hseg.
  fold (multi_waiting (name base)).
  unfold bind at 1. rewrite wait_loop_app. rewrite (bind_normal _ _ _ _ _ Hseg).
  cbn [wait_loop]. reflexivity.
Qed.

Lemma failures_app (w : World) (l1 l2 : list future) :
  failures w (l1 ++ l2) = failures w l1 ++ failures w l2.
Proof. unfold failures. apply omap_app. Qed.

Lemma failures_spent (w : World) (fs : list future) :
  failures w (map (fun _ => Invalid) fs) = [].
Proof. induction fs as [| f fs IH]; [reflexivity | exact IH]. Qed.

Lemma join_log_app (w : World) (l1 l2 : list future) :
  join_log w (l1 ++ l2) = join_log w l1 ++ join_log w l2.
Proof. unfold join_log. now rewrite map_app, concat_app. Qed.

Lemma wait_body_at {F} (w : World) (base : __thread_base) (fs : list F)
      (pre post : list future) (u : nat) (flag : bool) :
  wait_body (length pre) flag (w, mkMulti base (pre ++ Valid u :: post) fs)
  = match unit_status w u with
    | None => (Undefined, (w, mkMulti base (pre ++ Valid u :: post) fs))
    | Some Running => (Blocked, (w, mkMulti base (pre ++ Valid u :: post) fs))
    | Some (Done Ok) =>
        (Normal flag, (addlog [EvGet u] w, mkMulti base (pre ++ Invalid :: post) fs))
    | Some (Done (Threw (MRException E))) =>
        (Normal true,
         (addlog [EvGet u; EvDisplay E] w, mkMulti base (pre ++ Invalid :: post) fs))
    | Some (Done (Threw (Foreign x))) =>
        (Raise (Foreign x),
         (addlog [EvGet u] w, mkMulti base (pre ++ Invalid :: post) fs))
    end.
Proof.
  rewrite wait_body_eq, thread_at_middle, set_thread_at_middle, <- app_assoc. reflexivity.
Qed.

Lemma spent_spent {F} (h : __multi_thread F) : spent (spent h) = spent h.
Proof. unfold spent. cbn [multi_base threads functors]. now rewrite map_map. Qed.

Lemma settled_spent (w : World) (fs : list future) :
  Forall (settled w) (map (fun _ => Invalid) fs).
Proof. apply Forall_fmap, Forall_true. intros f. exact I. Qed.

Lemma join_log_spent (w : World) (fs : list future) :
  join_log w (map (fun _ => Invalid) fs) = [].
Proof. induction fs as [| f fs IH]; [reflexivity | exact IH]. Qed.

Lemma has_failure_spent (w : World) (fs : list future) :
  has_failure w (map (fun _ => Invalid) fs) = false.
Proof. induction fs as [| f fs IH]; [reflexivity | exact IH]. Qed.

(** A group handle with nothing left to join: [wait()] passes over every
    future and reports completion. *)
Lemma multi_wait_spent {F} (w : World) (h : __multi_thread F) :
  __multi_thread_wait (w, spent h)
  = (Normal tt,
     (addlog [multi_waiting (name (multi_base h)); multi_completed (name (multi_base h))] w,
      spent h)).
Proof.
  rewrite (multi_wait_settled w (spent h) (settled_spent w (threads h))). cbn zeta.
  cbn [spent threads multi_base]. rewrite has_failure_spent, join_log_spent.
  fold (spent h). now rewrite spent_spent.
Qed.

Lemma single_wait_consumes (w : World) (h : __single_thread) (r : result unit)
      (w' : World) (h' : __single_thread) :
  __single_thread_wait (w, h) = (r, (w', h')) ->
  r = Normal tt \/ (exists t, r = Raise t) ->
  thread h' = Invalid
  /\ backend w' = backend w
  /\ exists u o, thread h = Valid u /\ unit_status w u = Some (Done o).
Proof.
  intros Hrun Hr. rewrite single_wait_eq in Hrun. cbn zeta in Hrun.
  destruct (thread h) as [| u] eqn:Hth.
  - injection Hrun as <- _ _. destruct Hr as [Hr | [t Hr]]; discriminate.
  - destruct (unit_status w u) as [[| [| t]] |] eqn:Hst; injection Hrun as <- <- <-;
      try (destruct Hr as [Hr | [t' Hr]]; discriminate);
      (split; [reflexivity | split; [reflexivity | eauto]]).
Qed.

Lemma registry_at_unregistered (k : N) (w : World) :
  (1 <= k)%N -> registry_at (k - 1) (unregistered k w).
Proof.
  intros H1. unfold registry_at, unregistered. cbn [backend].
  destruct (N.eqb_spec k 1) as [-> | Hn1]; [reflexivity |].
  destruct (N.eqb_spec (k - 1) 0); [lia | reflexivity].
Qed.

Lemma units_of_valid (us : list nat) : units_of (map Valid us) = us.
Proof.
  unfold units_of. induction us as [| u us IH]; [reflexivity |].
  cbn [map omap list_omap]. now f_equal.
Qed.

(** ** Waiting on a group *)

Lemma joins_of_join_log (w : World) (fs : list future) :
  List.filter is_get (join_log w fs) = map EvGet (units_of fs).
Proof.
  induction fs as [| [| u] fs IH]; [reflexivity | exact IH |].
  rewrite join_log_cons, List.filter_app, IH. unfold units_of. cbn [omap list_omap map].
  cbn [join_events]. destruct (failure_of w (Valid u)); reflexivity.
Qed.

Lemma displays_of_join_log (w : World) (fs : list future) :
  List.filter is_display (join_log w fs) = map EvDisplay (failures w fs).
Proof.
  induction fs as [| [| u] fs IH]; [reflexivity | exact IH |].
  rewrite join_log_cons, List.filter_app, IH. unfold failures. cbn [omap list_omap].
  cbn [join_events]. destruct (failure_of w (Valid u)); reflexivity.
Qed.

Lemma has_failure_failures (w : World) (fs : list future) :
  has_failure w fs = true <-> failures w fs <> [].
Proof. unfold has_failure. destruct (failures w fs); split; congruence. Qed.

Lemma logged_addlog (l : list event) (w : World) : logged w (addlog l w) = l.
Proof. now apply logged_app. Qed.

(** ** Where the loop of [wait()] stops *)

Lemma units_of_app (l1 l2 : list future) :
  units_of (l1 ++ l2) = units_of l1 ++ units_of l2.
Proof. unfold units_of. apply omap_app. Qed.

Lemma units_of_spent (fs : list future) : units_of (map (fun _ => Invalid) fs) = [].
Proof. induction fs as [| f fs IH]; [reflexivity | exact IH]. Qed.

(** The futures the loop cannot pass: the unit still runs, or it ended with
    a throwable that is not an [Exception], or the future is of no unit of
    the world. *)
Lemma not_settled (w : World) (u : nat) :
  ~ settled w (Valid u) ->
  unit_status w u = None
  \/ unit_status w u = Some Running
  \/ exists x, unit_status w u = Some (Done (Threw (Foreign x))).
Proof.
  intros Hn. cbn [settled] in Hn.
  destruct (unit_status w u) as [[| [| [E | x]]] |]; eauto.
  - exfalso. apply Hn. now left.
  - exfalso. apply Hn. right. eauto.
Qed.

(** Either the loop can pass every future, or there is a first one it
    cannot. *)
Lemma settled_split (w : World) (fs : list future) :
  Forall (settled w) fs
  \/ exists (mid : list future) (u : nat) (post : list future),
       fs = mid ++ Valid u :: post
       /\ Forall (settled w) mid
       /\ (unit_status w u = None
           \/ unit_status w u = Some Running
           \/ exists x, unit_status w u = Some (Done (Threw (Foreign x)))).
Proof.
  induction fs as [| f fs IH]; [left; constructor |].
  assert (Hdec : settled w f \/ ~ settled w f).
  { destruct f as [| u]; [left; exact I |]. cbn [settled].
    destruct (unit_status w u) as [[| [| [E | x]]] |].
    - right. intros [? | [? ?]]; discriminate.
    - left. now left.
    - left. right. eauto.
    - right. intros [? | [? ?]]; discriminate.
    - right. intros [? | [? ?]]; discriminate. }
  destruct Hdec as [Hf | Hf].
  - destruct IH as [Hall | (mid & u & post & -> & Hmid & Hu)].
    + left. now constructor.
    + right. exists (f :: mid), u, post.
      split; [reflexivity |]. split; [now constructor | exact Hu].
  - right. destruct f as [| u]; [now destruct Hf |].
    exists [], u, fs. split; [reflexivity |]. split; [constructor |]. now apply not_settled.
Qed.

(** [wait()] at the first future the loop cannot pass.  The workers before
    it have been joined and their failures displayed.  On a unit that still
    runs the caller is suspended; a throwable that is not an [Exception]
    leaves [wait()] at once, the future emptied, the later ones untouched. *)
Lemma multi_wait_stops {F} (w : World) (base : __thread_base) (fs : list F)
      (mid post : list future) (u : nat) :
  Forall (settled w) mid ->
  __multi_thread_wait (w, mkMulti base (mid ++ Valid u :: post) fs)
  = (let w1 := addlog (multi_waiting (name base) :: join_log w mid) w in
     let held := mkMulti base (map (fun _ => Invalid) mid ++ Valid u :: post) fs in
     match unit_status w u with
     | None => (Undefined, (w1, held))
     | Some Running => (Blocked, (w1, held))
     | Some (Done (Threw (Foreign x))) =>
         (Raise (Foreign x),
          (addlog (multi_waiting (name base) :: join_log w mid ++ [EvGet u]) w,
           mkMulti base (map (fun _ => Invalid) mid ++ Invalid :: post) fs))
     | Some (Done _) =>
         __multi_thread_wait (w, mkMulti base (mid ++ Valid u :: post) fs)
     end).
Proof.
  intros Hall. cbn zeta.
  destruct (unit_status w u) as [[| [| [E | x]]] |] eqn:Hst; try reflexivity;
    rewrite (multi_wait_upto w base fs mid post u Hall);
    pose proof (wait_body_at (addlog (multi_waiting (name base) :: join_log w mid) w)
                  base fs (map (fun _ => Invalid) mid) post u (has_failure w mid)) as Hbody;
    rewrite length_map in Hbody;
    change (unit_status (addlog (multi_waiting (name base) :: join_log w mid) w) u)
      with (unit_status w u) in Hbody;
    rewrite Hst in Hbody.
  - erewrite bind_blocked; [reflexivity |].
    erewrite bind_blocked; [reflexivity | exact Hbody].
  - rewrite addlog_addlog in Hbody.
    erewrite bind_raise; [reflexivity |].
    erewrite bind_raise; [reflexivity | exact Hbody].
  - erewrite bind_undefined; [reflexivity |].
    erewrite bind_undefined; [reflexivity | exact Hbody].
Qed.

(** The destructor of a group at the same future: suspended with the unit
    still running; with a throwable that is not an [Exception], which the
    handler does not match, [std::terminate].  The base has not
    unregistered. *)
Lemma multi_dtor_stops {F} (w : World) (base : __thread_base) (fs : list F)
      (mid post : list future) (u : nat) :
  Forall (settled w) mid ->
  __multi_thread_dtor (w, mkMulti base (mid ++ Valid u :: post) fs)
  = (let w1 := addlog (multi_waiting (name base) :: join_log w mid) w in
     let held := mkMulti base (map (fun _ => Invalid) mid ++ Valid u :: post) fs in
     match unit_status w u with
     | None => (Undefined, (w1, held))
     | Some Running => (Blocked, (w1, held))
     | Some (Done (Threw (Foreign x))) =>
         (Abort,
          (addlog (multi_waiting (name base) :: join_log w mid ++ [EvGet u]) w,
           mkMulti base (map (fun _ => Invalid) mid ++ Invalid :: post) fs))
     | Some (Done _) =>
         __multi_thread_dtor (w, mkMulti base (mid ++ Valid u :: post) fs)
     end).
Proof.
  intros Hall. pose proof (multi_wait_stops w base fs mid post u Hall) as Hw.
  cbn zeta in Hw |- *.
  destruct (unit_status w u) as [[| [| [E | x]]] |] eqn:Hst; try reflexivity;
    unfold __multi_thread_dtor, noexcept.
  - erewrite bind_blocked; [reflexivity |]. unfold try_catch. now rewrite Hw.
  - erewrite bind_raise; [reflexivity |]. unfold try_catch. now rewrite Hw.
  - erewrite bind_undefined; [reflexivity |]. unfold try_catch. now rewrite Hw.
Qed.

(** What a stretch of the loop leaves in the log: the joins, in order, and
    the failures displayed, in order. *)
Lemma gets_of_stretch (w : World) (n : string) (mid : list future) (tail : list event) :
  List.filter is_get (logged w (addlog (multi_waiting n :: join_log w mid ++ tail) w))
  = map EvGet (units_of mid) ++ List.filter is_get tail.
Proof.
  rewrite logged_addlog. cbn [List.filter is_get multi_waiting].
  now rewrite List.filter_app, joins_of_join_log.
Qed.

Lemma displays_of_stretch (w : World) (n : string) (mid : list future) (tail : list event) :
  List.filter is_display (logged w (addlog (multi_waiting n :: join_log w mid ++ tail) w))
  = map EvDisplay (failures w mid) ++ List.filter is_display tail.
Proof.
  rewrite logged_addlog. cbn [List.filter is_display multi_waiting].
  now rewrite List.filter_app, displays_of_join_log.
Qed.

Lemma unregisters_of_join_log (w : World) (fs : list future) :
  List.filter is_unregister (join_log w fs) = [].
Proof.
  induction fs as [| [| u] fs IH]; [reflexivity | exact IH |].
  rewrite join_log_cons, List.filter_app, IH. cbn [join_events].
  destruct (failure_of w (Valid u)); reflexivity.
Qed.

(** Whatever way [wait()] ends, the results it has fetched are those of a
    first stretch of the futures the handle held, each fetched once, and
    the handle holds the others still. *)
Lemma multi_wait_fetches {F} (w : World) (h : __multi_thread F) (r : result unit)
      (w' : World) (h' : __multi_thread F) :
  __multi_thread_wait (w, h) = (r, (w', h')) ->
  exists fetched : list nat,
    List.filter is_get (logged w w') = map EvGet fetched
    /\ units_of (threads h) = fetched ++ units_of (threads h')
    /\ multi_base h' = multi_base h
    /\ functors h' = functors h
    /\ length (threads h') = length (threads h)
    /\ units w' = units w
    /\ backend w' = backend w.
Proof.
  intros Hrun.
  destruct (settled_split w (threads h)) as [Hall | (mid & u & post & Hth & Hmid & Hu)].
  - rewrite (multi_wait_settled w h Hall) in Hrun. cbn zeta in Hrun.
    exists (units_of (threads h)).
    destruct (has_failure w (threads h)); injection Hrun as <- <- <-;
      cbn [spent threads multi_base functors]; rewrite units_of_spent, app_nil_r, length_map.
    + rewrite <- (app_nil_r (join_log w (threads h))), gets_of_stretch. cbn.
      now rewrite app_nil_r.
    + rewrite gets_of_stretch. cbn. now rewrite app_nil_r.
  - destruct h as [base ts fs]. cbn [threads multi_base functors] in *. subst ts.
    pose proof (multi_wait_stops w base fs mid post u Hmid) as Hw. cbn zeta in Hw.
    destruct Hu as [Hu | [Hu | [x Hu]]]; rewrite Hu in Hw; rewrite Hw in Hrun;
      injection Hrun as <- <- <-; cbn [threads multi_base functors].
    + exists (units_of mid).
      rewrite <- (app_nil_r (join_log w mid)), gets_of_stretch.
      rewrite !units_of_app, units_of_spent, !length_app, length_map. cbn.
      now rewrite app_nil_r.
    + exists (units_of mid).
      rewrite <- (app_nil_r (join_log w mid)), gets_of_stretch.
      rewrite !units_of_app, units_of_spent, !length_app, length_map. cbn.
      now rewrite app_nil_r.
    + exists (units_of mid ++ [u]).
      rewrite gets_of_stretch.
      rewrite !units_of_app, units_of_spent, !length_app, length_map, map_app. cbn.
      now rewrite <- app_assoc.
Qed.

(** A unit of the world, once the environment has let it terminate. *)
Lemma unit_status_finish (w : World) (u : nat) (o : outcome) (st : status) :
  unit_status w u = Some st -> unit_status (finish u o w) u = Some (Done o).
Proof.
  unfold unit_status, finish. cbn [units set_units]. rewrite list_lookup_alter_eq.
  destruct (units w !! u); [reflexivity | discriminate].
Qed.

(** No exception leaves a destructor. *)
Lemma noexcept_no_raise {S A} (body : M S A) (s : S) (t : thrown) :
  fst (noexcept body s) <> Raise t.
Proof. unfold noexcept. destruct (body s) as [[a | t' | | |] s']; discriminate. Qed.

(** [wait()] on a group handle, in every world.  It joins the workers in
    the order of launch, and what it does is settled by the first worker, if
    any, that has not terminated well or with an [Exception].

    With every worker terminated well or with an [Exception], [wait()]
    comes back having emptied every future and joined every worker exactly
    once, in order; every worker's failure has been displayed, in order, and
    nothing else; it raises the one aggregated failure if at least one
    worker failed, and returns normally if none did.  It returns, or raises
    an [Exception], in no other world: never while a worker still runs.

    Otherwise the workers before that first one have been joined and their
    failures displayed, and no more.  If that worker still runs, the caller
    is suspended there.  If it ended with a throwable that is not an
    [Exception], the throwable leaves [wait()] at once: nothing is displayed
    for it, the aggregated failure is not raised, and the workers after it
    are neither joined nor waited for, their futures left as they were. *)
Theorem group_wait_observes_all {F} (w : World) (h : __multi_thread F)
        (r : result unit) (w' : World) (h' : __multi_thread F) :
  __multi_thread_wait (w, h) = (r, (w', h')) ->
  (Forall (settled w) (threads h) ->
      h' = spent h
      /\ units w' = units w
      /\ List.filter is_get (logged w w') = map EvGet (units_of (threads h))
      /\ List.filter is_display (logged w w') = map EvDisplay (failures w (threads h))
      /\ (failures w (threads h) <> [] ->
          r = Raise (MRException (group_failure (name (multi_base h)))))
      /\ (failures w (threads h) = [] -> r = Normal tt))
  /\ (r = Normal tt \/ (exists E, r = Raise (MRException E)) -> Forall (settled w) (threads h))
  /\ (forall (mid : list future) (u : nat) (post : list future),
        threads h = mid ++ Valid u :: post ->
        Forall (settled w) mid ->
        (unit_status w u = Some Running ->
         r = Blocked
         /\ threads h' = map (fun _ => Invalid) mid ++ Valid u :: post
         /\ List.filter is_get (logged w w') = map EvGet (units_of mid)
         /\ List.filter is_display (logged w w') = map EvDisplay (failures w mid))
        /\ (forall x, unit_status w u = Some (Done (Threw (Foreign x))) ->
            r = Raise (Foreign x)
            /\ threads h' = map (fun _ => Invalid) mid ++ Invalid :: post
            /\ List.filter is_get (logged w w') = map EvGet (units_of mid ++ [u])
            /\ List.filter is_display (logged w w') = map EvDisplay (failures w mid))
        /\ (unit_status w u = None -> r = Undefined))
  /\ (Forall (settled w) (threads h)
      \/ exists (mid : list future) (u : nat) (post : list future),
           threads h = mid ++ Valid u :: post
           /\ Forall (settled w) mid
           /\ (unit_status w u = None
               \/ unit_status w u = Some Running
               \/ exists x, unit_status w u = Some (Done (Threw (Foreign x))))).
Proof.
  intros Hrun. split; [| split; [| split]].
  - intros Hall. rewrite (multi_wait_settled w h Hall) in Hrun. cbn zeta in Hrun.
    destruct (has_failure w (threads h)) eqn:Hf; injection Hrun as <- <- <-.
    + rewrite logged_addlog.
      split; [reflexivity |]. split; [reflexivity |].
      split; [exact (joins_of_join_log w (threads h)) |].
      split; [exact (displays_of_join_log w (threads h)) |].
      split; [reflexivity |].
      intros Hnone. apply has_failure_failures in Hf. contradiction.
    + rewrite logged_addlog.
      split; [reflexivity |]. split; [reflexivity |].
      split.
      { cbn [List.filter is_get multi_waiting]. rewrite List.filter_app, joins_of_join_log.
        cbn. now rewrite app_nil_r. }
      split.
      { cbn [List.filter is_display multi_waiting]. rewrite List.filter_app, displays_of_join_log.
        cbn. now rewrite app_nil_r. }
      split; [| reflexivity].
      intros Hsome. apply has_failure_failures in Hsome. congruence.
  - intros Hr. exact (multi_wait_returns w h r (w', h') Hrun Hr).
  - intros mid u post Hth Hmid.
    destruct h as [base ts fs]. cbn [threads] in Hth. subst ts.
    pose proof (multi_wait_stops w base fs mid post u Hmid) as Hw. cbn zeta in Hw.
    split; [| split].
    + intros Hst. rewrite Hst in Hw. rewrite Hw in Hrun. injection Hrun as <- <- <-.
      split; [reflexivity |]. split; [reflexivity |].
      rewrite <- (app_nil_r (join_log w mid)), gets_of_stretch, displays_of_stretch.
      cbn. now rewrite !app_nil_r.
    + intros x Hst. rewrite Hst in Hw. rewrite Hw in Hrun. injection Hrun as <- <- <-.
      split; [reflexivity |]. split; [reflexivity |].
      rewrite gets_of_stretch, displays_of_stretch, map_app.
      cbn. now rewrite !app_nil_r.
    + intros Hst. rewrite Hst in Hw. rewrite Hw in Hrun. now injection Hrun as <- _ _.
  - exact (settled_split w (threads h)).
Qed.

(** ** Launching a group *)

Lemma started_app (w : World) (b : pointer) (us : list unit_state) (l : list event) :
  started w (mkWorld b (units w ++ us) l) = us.
Proof. unfold started. cbn [units]. apply drop_app_length. Qed.

Lemma target_of_fresh_units (tgts : list target) :
  map target_of (fresh_units tgts) = tgts.
Proof.
  unfold fresh_units. rewrite map_map. cbn [target_of]. apply map_id.
Qed.

Lemma filter_async_imap (g : nat -> target -> event) (tgts : list target) :
  (forall j t, is_async (g j t) = true) ->
  List.filter is_async (imap g tgts) = imap g tgts.
Proof.
  revert g. induction tgts as [| t tgts IH]; intros g Hg; [reflexivity |].
  cbn [imap List.filter]. rewrite Hg. f_equal. apply IH. intros j t'. apply Hg.
Qed.

(** C3.  For [1 <= n], launching a group of [n] workers from a functor
    makes exactly [n - 1] copies of it, owned by the handle, and starts
    exactly [n] execution units.  Unit by unit they run on copy 0, copy 1,
    ..., copy [n - 2] and last on the caller's own functor: [n] distinct
    instances, the original among them, no replica left idle.  The handle
    receives one future per unit. *)
Theorem group_launch {F} `{Functor F} (f : ref F) (n : N) (nm : string) (k : N) (w : World) :
  (1 <= n)%N -> (n < SIZE_MODULUS)%N ->
  registry_at k w -> (k + 1 < SIZE_MODULUS)%N ->
  exists (h : __multi_thread F) (w' : World),
    __multi_thread_ctor f n nm w = (Normal h, w')
    /\ functors h = replicate (N.to_nat n - 1) (copy_construct (value f))
    /\ length (functors h) = N.to_nat n - 1
    /\ length (started w w') = N.to_nat n
    /\ map target_of (started w w')
       = map Copy (seq 0 (N.to_nat n - 1)) ++ [Original (address f)]
    /\ NoDup (map target_of (started w w'))
    /\ Original (address f) ∈ map target_of (started w w')
    /\ threads h = map Valid (seq (length (units w)) (N.to_nat n))
    /\ List.filter is_async (logged w w')
       = launch_events (length (units w)) (map target_of (started w w')).
Proof.
  intros H1 Hn Hat Hk.
  pose proof (multi_ctor_eq f n nm k w H1 Hn Hat Hk) as Hctor. cbn zeta in Hctor.
  pose proof (size_pred_count n H1 Hn) as Hcount.
  assert (Hc : N.to_nat (size_pred n) = N.to_nat n - 1) by lia.
  rewrite Hcount, Hc in Hctor.
  eexists _, _. split; [exact Hctor |].
  rewrite started_app, target_of_fresh_units. cbn [functors threads].
  split; [reflexivity |].
  split; [apply length_replicate |].
  split. { unfold fresh_units, group_targets. rewrite length_map, length_app, length_map, length_seq.
           cbn [length]. lia. }
  split; [reflexivity |].
  split; [apply group_targets_NoDup |].
  split. { unfold group_targets. apply elem_of_app. right. apply list_elem_of_singleton.
           reflexivity. }
  split; [reflexivity |].
  erewrite logged_app by (cbn [log]; reflexivity).
  rewrite !List.filter_app.
  unfold launch_events at 1. rewrite filter_async_imap by reflexivity.
 unfold multi_launching. cbn [List.filter app].
  now destruct (k =? 0)%N.
Qed.

(** ** Waiting on a single-thread handle, and destroying handles *)

(** C4.  [wait()] on a single-thread handle that still owns its unit: while
    the unit runs the caller stays suspended; once the unit has terminated
    well, [wait()] returns; once it has terminated by throwing, [wait()]
    raises the very object thrown.  Either way the result is fetched once
    and the future is left empty, so the failure reaches the caller exactly
    once: a further [wait()] on the emptied handle has no result to raise,
    its behaviour is undefined. *)
Theorem single_wait_joins (w : World) (h : __single_thread) (u : nat) (st : status) :
  thread h = Valid u ->
  unit_status w u = Some st ->
  __single_thread_wait (w, h)
  = (let n := name (single_base h) in
     match st with
     | Running => (Blocked, (addlog [single_waiting n] w, h))
     | Done Ok =>
         (Normal tt,
          (addlog [single_waiting n; EvGet u; single_completed n] w, set_thread Invalid h))
     | Done (Threw t) =>
         (Raise t, (addlog [single_waiting n; EvGet u] w, set_thread Invalid h))
     end)
  /\ (forall w2 : World,
        fst (__single_thread_wait (w2, set_thread Invalid h)) = Undefined).
Proof.
  intros Hth Hst. split.
  - rewrite single_wait_eq, Hth, Hst. reflexivity.
  - intros w2. rewrite single_wait_eq. reflexivity.
Qed.

(** A handle destroyed while it still owns its results, the registry
    holding its registration, in every world.  A destructor joins like
    [wait()] and its handler catches [Exception] and nothing else.

    The destructor of a single-thread handle, unit by unit: on a unit that
    ended well it joins, unregisters and returns; on a unit that ended with
    an [Exception] it joins, displays the failure, unregisters and returns;
    on a unit that ended with a throwable of another type it joins and ends
    in [std::terminate], nothing displayed, nothing unregistered.

    The destructor of a group handle whose workers have all terminated well
    or with an [Exception] joins each, displays every failure in turn and
    then the aggregated one, unregisters and returns.  If the first worker
    to have ended otherwise ended with a throwable of another type, the
    destructor ends in [std::terminate] on joining it: the failures of the
    workers before it have been displayed, nothing for this one, the later
    workers are not joined and the registration is not released.

    Either way, no exception leaves a destructor. *)
Theorem teardown_swallows {F} (k : N) (w : World) (hs : __single_thread) (u : nat)
        (hm : __multi_thread F) :
  registry_at k w -> (1 <= k)%N -> (k < SIZE_MODULUS)%N ->
  thread hs = Valid u ->
  (forall st : status,
      unit_status w u = Some st ->
      __single_thread_dtor (w, hs)
      = (let n := name (single_base hs) in
         match st with
         | Running => (Blocked, (addlog [single_waiting n] w, hs))
         | Done Ok =>
             (Normal tt,
              (unregistered k (addlog [single_waiting n; EvGet u; single_completed n] w),
               set_thread Invalid hs))
         | Done (Threw (MRException E)) =>
             (Normal tt,
              (unregistered k (addlog [single_waiting n; EvGet u; EvDisplay E] w),
               set_thread Invalid hs))
         | Done (Threw (Foreign x)) =>
             (Abort, (addlog [single_waiting n; EvGet u] w, set_thread Invalid hs))
         end))
  /\ (Forall (settled w) (threads hm) ->
      exists w',
        __multi_thread_dtor (w, hm) = (Normal tt, (w', spent hm))
        /\ registry_at (k - 1) w'
        /\ List.filter is_get (logged w w') = map EvGet (units_of (threads hm))
        /\ List.filter is_display (logged w w')
           = map EvDisplay (failures w (threads hm)
                            ++ (if has_failure w (threads hm)
                                then [group_failure (name (multi_base hm))]
                                else [])))
  /\ (forall (mid : list future) (v : nat) (post : list future) (x : string),
        threads hm = mid ++ Valid v :: post ->
        Forall (settled w) mid ->
        unit_status w v = Some (Done (Threw (Foreign x))) ->
        exists (w' : World) (hm' : __multi_thread F),
          __multi_thread_dtor (w, hm) = (Abort, (w', hm'))
          /\ threads hm' = map (fun _ => Invalid) mid ++ Invalid :: post
          /\ backend w' = backend w
          /\ List.filter is_unregister (logged w w') = []
          /\ List.filter is_get (logged w w') = map EvGet (units_of mid ++ [v])
          /\ List.filter is_display (logged w w') = map EvDisplay (failures w mid))
  /\ (forall t, fst (__single_thread_dtor (w, hs)) <> Raise t)
  /\ (forall t, fst (__multi_thread_dtor (w, hm)) <> Raise t).
Proof.
  intros Hat H1 Hk Hth.
  pose proof (single_dtor_eq k w hs Hat H1 Hk) as Hs. rewrite Hth in Hs. cbn zeta in Hs.
  split; [| split; [| split; [| split]]].
  - intros st Hst. rewrite Hst in Hs. rewrite Hs. cbn zeta.
    destruct st as [| [| [E | x]]]; reflexivity.
  - intros Hall.
    eexists. split; [exact (multi_dtor_settled k w hm Hat H1 Hk Hall) |].
    cbn zeta. split; [now apply registry_at_unregistered |].
    unfold unregistered, logged. cbn [log addlog set_log].
    rewrite <- app_assoc, drop_app_length.
    split.
    + rewrite !List.filter_app. cbn [List.filter is_get multi_waiting app].
      rewrite List.filter_app, joins_of_join_log.
      destruct (has_failure w (threads hm)), (k =? 1)%N; cbn; now rewrite !app_nil_r.
    + cbn [List.filter is_display multi_waiting app].
      rewrite !List.filter_app, displays_of_join_log, map_app.
      destruct (has_failure w (threads hm)), (k =? 1)%N; cbn; now rewrite ?app_nil_r.
  - intros mid v post x Hsplit Hmid Hst.
    destruct hm as [base ts fs]. cbn [threads] in Hsplit. subst ts.
    pose proof (multi_dtor_stops w base fs mid post v Hmid) as Hd. cbn zeta in Hd.
    rewrite Hst in Hd.
    eexists _, _. split; [exact Hd |].
    split; [reflexivity |]. split; [reflexivity |].
    split.
    { rewrite logged_addlog. cbn [List.filter is_unregister multi_waiting].
      rewrite List.filter_app, unregisters_of_join_log. reflexivity. }
    rewrite gets_of_stretch, displays_of_stretch, map_app. cbn.
    now rewrite !app_nil_r.
  - intros t. apply noexcept_no_raise.
  - intros t. apply noexcept_no_raise.
Qed.

(** ** After the results have been fetched *)

Lemma settled_rest (w : World) (mid post : list future) :
  Forall (settled w) post ->
  Forall (settled w) (map (fun _ => Invalid) mid ++ Invalid :: post).
Proof.
  intros Hpost. apply Forall_app. split; [apply settled_spent |].
  constructor; [exact I | exact Hpost].
Qed.

Lemma failures_rest (w : World) (mid post : list future) :
  failures w (map (fun _ => Invalid) mid ++ Invalid :: post) = failures w post.
Proof. rewrite failures_app, failures_spent. reflexivity. Qed.

Lemma has_failure_rest (w : World) (mid post : list future) :
  has_failure w (map (fun _ => Invalid) mid ++ Invalid :: post) = has_failure w post.
Proof. unfold has_failure. now rewrite failures_rest. Qed.

Lemma join_log_rest (w : World) (mid post : list future) :
  join_log w (map (fun _ => Invalid) mid ++ Invalid :: post) = join_log w post.
Proof. rewrite join_log_app, join_log_spent. reflexivity. Qed.

(** A [wait()] that a throwable cut short was stopped by the first worker
    that had not terminated well or with an [Exception], and that worker
    had thrown it. *)
Lemma multi_wait_foreign_inv {F} (w : World) (h : __multi_thread F) (x : string)
      (w' : World) (h' : __multi_thread F) :
  __multi_thread_wait (w, h) = (Raise (Foreign x), (w', h')) ->
  exists (mid : list future) (u : nat) (post : list future),
    threads h = mid ++ Valid u :: post
    /\ Forall (settled w) mid
    /\ unit_status w u = Some (Done (Threw (Foreign x)))
    /\ w' = addlog (multi_waiting (name (multi_base h)) :: join_log w mid ++ [EvGet u]) w
    /\ h' = mkMulti (multi_base h) (map (fun _ => Invalid) mid ++ Invalid :: post) (functors h).
Proof.
  intros Hrun.
  destruct (settled_split w (threads h)) as [Hall | (mid & u & post & Hth & Hmid & Hu)].
  - rewrite (multi_wait_settled w h Hall) in Hrun. cbn zeta in Hrun.
    destruct (has_failure w (threads h)); discriminate.
  - destruct h as [base ts fs]. cbn [threads multi_base functors] in *. subst ts.
    pose proof (multi_wait_stops w base fs mid post u Hmid) as Hw. cbn zeta in Hw.
    destruct Hu as [Hu | [Hu | [x' Hu]]]; rewrite Hu in Hw; rewrite Hw in Hrun;
      try discriminate.
    injection Hrun as -> <- <-.
    exists mid, u, post. repeat (split; [first [reflexivity | assumption] |]). reflexivity.
Qed.

(** After an explicit [wait()], in every world.  A join empties the future
    it fetches from, and every later join passes over the empty futures: no
    outcome is fetched twice.

    Once an explicit [wait()] on a single-thread handle has come back,
    returning or raising, destroying the handle joins nothing and displays
    nothing: it only unregisters.

    Once an explicit [wait()] on a group handle has returned, or raised the
    aggregated failure, every future is empty: a second [wait()] joins
    nothing, displays nothing and returns normally, and so does the join in
    the destructor.

    Once an explicit [wait()] on a group handle has raised a throwable that
    is not an [Exception], the worker that threw it and those before it are
    spent, and the workers after it are still to be joined.  A second
    [wait()], once they have terminated well or with an [Exception], joins
    exactly those, displays their failures and raises the aggregated failure
    if one of them failed; the destructor does the same and displays the
    aggregate.

    In every case the joins of the first [wait()] and of any later one, one
    after the other, run through the handle's futures in order, each at most
    once. *)
Theorem outcome_consumed_once {F} (w : World)
        (hs hs' : __single_thread) (rs : result unit) (ws : World)
        (hm hm' : __multi_thread F) (rm : result unit) (wm : World) :
  __single_thread_wait (w, hs) = (rs, (ws, hs')) ->
  rs = Normal tt \/ (exists t, rs = Raise t) ->
  __multi_thread_wait (w, hm) = (rm, (wm, hm')) ->
  rm = Normal tt \/ (exists t, rm = Raise t) ->
  (thread hs' = Invalid
   /\ forall (k : N) (w2 : World),
        registry_at k w2 -> (1 <= k)%N -> (k < SIZE_MODULUS)%N ->
        __single_thread_dtor (w2, hs') = (Normal tt, (unregistered k w2, hs'))
        /\ List.filter is_get (logged w2 (unregistered k w2)) = []
        /\ List.filter is_display (logged w2 (unregistered k w2)) = [])
  /\ (rm = Normal tt \/ (exists E, rm = Raise (MRException E)) ->
      hm' = spent hm
      /\ (forall w2 : World,
            exists w3,
              __multi_thread_wait (w2, hm') = (Normal tt, (w3, hm'))
              /\ logged w2 w3
                 = [multi_waiting (name (multi_base hm)); multi_completed (name (multi_base hm))]
              /\ List.filter is_get (logged w2 w3) = []
              /\ List.filter is_display (logged w2 w3) = [])
      /\ (forall (k : N) (w2 : World),
            registry_at k w2 -> (1 <= k)%N -> (k < SIZE_MODULUS)%N ->
            exists w3,
              __multi_thread_dtor (w2, hm') = (Normal tt, (w3, hm'))
              /\ List.filter is_get (logged w2 w3) = []
              /\ List.filter is_display (logged w2 w3) = []))
  /\ (forall x : string,
        rm = Raise (Foreign x) ->
        exists (mid : list future) (u : nat) (post : list future),
          threads hm = mid ++ Valid u :: post
          /\ unit_status w u = Some (Done (Threw (Foreign x)))
          /\ threads hm' = map (fun _ => Invalid) mid ++ Invalid :: post
          /\ List.filter is_get (logged w wm) = map EvGet (units_of mid ++ [u])
          /\ (forall w2 : World,
                Forall (settled w2) post ->
                exists w3,
                  __multi_thread_wait (w2, hm')
                  = (match failures w2 post with
                     | [] => Normal tt
                     | _ :: _ => Raise (MRException (group_failure (name (multi_base hm))))
                     end,
                     (w3, spent hm'))
                  /\ List.filter is_get (logged w2 w3) = map EvGet (units_of post)
                  /\ List.filter is_display (logged w2 w3) = map EvDisplay (failures w2 post))
          /\ (forall (k : N) (w2 : World),
                registry_at k w2 -> (1 <= k)%N -> (k < SIZE_MODULUS)%N ->
                Forall (settled w2) post ->
                exists w3,
                  __multi_thread_dtor (w2, hm') = (Normal tt, (w3, spent hm'))
                  /\ List.filter is_get (logged w2 w3) = map EvGet (units_of post)
                  /\ List.filter is_display (logged w2 w3)
                     = map EvDisplay (failures w2 post
                                      ++ (match failures w2 post with
                                          | [] => []
                                          | _ :: _ => [group_failure (name (multi_base hm))]
                                          end))))
  /\ (forall (w2 : World) (r2 : result unit) (w3 : World) (h3 : __multi_thread F),
        __multi_thread_wait (w2, hm') = (r2, (w3, h3)) ->
        exists first second : list nat,
          List.filter is_get (logged w wm) = map EvGet first
          /\ List.filter is_get (logged w2 w3) = map EvGet second
          /\ units_of (threads hm) = first ++ second ++ units_of (threads h3)).
Proof.
  intros Hs Hrs Hm Hrm.
  destruct (single_wait_consumes w hs rs ws hs' Hs Hrs) as (Hinv & _ & _).
  split; [| split; [| split]].
  - split; [exact Hinv |]. intros k w2 Hat H1 Hk.
    pose proof (single_dtor_eq k w2 hs' Hat H1 Hk) as Hd. rewrite Hinv in Hd.
    split; [exact Hd |].
    unfold unregistered, logged. cbn [log]. rewrite drop_app_length.
    split; now destruct (k =? 1)%N.
  - intros Hagg.
    pose proof (multi_wait_returns w hm rm (wm, hm') Hm Hagg) as Hall.
    assert (Hspent : hm' = spent hm).
    { rewrite (multi_wait_settled w hm Hall) in Hm. cbn zeta in Hm.
      destruct (has_failure w (threads hm)); now injection Hm as _ _ <-. }
    subst hm'. split; [reflexivity |]. split.
    + intros w2. eexists. split; [apply multi_wait_spent |].
      rewrite logged_addlog. repeat split.
    + intros k w2 Hat H1 Hk. eexists.
      split.
      * rewrite (multi_dtor_settled k w2 (spent hm) Hat H1 Hk (settled_spent w2 (threads hm))).
        cbn zeta. now rewrite spent_spent.
      * cbn [spent threads multi_base]. rewrite has_failure_spent, join_log_spent.
        unfold unregistered, logged. cbn [log addlog set_log].
        rewrite <- app_assoc, drop_app_length.
        split; now destruct (k =? 1)%N.
  - intros x ->.
    destruct (multi_wait_foreign_inv w hm x wm hm' Hm)
      as (mid & u & post & Hth & Hmid & Hst & -> & ->).
    exists mid, u, post.
    split; [exact Hth |]. split; [exact Hst |]. split; [reflexivity |].
    split. { rewrite gets_of_stretch, map_app. reflexivity. }
    split.
    + intros w2 Hpost.
      pose proof (multi_wait_settled w2 _ (settled_rest w2 mid post Hpost
                    : Forall (settled w2)
                        (threads (mkMulti (multi_base hm)
                                          (map (fun _ => Invalid) mid ++ Invalid :: post)
                                          (functors hm))))) as Hw.
      cbn zeta in Hw. cbn [threads multi_base] in Hw.
      rewrite has_failure_rest, join_log_rest in Hw. unfold has_failure in Hw.
      destruct (failures w2 post) as [| E Es] eqn:Hfp; eexists; (split; [exact Hw |]).
      * rewrite gets_of_stretch, displays_of_stretch, Hfp. cbn. now rewrite !app_nil_r.
      * rewrite <- (app_nil_r (join_log w2 post)), gets_of_stretch, displays_of_stretch, Hfp.
        cbn. now rewrite !app_nil_r.
    + intros k w2 Hat H1 Hk Hpost.
      pose proof (multi_dtor_settled k w2 _ Hat H1 Hk
                    (settled_rest w2 mid post Hpost
                     : Forall (settled w2)
                         (threads (mkMulti (multi_base hm)
                                           (map (fun _ => Invalid) mid ++ Invalid :: post)
                                           (functors hm))))) as Hd.
      cbn zeta in Hd. cbn [threads multi_base] in Hd.
      rewrite has_failure_rest, join_log_rest in Hd. unfold has_failure in Hd.
      eexists. split; [exact Hd |].
      unfold unregistered, logged. cbn [log addlog set_log].
      rewrite <- app_assoc, drop_app_length.
      cbn [List.filter is_get is_display multi_waiting app].
      rewrite !List.filter_app, joins_of_join_log, displays_of_join_log, map_app.
      destruct (failures w2 post) as [| E Es], (k =? 1)%N; cbn; now rewrite ?app_nil_r.
  - intros w2 r2 w3 h3 Hagain.
    destruct (multi_wait_fetches w hm rm wm hm' Hm) as (first & Hg1 & Hu1 & _).
    destruct (multi_wait_fetches w2 hm' r2 w3 h3 Hagain) as (second & Hg2 & Hu2 & _).
    exists first, second. split; [exact Hg1 |]. split; [exact Hg2 |].
    now rewrite Hu1, Hu2.
Qed.

(** ** The launcher *)

(** C7.  [run] is one entry point whose handle type and constructor are
    fixed by the type of its argument alone.  On a plain functor it is the
    constructor of a single-thread handle, on a request made by
    [multi (functor, n)] it is the constructor of a group handle over the
    functor the request refers to, with the recorded number of replicas.
    The request records that reference and that number, nothing else.  For
    [1 <= n] the group handle so obtained runs [n] units, on copies of the
    referenced functor and on the functor itself. *)
Theorem run_dispatch {F} `{Functor F} (f : ref F) (n : N) (nm : string) (k : N) (w : World) :
  registry_at k w -> (k + 1 < SIZE_MODULUS)%N ->
  type (ref F) = __single_thread
  /\ type (__Multi F) = __multi_thread F
  /\ run f nm = __single_thread_ctor f nm
  /\ run (multi f n) nm = __multi_thread_ctor f n nm
  /\ functor (multi f n) = f
  /\ num (multi f n) = n
  /\ (exists (h : __single_thread) (w' : World),
        run f nm w = (Normal h, w')
        /\ started w w' = [mkUnit (Original (address f)) Running]
        /\ thread h = Valid (length (units w)))
  /\ ((1 <= n)%N -> (n < SIZE_MODULUS)%N ->
      exists (h : __multi_thread F) (w' : World),
        run (multi f n) nm w = (Normal h, w')
        /\ length (threads h) = N.to_nat n
        /\ map target_of (started w w')
           = map Copy (seq 0 (N.to_nat n - 1)) ++ [Original (address f)]).
Proof.
  intros Hat Hk.
  split; [reflexivity |]. split; [reflexivity |]. split; [reflexivity |].
  split; [reflexivity |]. split; [reflexivity |]. split; [reflexivity |].
  split.
  - eexists _, _. split; [exact (single_ctor_eq f nm k w Hat Hk) |].
    rewrite started_app. split; reflexivity.
  - intros H1 Hn.
    pose proof (multi_ctor_eq f n nm k w H1 Hn Hat Hk) as Hctor. cbn zeta in Hctor.
    pose proof (size_pred_count n H1 Hn) as Hcount.
    assert (Hc : N.to_nat (size_pred n) = N.to_nat n - 1) by lia.
    rewrite Hcount, Hc in Hctor.
    eexists _, _. split; [exact Hctor |].
    rewrite started_app, target_of_fresh_units. cbn [threads].
    split; [now rewrite length_map, length_seq | reflexivity].
Qed.

(** C10.  The request made by [multi (functor, n)] carries the reference
    and the count, nothing else.  Each of its three call operators fails
    its assertion whatever it is given, and returns [false] when assertions
    are compiled out.  The dispatcher never calls them: it hands the
    referenced functor and the count to the group constructor.  For
    [1 <= n], the launcher's domain, that starts exactly [n] units, which
    run [execute()] on the handle's [n - 1] copies of the referenced functor
    and, the last one, on the referenced functor itself; the launch leaves
    in the log the registration, the trace line and these [n] launches,
    nothing more. *)
Theorem request_is_a_carrier {F} `{Functor F} {X Y S : Type}
        (f : ref F) (n : N) (nm : string) (x : X) (y : Y) (s : S) (k : N) (w : World) :
  (1 <= n)%N -> (n < SIZE_MODULUS)%N ->
  registry_at k w -> (k + 1 < SIZE_MODULUS)%N ->
  functor (multi f n) = f
  /\ num (multi f n) = n
  /\ call_const false (multi f n) x s = (Abort, s)
  /\ call_mutable false (multi f n) x s = (Abort, s)
  /\ call_pair false (multi f n) x y s = (Abort, s)
  /\ call_const true (multi f n) x s = (Normal false, s)
  /\ call_mutable true (multi f n) x s = (Normal false, s)
  /\ call_pair true (multi f n) x y s = (Normal false, s)
  /\ run (multi f n) nm = __multi_thread_ctor (functor (multi f n)) (num (multi f n)) nm
  /\ exists (h : __multi_thread F) (w' : World),
       run (multi f n) nm w = (Normal h, w')
       /\ functors h = replicate (N.to_nat n - 1) (copy_construct (value f))
       /\ threads h = map Valid (seq (length (units w)) (N.to_nat n))
       /\ started w w'
          = fresh_units (map Copy (seq 0 (N.to_nat n - 1)) ++ [Original (address f)])
       /\ logged w w'
          = (if (k =? 0)%N then [EvBackendCtor] else [])
            ++ [EvRegister; multi_launching n nm]
            ++ launch_events (length (units w))
                             (map Copy (seq 0 (N.to_nat n - 1)) ++ [Original (address f)]).
Proof.
  intros H1 Hn Hat Hk.
  do 9 (split; [reflexivity |]).
  pose proof (multi_ctor_eq f n nm k w H1 Hn Hat Hk) as Hctor. cbn zeta in Hctor.
  pose proof (size_pred_count n H1 Hn) as Hcount.
  assert (Hc : N.to_nat (size_pred n) = N.to_nat n - 1) by lia.
  rewrite Hcount, Hc in Hctor.
  eexists _, _. split; [exact Hctor |].
  rewrite started_app. cbn [functors threads].
  split; [reflexivity |]. split; [reflexivity |]. split; [reflexivity |].
  erewrite logged_app by (cbn [log]; reflexivity). reflexivity.
Qed.

(** ** The life of a single-thread handle *)

(** C8 (as amended).  Launching a single-thread handle registers first and
    only then starts the unit, and it returns at once, the unit still
    running.  The registration ends when the handle object is destroyed,
    not when the unit terminates.

    An explicit [wait()] never touches the registry.  It comes back,
    returning or raising, only once the unit has terminated, and leaves the
    future empty; the destructor of the handle it leaves unregisters at
    once, joining nothing.

    The destructor of the handle that still owns the future joins first:
    while the unit runs it stays suspended, the registry untouched; once
    the unit has terminated well or with an [Exception] it joins and
    unregisters after. *)
Theorem single_launch_lifecycle {F} `{Functor F} (f : ref F) (nm : string) (k : N) (w : World) :
  registry_at k w -> (k + 1 < SIZE_MODULUS)%N ->
  exists (u : nat) (h : __single_thread) (w1 : World),
    __single_thread_ctor f nm w = (Normal h, w1)
    /\ thread h = Valid u
    /\ logged w w1
       = (if (k =? 0)%N then [EvBackendCtor] else [])
         ++ [EvRegister; single_launching nm; EvAsync u (Original (address f))]
    /\ registry_at (k + 1) w1
    /\ unit_status w1 u = Some Running
    /\ (forall (w2 w3 : World) (r : result unit) (h3 : __single_thread),
          __single_thread_wait (w2, h) = (r, (w3, h3)) ->
          backend w3 = backend w2
          /\ List.filter is_unregister (logged w2 w3) = []
          /\ (r = Normal tt \/ (exists t, r = Raise t) ->
              (exists o, unit_status w2 u = Some (Done o))
              /\ thread h3 = Invalid
              /\ forall (k4 : N) (w4 : World),
                   registry_at k4 w4 -> (1 <= k4)%N -> (k4 < SIZE_MODULUS)%N ->
                   exists w5,
                     __single_thread_dtor (w4, h3) = (Normal tt, (w5, h3))
                     /\ logged w4 w5
                        = [EvUnregister] ++ (if (k4 =? 1)%N then [EvBackendDtor] else [])
                     /\ registry_at (k4 - 1) w5))
    /\ (forall (k2 : N) (w2 : World),
          registry_at k2 w2 -> (1 <= k2)%N -> (k2 < SIZE_MODULUS)%N ->
          (unit_status w2 u = Some Running ->
           exists w3,
             __single_thread_dtor (w2, h) = (Blocked, (w3, h))
             /\ backend w3 = backend w2
             /\ List.filter is_unregister (logged w2 w3) = [])
          /\ (forall o, unit_status w2 u = Some (Done o) ->
              (forall x, o <> Threw (Foreign x)) ->
              exists (w3 : World) (said : list event),
                __single_thread_dtor (w2, h) = (Normal tt, (w3, set_thread Invalid h))
                /\ logged w2 w3
                   = [single_waiting nm; EvGet u] ++ said
                     ++ [EvUnregister] ++ (if (k2 =? 1)%N then [EvBackendDtor] else [])
                /\ List.filter is_unregister said = []
                /\ registry_at (k2 - 1) w3)).
Proof.
  intros Hat Hk.
  exists (length (units w)). eexists _, _.
  split; [exact (single_ctor_eq f nm k w Hat Hk) |].
  split; [reflexivity |].
  split. { erewrite logged_app by (cbn [log]; reflexivity). reflexivity. }
  split. { unfold registry_at. cbn [backend].
           destruct (N.eqb_spec (k + 1) 0); [lia | reflexivity]. }
  split. { unfold unit_status. cbn [units].
           rewrite lookup_app_r by lia. now rewrite Nat.sub_diag. }
  set (h := mkSingle (mkBase nm) (Valid (length (units w)))).
  assert (Hspent : forall (k4 : N) (w4 : World),
             registry_at k4 w4 -> (1 <= k4)%N -> (k4 < SIZE_MODULUS)%N ->
             exists w5,
               __single_thread_dtor (w4, set_thread Invalid h)
               = (Normal tt, (w5, set_thread Invalid h))
               /\ logged w4 w5 = [EvUnregister] ++ (if (k4 =? 1)%N then [EvBackendDtor] else [])
               /\ registry_at (k4 - 1) w5).
  { intros k4 w4 Hat4 H1 Hk4.
    pose proof (single_dtor_eq k4 w4 (set_thread Invalid h) Hat4 H1 Hk4) as Hd'.
    cbn zeta in Hd'. cbn [thread set_thread] in Hd'.
    eexists. split; [exact Hd' |].
    split; [| now apply registry_at_unregistered].
    unfold unregistered, logged. cbn [log]. now rewrite drop_app_length. }
  split.
  - intros w2 w3 r h3 Hrun. rewrite single_wait_eq in Hrun. cbn zeta in Hrun.
    cbn [thread h] in Hrun.
    destruct (unit_status w2 (length (units w))) as [[| [| t]] |];
      injection Hrun as <- <- <-; rewrite logged_addlog;
      (split; [reflexivity |]); (split; [reflexivity |]);
      intros [Hr | [t' Hr]]; try discriminate Hr;
      (split; [eexists; reflexivity |]); (split; [reflexivity | exact Hspent]).
  - intros k2 w2 Hat2 H1 Hk2.
    pose proof (single_dtor_eq k2 w2 h Hat2 H1 Hk2) as Hd. cbn zeta in Hd.
    cbn [thread h single_base name] in Hd.
    split.
    + intros Hrun. rewrite Hrun in Hd. eexists. split; [exact Hd |].
      rewrite logged_addlog. split; reflexivity.
    + intros o Ho Hdomain. rewrite Ho in Hd.
      destruct o as [| [E | x]]; [| | now destruct (Hdomain x)].
      * eexists _, [single_completed nm]. split; [exact Hd |].
        split; [| split; [reflexivity | now apply registry_at_unregistered]].
        unfold unregistered, logged. cbn [log addlog set_log].
        rewrite <- app_assoc, drop_app_length. reflexivity.
      * eexists _, [EvDisplay E]. split; [exact Hd |].
        split; [| split; [reflexivity | now apply registry_at_unregistered]].
        unfold unregistered, logged. cbn [log addlog set_log].
        rewrite <- app_assoc, drop_app_length. reflexivity.
Qed.

(** C8, as first stated, fails.  Launch a handle from the initial world and
    let its unit terminate; an explicit [wait()] then joins it and returns.
    The unit has terminated, and the registration is still in place: the
    backend counts one and nothing has been unregistered. *)
Lemma registered_after_termination :
  exists (h h' : __single_thread) (w1 w2 : World),
    run (mkRef 7 tt) "job" initial_world = (Normal h, w1)
    /\ __single_thread_wait (finish 0 Ok w1, h) = (Normal tt, (w2, h'))
    /\ unit_status w2 0 = Some (Done Ok)
    /\ List.filter is_get (log w2) = [EvGet 0]
    /\ backend w2 = live (mkBackend 1 false)
    /\ List.filter is_unregister (log w2) = [].
Proof.
  eexists _, _, _, _.
  split; [vm_compute; reflexivity |].
  split; [vm_compute; reflexivity |].
  repeat split.
Qed.

(** ** A throwable of another type

    The handlers name [Exception] only.  What a worker throws of another
    type goes through the loop of [wait()] at once, past the workers not
    yet joined, and would leave a destructor (see [single_dtor_eq]). *)

Lemma multi_wait_foreign_first {F} (w : World) (base : __thread_base) (u : nat)
      (rest : list future) (fs : list F) (x : string) :
  unit_status w u = Some (Done (Threw (Foreign x))) ->
  __multi_thread_wait (w, mkMulti base (Valid u :: rest) fs)
  = (Raise (Foreign x),
     (addlog [multi_waiting (name base); EvGet u] w, mkMulti base (Invalid :: rest) fs)).
Proof.
  intros Hst. unfold __multi_thread_wait. rewrite bind_self. cbn [snd multi_base threads].
  rewrite (bind_normal _ _ _ _ _ (liftW_DEBUG _ w _)).
  cbn [length seq wait_loop].
  pose proof (wait_body_eq 0 false (addlog [multi_waiting (name base)] w)
                (mkMulti base (Valid u :: rest) fs)) as Hbody.
  change (thread_at 0 (mkMulti base (Valid u :: rest) fs)) with (Valid u) in Hbody.
  cbn iota in Hbody.
  change (unit_status (addlog [multi_waiting (name base)] w) u) with (unit_status w u) in Hbody.
  rewrite Hst, addlog_addlog in Hbody.
  fold (multi_waiting (name base)).
  erewrite bind_raise; [reflexivity |].
  erewrite bind_raise; [reflexivity | exact Hbody].
Qed.

(** ** The statements at sample inputs *)

(** The sample world is what two launches from the initial world lead to,
    once the four units have terminated; the log apart. *)
Lemma sample_world_reached :
  exists (w1 w2 : World),
    run (mkRef 7 tt) "job" initial_world = (Normal sample_single, w1)
    /\ run (multi (mkRef 8 tt) 3) "grp" w1 = (Normal sample_group, w2)
    /\ set_log []
         (finish 3 Ok
            (finish 2 (Threw (MRException boom))
               (finish 1 Ok (finish 0 (Threw (MRException boom)) w2))))
       = sample_world.
Proof.
  eexists _, _. split; [vm_compute; reflexivity |].
  split; vm_compute; reflexivity.
Qed.

(** The world of the failures of another type is reached in the same way:
    the two launches, then unit 0 and the second worker end with
    [std::bad_alloc] and the first worker with a failure, while the third
    worker still runs. *)
Lemma foreign_world_reached :
  exists (w1 w2 : World),
    run (mkRef 7 tt) "job" initial_world = (Normal sample_single, w1)
    /\ run (multi (mkRef 8 tt) 3) "grp" w1 = (Normal sample_group, w2)
    /\ set_log []
         (finish 2 (Threw (Foreign "std::bad_alloc"))
            (finish 1 (Threw (MRException boom))
               (finish 0 (Threw (Foreign "std::bad_alloc")) w2)))
       = foreign_world.
Proof.
  eexists _, _. split; [vm_compute; reflexivity |].
  split; vm_compute; reflexivity.
Qed.

(** [wait()] on the sample group: with one failure among three workers, all
    terminated; and with the second worker ended by a throwable of another
    type and the third still running. *)
Lemma group_wait_observes_all_witness :
  __multi_thread_wait (sample_world, sample_group)
  = (Raise (MRException (group_failure "grp")),
     (addlog [multi_waiting "grp"; EvGet 1; EvGet 2; EvDisplay boom; EvGet 3] sample_world,
      spent sample_group))
  /\ Forall (settled sample_world) (threads sample_group)
  /\ List.filter is_get
       (logged sample_world
               (addlog [multi_waiting "grp"; EvGet 1; EvGet 2; EvDisplay boom; EvGet 3]
                       sample_world))
     = [EvGet 1; EvGet 2; EvGet 3]
  /\ List.filter is_display
       (logged sample_world
               (addlog [multi_waiting "grp"; EvGet 1; EvGet 2; EvDisplay boom; EvGet 3]
                       sample_world))
     = [EvDisplay boom]
  /\ Forall (settled foreign_world) [Valid 1]
  /\ unit_status foreign_world 2 = Some (Done (Threw (Foreign "std::bad_alloc")))
  /\ exists (r : result unit) (w' : World) (h' : __multi_thread unit),
       __multi_thread_wait (foreign_world, sample_group) = (r, (w', h'))
       /\ r = Raise (Foreign "std::bad_alloc")
       /\ threads h' = [Invalid; Invalid; Valid 3]
       /\ List.filter is_get (logged foreign_world w') = [EvGet 1; EvGet 2]
       /\ List.filter is_display (logged foreign_world w') = [EvDisplay boom].
Proof.
  assert (Hrun : __multi_thread_wait (sample_world, sample_group)
    = (Raise (MRException (group_failure "grp")),
       (addlog [multi_waiting "grp"; EvGet 1; EvGet 2; EvDisplay boom; EvGet 3] sample_world,
        spent sample_group))) by (vm_compute; reflexivity).
  destruct (group_wait_observes_all _ _ _ _ _ Hrun) as (Hrest & Hall & _).
  pose proof (Hall (or_intror (ex_intro _ _ eq_refl))) as Hsettled.
  destruct (Hrest Hsettled) as (_ & _ & Hgets & Hdisplays & _).
  split; [exact Hrun |]. split; [exact Hsettled |].
  split; [exact Hgets |]. split; [exact Hdisplays |].
  assert (Hmid : Forall (settled foreign_world) [Valid 1]).
  { constructor; [right; eexists; reflexivity | constructor]. }
  split; [exact Hmid |]. split; [reflexivity |].
  destruct (__multi_thread_wait (foreign_world, sample_group)) as [r [w' h']] eqn:Hcut.
  destruct (group_wait_observes_all _ _ _ _ _ Hcut) as (_ & _ & Hstop & _).
  destruct (Hstop [Valid 1] 2 [Valid 3] eq_refl Hmid) as (_ & Hforeign & _).
  destruct (Hforeign "std::bad_alloc" eq_refl) as (Hr & Hth & Hg & Hd).
  exists r, w', h'. split; [reflexivity |]. split; [exact Hr |]. split; [exact Hth |].
  split; [exact Hg | exact Hd].
Defined.

(** C1 fails on the code.  The handler in the loop of [wait()] names
    [Exception] only.  In the sample group, launched as
    [foreign_world_reached] shows, the first worker has failed, the second
    has ended with a throwable that is not an [Exception], and the third
    still runs.  [wait()] comes back all the same, with that throwable: the
    third worker is not waited for and its future is left valid, nothing is
    displayed for the second worker, and the aggregated failure is not
    raised although two workers have failed. *)
Theorem group_wait_cut_short :
  __multi_thread_wait (foreign_world, sample_group)
  = (Raise (Foreign "std::bad_alloc"),
     (addlog [multi_waiting "grp"; EvGet 1; EvDisplay boom; EvGet 2] foreign_world,
      mkMulti (mkBase "grp") [Invalid; Invalid; Valid 3] [tt; tt]))
  /\ unit_status foreign_world 3 = Some Running
  /\ failures foreign_world (threads sample_group) = [boom]
  /\ Raise (Foreign "std::bad_alloc")
     <> (Raise (MRException (group_failure "grp")) : result unit).
Proof.
  split; [vm_compute; reflexivity |].
  split; [reflexivity |]. split; [reflexivity | discriminate].
Qed.

(** Witness for C3: a group of three from the initial world. *)
Lemma group_launch_witness :
  (1 <= 3)%N /\ (3 < SIZE_MODULUS)%N /\ registry_at 0 initial_world
  /\ exists (h : __multi_thread unit) (w' : World),
       __multi_thread_ctor (mkRef 7 tt) 3 "grp" initial_world = (Normal h, w')
       /\ functors h = [tt; tt]
       /\ length (started initial_world w') = 3
       /\ map target_of (started initial_world w') = [Copy 0; Copy 1; Original 7].
Proof.
  assert (H1 : (1 <= 3)%N) by lia.
  assert (H3 : (3 < SIZE_MODULUS)%N) by (vm_compute; reflexivity).
  assert (Hk : (0 + 1 < SIZE_MODULUS)%N) by (vm_compute; reflexivity).
  destruct (group_launch (mkRef 7 tt) 3 "grp" 0 initial_world H1 H3 eq_refl Hk)
    as (h & w' & Hctor & Hcopies & _ & Hlen & Htargets & _).
  split; [exact H1 |]. split; [exact H3 |]. split; [reflexivity |].
  exists h, w'. split; [exact Hctor |]. split; [exact Hcopies |].
  split; [exact Hlen | exact Htargets].
Defined.

(** Witness for C4: the sample handle, whose unit ended with a failure. *)
Lemma single_wait_joins_witness :
  thread sample_single = Valid 0
  /\ unit_status sample_world 0 = Some (Done (Threw (MRException boom)))
  /\ __single_thread_wait (sample_world, sample_single)
     = (Raise (MRException boom),
        (addlog [single_waiting "job"; EvGet 0] sample_world,
         set_thread Invalid sample_single)).
Proof.
  split; [reflexivity |]. split; [reflexivity |].
  exact (proj1 (single_wait_joins sample_world sample_single 0
                  (Done (Threw (MRException boom))) eq_refl eq_refl)).
Defined.

(** Both sample handles destroyed with their results unfetched, in the
    world where every unit has terminated well or with an [Exception], and
    in the world where two have ended otherwise. *)
Lemma teardown_swallows_witness :
  registry_at 2 sample_world
  /\ Forall (settled sample_world) (threads sample_group)
  /\ __single_thread_dtor (sample_world, sample_single)
     = (Normal tt,
        (unregistered 2 (addlog [single_waiting "job"; EvGet 0; EvDisplay boom] sample_world),
         set_thread Invalid sample_single))
  /\ (exists w',
        __multi_thread_dtor (sample_world, sample_group) = (Normal tt, (w', spent sample_group))
        /\ registry_at 1 w'
        /\ List.filter is_display (logged sample_world w')
           = [EvDisplay boom; EvDisplay (group_failure "grp")])
  /\ registry_at 2 foreign_world
  /\ Forall (settled foreign_world) [Valid 1]
  /\ __single_thread_dtor (foreign_world, sample_single)
     = (Abort,
        (addlog [single_waiting "job"; EvGet 0] foreign_world, set_thread Invalid sample_single))
  /\ exists (w' : World) (hm' : __multi_thread unit),
       __multi_thread_dtor (foreign_world, sample_group) = (Abort, (w', hm'))
       /\ threads hm' = [Invalid; Invalid; Valid 3]
       /\ backend w' = backend foreign_world
       /\ List.filter is_display (logged foreign_world w') = [EvDisplay boom].
Proof.
  assert (Hall : Forall (settled sample_world) (threads sample_group)).
  { repeat (constructor; [first [left; reflexivity | right; eexists; reflexivity] |]).
    constructor. }
  assert (Hmid : Forall (settled foreign_world) [Valid 1]).
  { constructor; [right; eexists; reflexivity | constructor]. }
  assert (H1 : (1 <= 2)%N) by lia.
  assert (H2 : (2 < SIZE_MODULUS)%N) by (vm_compute; reflexivity).
  destruct (teardown_swallows 2 sample_world sample_single 0 sample_group
              eq_refl H1 H2 eq_refl) as (Hsingle & Hgroup & _).
  destruct (Hgroup Hall) as (w' & Hdtor & Hreg & _ & Hdisplays).
  destruct (teardown_swallows 2 foreign_world sample_single 0 sample_group
              eq_refl H1 H2 eq_refl) as (Hsingle' & _ & Hgroup' & _).
  destruct (Hgroup' [Valid 1] 2 [Valid 3] "std::bad_alloc" eq_refl Hmid eq_refl)
    as (w2 & hm2 & Hdtor2 & Hth2 & Hb2 & _ & _ & Hdisplays2).
  split; [reflexivity |]. split; [exact Hall |].
  split; [exact (Hsingle (Done (Threw (MRException boom))) eq_refl) |].
  split. { exists w'. split; [exact Hdtor |]. split; [exact Hreg | exact Hdisplays]. }
  split; [reflexivity |]. split; [exact Hmid |].
  split; [exact (Hsingle' (Done (Threw (Foreign "std::bad_alloc"))) eq_refl) |].
  exists w2, hm2. split; [exact Hdtor2 |]. split; [exact Hth2 |].
  split; [exact Hb2 | exact Hdisplays2].
Defined.

(** C5 fails on the code.  The handlers of both destructors name
    [Exception] only.  Unit 0, which the sample single-thread handle owns,
    and the second worker of the sample group have ended with a throwable
    that is not an [Exception].  Neither destructor catches it: both end in
    [std::terminate] on joining that unit, nothing is displayed for it, the
    third worker is not joined, and neither handle unregisters. *)
Theorem teardown_terminates :
  __single_thread_dtor (foreign_world, sample_single)
  = (Abort,
     (addlog [single_waiting "job"; EvGet 0] foreign_world, set_thread Invalid sample_single))
  /\ __multi_thread_dtor (foreign_world, sample_group)
     = (Abort,
        (addlog [multi_waiting "grp"; EvGet 1; EvDisplay boom; EvGet 2] foreign_world,
         mkMulti (mkBase "grp") [Invalid; Invalid; Valid 3] [tt; tt]))
  /\ unit_status foreign_world 0 = Some (Done (Threw (Foreign "std::bad_alloc")))
  /\ unit_status foreign_world 2 = Some (Done (Threw (Foreign "std::bad_alloc"))).
Proof.
  split; [vm_compute; reflexivity |].
  split; [vm_compute; reflexivity |].
  split; reflexivity.
Qed.

(** Witness for C7: both forms of [run] from the initial world. *)
Lemma run_dispatch_witness :
  registry_at 0 initial_world
  /\ run (mkRef 7 tt) "grp" = __single_thread_ctor (mkRef 7 tt) "grp"
  /\ run (multi (mkRef 7 tt) 3) "grp" = __multi_thread_ctor (mkRef 7 tt) 3 "grp"
  /\ exists (h : __multi_thread unit) (w' : World),
       run (multi (mkRef 7 tt) 3) "grp" initial_world = (Normal h, w')
       /\ length (threads h) = 3
       /\ map target_of (started initial_world w') = [Copy 0; Copy 1; Original 7].
Proof.
  assert (Hk : (0 + 1 < SIZE_MODULUS)%N) by (vm_compute; reflexivity).
  destruct (run_dispatch (mkRef 7 tt) 3 "grp" 0 initial_world eq_refl Hk)
    as (_ & _ & Hsingle & Hmulti & _ & _ & _ & Hgroup).
  destruct (Hgroup ltac:(lia) ltac:(vm_compute; reflexivity)) as (h & w' & Hrun & Hlen & Htg).
  split; [reflexivity |]. split; [exact Hsingle |]. split; [exact Hmulti |].
  exists h, w'. split; [exact Hrun |]. split; [exact Hlen | exact Htg].
Defined.

(** Witness for C8: a launch from the initial world, the unit then ending
    well, and the handle destroyed, without and after an explicit
    [wait()]. *)
Lemma single_launch_lifecycle_witness :
  registry_at 0 initial_world
  /\ exists (u : nat) (h : __single_thread) (w1 : World),
       __single_thread_ctor (mkRef 7 tt) "job" initial_world = (Normal h, w1)
       /\ thread h = Valid u
       /\ logged initial_world w1
          = [EvBackendCtor; EvRegister; single_launching "job"; EvAsync u (Original 7)]
       /\ unit_status w1 u = Some Running
       /\ unit_status (finish u Ok w1) u = Some (Done Ok)
       /\ (exists (w3 : World) (said : list event),
             __single_thread_dtor (finish u Ok w1, h) = (Normal tt, (w3, set_thread Invalid h))
             /\ logged (finish u Ok w1) w3
                = [single_waiting "job"; EvGet u] ++ said ++ [EvUnregister; EvBackendDtor]
             /\ registry_at 0 w3)
       /\ exists (w3 w5 : World) (h3 : __single_thread),
            __single_thread_wait (finish u Ok w1, h) = (Normal tt, (w3, h3))
            /\ registry_at 1 w3
            /\ __single_thread_dtor (w3, h3) = (Normal tt, (w5, h3))
            /\ logged w3 w5 = [EvUnregister; EvBackendDtor]
            /\ registry_at 0 w5.
Proof.
  assert (Hk : (0 + 1 < SIZE_MODULUS)%N) by (vm_compute; reflexivity).
  destruct (single_launch_lifecycle (mkRef 7 tt) "job" 0 initial_world eq_refl Hk)
    as (u & h & w1 & Hctor & Hth & Hlog & Hreg & Hrunning & Hwait & Hdtor).
  pose proof (unit_status_finish w1 u Ok Running Hrunning) as Hdone.
  destruct (Hdtor 1%N (finish u Ok w1) Hreg ltac:(lia) ltac:(vm_compute; reflexivity))
    as (_ & Hjoin).
  assert (Hok : forall x, Ok <> Threw (Foreign x)) by (intros x Hx; discriminate Hx).
  destruct (Hjoin Ok Hdone Hok) as (w3 & said & Hd & Hl & _ & Hreg3).
  split; [reflexivity |].
  exists u, h, w1. split; [exact Hctor |]. split; [exact Hth |].
  split; [exact Hlog |]. split; [exact Hrunning |]. split; [exact Hdone |].
  split. { exists w3, said. split; [exact Hd |]. split; [exact Hl | exact Hreg3]. }
  assert (Hw : __single_thread_wait (finish u Ok w1, h)
               = (Normal tt,
                  (addlog [single_waiting (name (single_base h)); EvGet u;
                           single_completed (name (single_base h))] (finish u Ok w1),
                   set_thread Invalid h))).
  { rewrite single_wait_eq, Hth, Hdone. reflexivity. }
  destruct (Hwait _ _ _ _ Hw) as (Hb & _ & Hafter).
  destruct (Hafter (or_introl eq_refl)) as (_ & _ & Hspent).
  assert (Hreg4 : registry_at 1
            (addlog [single_waiting (name (single_base h)); EvGet u;
                     single_completed (name (single_base h))] (finish u Ok w1)))
    by exact Hreg.
  destruct (Hspent 1%N _ Hreg4 ltac:(lia) ltac:(vm_compute; reflexivity))
    as (w5 & Hd5 & Hl5 & Hreg5).
  eexists _, w5, _. split; [exact Hw |]. split; [exact Hreg4 |].
  split; [exact Hd5 |]. split; [exact Hl5 | exact Hreg5].
Defined.

(** Both sample handles, waited on and then joined again, in the world
    where every unit has terminated well or with an [Exception]; and in the
    world where the second worker has ended otherwise, the third failing
    after the first [wait()]. *)
Lemma outcome_consumed_once_witness :
  __single_thread_wait (sample_world, sample_single)
  = (Raise (MRException boom),
     (addlog [single_waiting "job"; EvGet 0] sample_world, set_thread Invalid sample_single))
  /\ __multi_thread_wait (sample_world, sample_group)
     = (Raise (MRException (group_failure "grp")),
        (addlog [multi_waiting "grp"; EvGet 1; EvGet 2; EvDisplay boom; EvGet 3] sample_world,
         spent sample_group))
  /\ __single_thread_dtor (sample_world, set_thread Invalid sample_single)
     = (Normal tt, (unregistered 2 sample_world, set_thread Invalid sample_single))
  /\ (exists w3,
        __multi_thread_wait (sample_world, spent sample_group)
        = (Normal tt, (w3, spent sample_group))
        /\ List.filter is_get (logged sample_world w3) = []
        /\ List.filter is_display (logged sample_world w3) = [])
  /\ __multi_thread_wait (foreign_world, sample_group)
     = (Raise (Foreign "std::bad_alloc"),
        (addlog [multi_waiting "grp"; EvGet 1; EvDisplay boom; EvGet 2] foreign_world,
         mkMulti (mkBase "grp") [Invalid; Invalid; Valid 3] [tt; tt]))
  /\ exists w3,
       __multi_thread_wait
         (finish 3 (Threw (MRException boom))
                 (addlog [multi_waiting "grp"; EvGet 1; EvDisplay boom; EvGet 2] foreign_world),
          mkMulti (mkBase "grp") [Invalid; Invalid; Valid 3] [tt; tt])
       = (Raise (MRException (group_failure "grp")), (w3, spent sample_group))
       /\ List.filter is_get
            (logged (finish 3 (Threw (MRException boom))
                            (addlog [multi_waiting "grp"; EvGet 1; EvDisplay boom; EvGet 2]
                                    foreign_world)) w3)
          = [EvGet 3]
       /\ List.filter is_display
            (logged (finish 3 (Threw (MRException boom))
                            (addlog [multi_waiting "grp"; EvGet 1; EvDisplay boom; EvGet 2]
                                    foreign_world)) w3)
          = [EvDisplay boom].
Proof.
  assert (Hs : __single_thread_wait (sample_world, sample_single)
    = (Raise (MRException boom),
       (addlog [single_waiting "job"; EvGet 0] sample_world, set_thread Invalid sample_single)))
    by (vm_compute; reflexivity).
  assert (Hm : __multi_thread_wait (sample_world, sample_group)
    = (Raise (MRException (group_failure "grp")),
       (addlog [multi_waiting "grp"; EvGet 1; EvGet 2; EvDisplay boom; EvGet 3] sample_world,
        spent sample_group))) by (vm_compute; reflexivity).
  destruct (outcome_consumed_once sample_world _ _ _ _ _ _ _ _
              Hs (or_intror (ex_intro _ _ eq_refl))
              Hm (or_intror (ex_intro _ _ eq_refl))) as ((_ & Hdtor) & Hagg & _).
  destruct (Hdtor 2%N sample_world eq_refl ltac:(lia) ltac:(vm_compute; reflexivity))
    as (Hd & _).
  destruct (Hagg (or_intror (ex_intro _ _ eq_refl))) as (_ & Hagain & _).
  destruct (Hagain sample_world) as (w3 & Hw & _ & Hgets & Hdisplays).
  split; [exact Hs |]. split; [exact Hm |]. split; [exact Hd |].
  split. { exists w3. split; [exact Hw |]. split; [exact Hgets | exact Hdisplays]. }
  assert (Hs' : __single_thread_wait (foreign_world, sample_single)
    = (Raise (Foreign "std::bad_alloc"),
       (addlog [single_waiting "job"; EvGet 0] foreign_world, set_thread Invalid sample_single)))
    by (vm_compute; reflexivity).
  assert (Hm' : __multi_thread_wait (foreign_world, sample_group)
    = (Raise (Foreign "std::bad_alloc"),
       (addlog [multi_waiting "grp"; EvGet 1; EvDisplay boom; EvGet 2] foreign_world,
        mkMulti (mkBase "grp") [Invalid; Invalid; Valid 3] [tt; tt])))
    by (vm_compute; reflexivity).
  split; [exact Hm' |].
  destruct (outcome_consumed_once foreign_world _ _ _ _ _ _ _ _
              Hs' (or_intror (ex_intro _ _ eq_refl))
              Hm' (or_intror (ex_intro _ _ eq_refl))) as (_ & _ & Hcut & _).
  destruct (Hcut "std::bad_alloc" eq_refl) as (mid & u & post & Hth & Hst & Hth' & _ & Hnext & _).
  assert (Hpost : post = [Valid 3]).
  { cbn [threads sample_group] in Hth, Hth'.
    destruct mid as [| a [| b [| c mid]]]; cbn in Hth, Hth'.
    - injection Hth as <- _. discriminate.
    - now injection Hth' as <-.
    - injection Hth as _ _ <- _. discriminate.
    - injection Hth as _ _ _ Hnil. now destruct mid. }
  subst post.
  assert (Hsettled : Forall (settled (finish 3 (Threw (MRException boom))
                       (addlog [multi_waiting "grp"; EvGet 1; EvDisplay boom; EvGet 2]
                               foreign_world))) [Valid 3]).
  { constructor; [right; eexists; reflexivity | constructor]. }
  destruct (Hnext _ Hsettled) as (w4 & Hw4 & Hg4 & Hd4).
  exists w4. split; [exact Hw4 |]. split; [exact Hg4 | exact Hd4].
Defined.

(** C9 fails on the code.  The second worker of the sample group has ended
    with a throwable that is not an [Exception]; an explicit [wait()]
    raises it from inside the loop, the third worker still running and its
    future untouched.  That worker then fails.  A second [wait()] on the
    handle is no idle call: it joins the third worker, displays its failure
    and raises the aggregated failure. *)
Theorem second_wait_reports :
  __multi_thread_wait (foreign_world, sample_group)
  = (Raise (Foreign "std::bad_alloc"),
     (addlog [multi_waiting "grp"; EvGet 1; EvDisplay boom; EvGet 2] foreign_world,
      mkMulti (mkBase "grp") [Invalid; Invalid; Valid 3] [tt; tt]))
  /\ __multi_thread_wait
       (finish 3 (Threw (MRException boom))
               (addlog [multi_waiting "grp"; EvGet 1; EvDisplay boom; EvGet 2] foreign_world),
        mkMulti (mkBase "grp") [Invalid; Invalid; Valid 3] [tt; tt])
     = (Raise (MRException (group_failure "grp")),
        (addlog [multi_waiting "grp"; EvGet 3; EvDisplay boom]
                (finish 3 (Threw (MRException boom))
                        (addlog [multi_waiting "grp"; EvGet 1; EvDisplay boom; EvGet 2]
                                foreign_world)),
         spent sample_group)).
Proof. split; vm_compute; reflexivity. Qed.

(** Witness for C10: a request for three replicas, called and dispatched. *)
Lemma request_is_a_carrier_witness :
  (1 <= 3)%N /\ (3 < SIZE_MODULUS)%N
  /\ registry_at 0 initial_world
  /\ call_const false (multi (mkRef 7 tt) 3) 5 initial_world = (Abort, initial_world)
  /\ call_pair true (multi (mkRef 7 tt) 3) 5 true initial_world = (Normal false, initial_world)
  /\ exists (h : __multi_thread unit) (w' : World),
       run (multi (mkRef 7 tt) 3) "grp" initial_world = (Normal h, w')
       /\ functors h = [tt; tt]
       /\ started initial_world w'
          = [mkUnit (Copy 0) Running; mkUnit (Copy 1) Running; mkUnit (Original 7) Running]
       /\ logged initial_world w'
          = [EvBackendCtor; EvRegister; multi_launching 3 "grp";
             EvAsync 0 (Copy 0); EvAsync 1 (Copy 1); EvAsync 2 (Original 7)].
Proof.
  assert (H1 : (1 <= 3)%N) by lia.
  assert (H3 : (3 < SIZE_MODULUS)%N) by (vm_compute; reflexivity).
  assert (Hk : (0 + 1 < SIZE_MODULUS)%N) by (vm_compute; reflexivity).
  destruct (request_is_a_carrier (mkRef 7 tt) 3 "grp" 5 true initial_world 0 initial_world
              H1 H3 eq_refl Hk)
    as (_ & _ & Hconst & _ & _ & _ & _ & Hpair & _ & h & w' & Hrun & Hcopies & _
        & Hstarted & Hlog).
  split; [exact H1 |]. split; [exact H3 |].
  split; [reflexivity |]. split; [exact Hconst |]. split; [exact Hpair |].
  exists h, w'. split; [exact Hrun |]. split; [exact Hcopies |].
  split; [exact Hstarted | exact Hlog].
Defined.

(** * Further properties of the thread primitives *)

(** [wait()] on a group is suspended at the first worker that still runs.
    The workers before it, all terminated, have been joined by then and
    their failures displayed; the futures from the running worker on are
    untouched. *)
Theorem group_wait_suspended {F} (w : World) (base : __thread_base) (fs : list F)
        (mid post : list future) (u : nat) :
  Forall (settled w) mid ->
  unit_status w u = Some Running ->
  __multi_thread_wait (w, mkMulti base (mid ++ Valid u :: post) fs)
  = (Blocked,
     (addlog (multi_waiting (name base) :: join_log w mid) w,
      mkMulti base (map (fun _ => Invalid) mid ++ Valid u :: post) fs)).
Proof.
  intros Hall Hrun. rewrite (multi_wait_upto w base fs mid post u Hall).
  pose proof (wait_body_at (addlog (multi_waiting (name base) :: join_log w mid) w)
                base fs (map (fun _ => Invalid) mid) post u (has_failure w mid)) as Hbody.
  rewrite length_map in Hbody.
  change (unit_status (addlog (multi_waiting (name base) :: join_log w mid) w) u)
    with (unit_status w u) in Hbody.
  rewrite Hrun in Hbody.
  erewrite bind_blocked; [reflexivity |].
  erewrite bind_blocked; [reflexivity | exact Hbody].
Qed.

(** A worker that ended with a throwable that is not an [Exception].  When
    [wait()] reaches it, the throwable leaves [wait()] at once: the workers
    after it are not joined and their futures stay valid; the failures of
    the workers before it have been displayed, but the aggregated failure
    is not raised.  The destructor, which catches [Exception] only, ends in
    [std::terminate] at the same point.  A later [wait()] joins the
    remaining workers and answers for their failures alone. *)
Theorem group_wait_foreign {F} (w : World) (base : __thread_base) (fs : list F)
        (mid post : list future) (u : nat) (x : string) :
  Forall (settled w) mid ->
  unit_status w u = Some (Done (Threw (Foreign x))) ->
  let w1 := addlog (multi_waiting (name base) :: join_log w mid ++ [EvGet u]) w in
  let h1 := mkMulti base (map (fun _ => Invalid) mid ++ Invalid :: post) fs in
  __multi_thread_wait (w, mkMulti base (mid ++ Valid u :: post) fs) = (Raise (Foreign x), (w1, h1))
  /\ __multi_thread_dtor (w, mkMulti base (mid ++ Valid u :: post) fs) = (Abort, (w1, h1))
  /\ (forall w2 : World,
        Forall (settled w2) post ->
        exists w3,
          __multi_thread_wait (w2, h1)
          = (match failures w2 post with
             | [] => Normal tt
             | _ :: _ => Raise (MRException (group_failure (name base)))
             end,
             (w3, spent h1))
          /\ List.filter is_get (logged w2 w3) = map EvGet (units_of post)
          /\ List.filter is_display (logged w2 w3) = map EvDisplay (failures w2 post)).
Proof.
  intros Hall Hst w1 h1.
  assert (Hwait : __multi_thread_wait (w, mkMulti base (mid ++ Valid u :: post) fs)
                  = (Raise (Foreign x), (w1, h1))).
  { rewrite (multi_wait_upto w base fs mid post u Hall).
    pose proof (wait_body_at (addlog (multi_waiting (name base) :: join_log w mid) w)
                  base fs (map (fun _ => Invalid) mid) post u (has_failure w mid)) as Hbody.
    rewrite length_map in Hbody.
    change (unit_status (addlog (multi_waiting (name base) :: join_log w mid) w) u)
      with (unit_status w u) in Hbody.
    rewrite Hst, addlog_addlog in Hbody.
    erewrite bind_raise; [reflexivity |].
    erewrite bind_raise; [reflexivity | exact Hbody]. }
  split; [exact Hwait |]. split.
  - unfold __multi_thread_dtor, noexcept.
    erewrite bind_raise; [reflexivity |].
    unfold try_catch. rewrite Hwait. reflexivity.
  - intros w2 Hpost.
    assert (Hall1 : Forall (settled w2) (threads h1)).
    { cbn [h1 threads]. apply Forall_app. split; [apply settled_spent |].
      constructor; [exact I | exact Hpost]. }
    pose proof (multi_wait_settled w2 h1 Hall1) as Hw. cbn zeta in Hw.
    assert (Hf : failures w2 (threads h1) = failures w2 post).
    { cbn [h1 threads]. rewrite failures_app, failures_spent. reflexivity. }
    assert (Hj : join_log w2 (threads h1) = join_log w2 post).
    { cbn [h1 threads]. rewrite join_log_app, join_log_spent. reflexivity. }
    unfold has_failure in Hw. rewrite Hf, Hj in Hw. cbn [multi_base h1] in Hw.
    destruct (failures w2 post) as [| E Es] eqn:Hfp; eexists; (split; [exact Hw |]);
      rewrite logged_addlog.
    + cbn [List.filter is_get is_display multi_waiting].
      rewrite !List.filter_app, joins_of_join_log, displays_of_join_log, Hfp.
      cbn. rewrite !app_nil_r. split; reflexivity.
    + cbn [List.filter is_get is_display multi_waiting].
      rewrite joins_of_join_log, displays_of_join_log, Hfp. split; reflexivity.
Qed.

(** ** An unregistration too many *)

(** A sequence of calls with an unregistration too many.  Up to the first
    unregistration that finds no registration live the calls run as usual
    and leave no backend; that unregistration dereferences the null pointer,
    and the behaviour of the whole sequence is undefined from there. *)
Theorem unregistration_in_excess (ops : list op) :
  forall (k : N) (w : World),
    registry_at k w ->
    live_after k ops = None ->
    (peak k ops < SIZE_MODULUS)%N ->
    exists (ops1 ops2 : list op) (w1 : World),
      ops = ops1 ++ Unreg :: ops2
      /\ live_after k ops1 = Some 0%N
      /\ run_ops ops1 w = (Normal tt, w1)
      /\ backend w1 = nullptr
      /\ run_ops ops w = (Undefined, w1).
Proof.
  induction ops as [| o rest IH]; intros k w Hat Hlive Hpeak; [discriminate |].
  destruct o; cbn [live_after peak] in Hlive, Hpeak.
  - pose proof (peak_ge rest (k + 1)) as Hge.
    assert (Hk : (k + 1 < SIZE_MODULUS)%N) by lia.
    pose proof (register_thread_at k w Hat Hk) as Hreg.
    assert (Hat1 : registry_at (k + 1) (registered k w)).
    { unfold registry_at, registered. cbn [backend].
      destruct (N.eqb_spec (k + 1) 0); [lia | reflexivity]. }
    destruct (IH _ _ Hat1 Hlive ltac:(lia)) as (ops1 & ops2 & w1 & -> & Hl1 & Hrun1 & Hnull & Hrun).
    exists (Reg :: ops1), ops2, w1.
    split; [reflexivity |]. split; [exact Hl1 |].
    split. { cbn [run_ops run_op]. now rewrite (bind_normal _ _ _ _ _ Hreg). }
    split; [exact Hnull |].
    cbn [app run_ops run_op]. now rewrite (bind_normal _ _ _ _ _ Hreg).
  - destruct (N.eqb_spec k 0) as [-> | Hnz].
    + exists [], rest, w. split; [reflexivity |]. split; [reflexivity |].
      split; [reflexivity |]. split; [exact Hat |].
      cbn [run_ops run_op].
      now rewrite (bind_undefined _ _ _ _ (unregister_thread_null w Hat)).
    + pose proof (peak_ge rest (k - 1)) as Hge.
      assert (Hk : (k < SIZE_MODULUS)%N) by lia.
      pose proof (unregister_thread_at k w Hat ltac:(lia) Hk) as Hun.
      assert (Hat1 : registry_at (k - 1) (unregistered k w))
        by (apply registry_at_unregistered; lia).
      destruct (IH _ _ Hat1 Hlive ltac:(lia)) as (ops1 & ops2 & w1 & -> & Hl1 & Hrun1 & Hnull & Hrun).
      exists (Unreg :: ops1), ops2, w1.
      split; [reflexivity |].
      split. { cbn [live_after]. destruct (N.eqb_spec k 0); [lia | exact Hl1]. }
      split. { cbn [run_ops run_op]. now rewrite (bind_normal _ _ _ _ _ Hun). }
      split; [exact Hnull |].
      cbn [app run_ops run_op]. now rewrite (bind_normal _ _ _ _ _ Hun).
Qed.

(** ** The whole life of a group handle *)

(** A group handle from launch to destruction.  Whatever the number of
    workers, the launch makes one registration.  Once every worker has
    terminated well or with an [Exception], the destructor joins each worker
    exactly once, displays the failures and the aggregate, returns, and
    leaves the registry as the launch found it: the backend is torn down if
    and only if the launch had constructed it.  If instead the first worker
    to have ended otherwise ended with a throwable of another type, the
    destructor ends in [std::terminate] on joining it, and the registration
    the launch made is never released. *)
Theorem group_lifecycle {F} `{Functor F} (f : ref F) (n : N) (nm : string) (k : N) (w : World) :
  (1 <= n)%N -> (n < SIZE_MODULUS)%N ->
  registry_at k w -> (k + 1 < SIZE_MODULUS)%N ->
  exists (h : __multi_thread F) (w1 : World),
    __multi_thread_ctor f n nm w = (Normal h, w1)
    /\ registry_at (k + 1) w1
    /\ threads h = map Valid (seq (length (units w)) (N.to_nat n))
    /\ (forall w2 : World,
          backend w2 = backend w1 ->
          Forall (settled w2) (threads h) ->
          exists w3,
            __multi_thread_dtor (w2, h) = (Normal tt, (w3, spent h))
            /\ backend w3 = backend w
            /\ List.filter is_get (logged w2 w3)
               = map EvGet (seq (length (units w)) (N.to_nat n))
            /\ List.filter is_display (logged w2 w3)
               = map EvDisplay (failures w2 (threads h)
                                ++ (if has_failure w2 (threads h)
                                    then [group_failure nm] else []))
            /\ teardowns (logged w2 w3) = (if (k =? 0)%N then 1 else 0))
    /\ (forall (w2 : World) (mid : list future) (v : nat) (post : list future) (x : string),
          backend w2 = backend w1 ->
          threads h = mid ++ Valid v :: post ->
          Forall (settled w2) mid ->
          unit_status w2 v = Some (Done (Threw (Foreign x))) ->
          exists (w3 : World) (h3 : __multi_thread F),
            __multi_thread_dtor (w2, h) = (Abort, (w3, h3))
            /\ threads h3 = map (fun _ => Invalid) mid ++ Invalid :: post
            /\ registry_at (k + 1) w3
            /\ List.filter is_unregister (logged w2 w3) = []
            /\ List.filter is_get (logged w2 w3) = map EvGet (units_of mid ++ [v])
            /\ List.filter is_display (logged w2 w3) = map EvDisplay (failures w2 mid)).
Proof.
  intros H1 Hn Hat Hk.
  pose proof (multi_ctor_eq f n nm k w H1 Hn Hat Hk) as Hctor. cbn zeta in Hctor.
  rewrite (size_pred_count n H1 Hn) in Hctor.
  eexists _, _. split; [exact Hctor |].
  assert (Hat1 : forall w2 : World,
             backend w2 = live (mkBackend (k + 1) false) -> registry_at (k + 1) w2).
  { intros w2 Hb. unfold registry_at. rewrite Hb.
    destruct (N.eqb_spec (k + 1) 0); [lia | reflexivity]. }
  split; [now apply Hat1 |].
  split; [reflexivity |].
  cbn [backend threads]. split.
  - intros w2 Hb Hall.
    pose proof (Hat1 w2 Hb) as Hat2.
    eexists. split.
    { apply (multi_dtor_settled (k + 1) w2 _ Hat2); [lia | lia | exact Hall]. }
    cbn zeta. cbn [threads multi_base name].
    split.
    { unfold unregistered. cbn [backend]. unfold registry_at in Hat. rewrite Hat.
      replace (k + 1 - 1)%N with k by lia.
      destruct (N.eqb_spec (k + 1) 1) as [E1 | E1], (N.eqb_spec k 0) as [E0 | E0];
        try reflexivity; lia. }
    unfold unregistered, logged. cbn [log addlog set_log].
    rewrite <- app_assoc, drop_app_length.
    split; [| split].
    + cbn [List.filter is_get multi_waiting app].
      rewrite !List.filter_app, joins_of_join_log, units_of_valid.
      destruct (has_failure w2 _), (k + 1 =? 1)%N; cbn; now rewrite !app_nil_r.
    + cbn [List.filter is_display multi_waiting app].
      rewrite !List.filter_app, displays_of_join_log, map_app.
      destruct (has_failure w2 _), (k + 1 =? 1)%N; cbn; now rewrite ?app_nil_r.
    + unfold teardowns. cbn [List.filter is_teardown multi_waiting app].
      rewrite !List.filter_app.
      assert (Hj : List.filter is_teardown (join_log w2
                 (map Valid (seq (length (units w)) (N.to_nat n)))) = []).
      { generalize (map Valid (seq (length (units w)) (N.to_nat n))). intros l.
        induction l as [| [| u] l IH]; [reflexivity | exact IH |].
        rewrite join_log_cons, List.filter_app, IH. cbn [join_events].
        destruct (failure_of w2 (Valid u)); reflexivity. }
      rewrite Hj.
      destruct (N.eqb_spec (k + 1) 1) as [E1 | E1], (N.eqb_spec k 0) as [E0 | E0];
        try lia; destruct (has_failure w2 _); reflexivity.
  - intros w2 mid v post x Hb Hsplit Hmid Hst. rewrite Hsplit.
    pose proof (multi_dtor_stops w2 (mkBase nm)
                  (replicate (N.to_nat (size_pred n)) (copy_construct (value f)))
                  mid post v Hmid) as Hd.
    cbn zeta in Hd. rewrite Hst in Hd.
    eexists _, _. split; [exact Hd |].
    split; [reflexivity |].
    split; [apply registry_at_addlog; now apply Hat1 |].
    split.
    { rewrite logged_addlog. cbn [List.filter is_unregister multi_waiting].
      rewrite List.filter_app, unregisters_of_join_log. reflexivity. }
    rewrite gets_of_stretch, displays_of_stretch, map_app. cbn.
    now rewrite !app_nil_r.
Qed.

(** ** Moved handles *)

Lemma single_dtor_null (w : World) (h : __single_thread) (u : nat) :
  backend w = nullptr ->
  thread h = Valid u ->
  unit_status w u = Some (Done Ok) ->
  __single_thread_dtor (w, h)
  = (Undefined,
     (addlog [single_waiting (name (single_base h)); EvGet u;
              single_completed (name (single_base h))] w,
      set_thread Invalid h)).
Proof.
  intros Hnull Hth Hst. unfold __single_thread_dtor, noexcept.
  rewrite bind_self. cbn [snd]. rewrite Hth. cbn [valid].
  pose proof (single_try_wait_eq w h) as Hw. rewrite Hth, Hst in Hw. cbn zeta in Hw.
  rewrite (bind_normal _ _ _ _ _ Hw).
  rewrite bind_self. cbn [snd set_thread thread].
  rewrite (bind_normal (liftW (future_dtor Invalid)) _ _ _ tt eq_refl).
  unfold liftW. cbn [fst snd]. unfold __thread_base_dtor.
  rewrite (unregister_thread_null (addlog _ w) Hnull). reflexivity.
Qed.

(** Moving a single-thread handle hands the future over and empties the
    source, and makes no registration for the new object.  Both objects
    unregister when destroyed, the source without joining anything: one
    registration is paid off twice.  When the handle held the last
    registration, destroying the source tears the backend down, and the
    destructor of the new object, after joining its unit, dereferences the
    null pointer. *)
Theorem moved_handle_unregisters_twice (k : N) (w : World) (h : __single_thread) (u : nat) :
  registry_at k w -> (1 <= k)%N -> (k < SIZE_MODULUS)%N ->
  thread h = Valid u ->
  unit_status w u = Some (Done Ok) ->
  exists h' : __single_thread,
    __single_thread_move (w, h) = (Normal h', (w, set_thread Invalid h))
    /\ thread h' = Valid u
    /\ single_base h' = single_base h
    /\ __single_thread_dtor (w, set_thread Invalid h)
       = (Normal tt, (unregistered k w, set_thread Invalid h))
    /\ (k = 1%N ->
        backend (unregistered k w) = nullptr
        /\ fst (__single_thread_dtor (unregistered k w, h')) = Undefined)
    /\ ((2 <= k)%N ->
        exists w3,
          __single_thread_dtor (unregistered k w, h') = (Normal tt, (w3, set_thread Invalid h'))
          /\ registry_at (k - 2) w3).
Proof.
  intros Hat H1 Hk Hth Hst. destruct h as [b t]. cbn [thread] in Hth. subst t.
  exists (mkSingle (__thread_base_copy b) (Valid u)).
  split; [reflexivity |]. split; [reflexivity |].
  split; [now destruct b |].
  split.
  { pose proof (single_dtor_eq k w (set_thread Invalid (mkSingle b (Valid u))) Hat H1 Hk) as Hd.
    cbn [thread set_thread] in Hd. exact Hd. }
  split.
  - intros ->. split; [reflexivity |].
    erewrite single_dtor_null; [reflexivity | reflexivity | reflexivity | exact Hst].
  - intros H2.
    assert (Hat1 : registry_at (k - 1) (unregistered k w))
      by (apply registry_at_unregistered; lia).
    pose proof (single_dtor_eq (k - 1) (unregistered k w)
                  (mkSingle (__thread_base_copy b) (Valid u))
                  Hat1 ltac:(lia) ltac:(lia)) as Hd.
    cbn zeta in Hd. cbn [thread] in Hd.
    change (unit_status (unregistered k w) u) with (unit_status w u) in Hd.
    rewrite Hst in Hd.
    eexists. split; [exact Hd |].
    replace (k - 2)%N with (k - 1 - 1)%N by lia.
    apply registry_at_unregistered. lia.
Qed.

(** A single-thread handle whose unit ended with a throwable that is not an
    [Exception].  [wait()] raises it like any other.  The destructor, which
    catches [Exception] only, lets it out and ends in [std::terminate]: the
    unit has been joined, nothing is displayed and nothing unregistered. *)
Theorem single_teardown_foreign (w : World) (h : __single_thread) (u : nat) (x : string) :
  thread h = Valid u ->
  unit_status w u = Some (Done (Threw (Foreign x))) ->
  let w1 := addlog [single_waiting (name (single_base h)); EvGet u] w in
  __single_thread_wait (w, h) = (Raise (Foreign x), (w1, set_thread Invalid h))
  /\ __single_thread_dtor (w, h) = (Abort, (w1, set_thread Invalid h))
  /\ backend w1 = backend w
  /\ List.filter is_display (logged w w1) = [].
Proof.
  intros Hth Hst w1.
  pose proof (single_try_wait_eq w h) as Htry. rewrite Hth, Hst in Htry. cbn zeta in Htry.
  split. { rewrite single_wait_eq, Hth, Hst. reflexivity. }
  split.
  { unfold __single_thread_dtor, noexcept. rewrite bind_self. cbn [snd].
    rewrite Hth. cbn [valid]. rewrite (bind_raise _ _ _ _ _ Htry). reflexivity. }
  split; [reflexivity |]. unfold w1. now rewrite logged_addlog.
Qed.

(** ** The further statements at sample inputs *)

Lemma group_wait_suspended_witness :
  Forall (settled (sample_world_with Running)) [Valid 1]
  /\ unit_status (sample_world_with Running) 2 = Some Running
  /\ __multi_thread_wait (sample_world_with Running, sample_group)
     = (Blocked,
        (addlog [multi_waiting "grp"; EvGet 1; EvDisplay boom] (sample_world_with Running),
         mkMulti (mkBase "grp") [Invalid; Valid 2; Valid 3] [tt; tt])).
Proof.
  assert (Hmid : Forall (settled (sample_world_with Running)) [Valid 1]).
  { constructor; [right; eexists; reflexivity | constructor]. }
  split; [exact Hmid |]. split; [reflexivity |].
  exact (group_wait_suspended (sample_world_with Running) (mkBase "grp") [tt; tt]
           [Valid 1] [Valid 3] 2 Hmid eq_refl).
Defined.

Lemma group_wait_foreign_witness :
  Forall (settled (sample_world_with (Done (Threw (Foreign "std::bad_alloc"))))) [Valid 1]
  /\ __multi_thread_wait (sample_world_with (Done (Threw (Foreign "std::bad_alloc"))),
                          sample_group)
     = (Raise (Foreign "std::bad_alloc"),
        (addlog [multi_waiting "grp"; EvGet 1; EvDisplay boom; EvGet 2]
                (sample_world_with (Done (Threw (Foreign "std::bad_alloc")))),
         mkMulti (mkBase "grp") [Invalid; Invalid; Valid 3] [tt; tt]))
  /\ fst (__multi_thread_dtor (sample_world_with (Done (Threw (Foreign "std::bad_alloc"))),
                               sample_group))
     = Abort.
Proof.
  assert (Hmid : Forall (settled (sample_world_with (Done (Threw (Foreign "std::bad_alloc")))))
                        [Valid 1]).
  { constructor; [right; eexists; reflexivity | constructor]. }
  destruct (group_wait_foreign (sample_world_with (Done (Threw (Foreign "std::bad_alloc"))))
              (mkBase "grp") [tt; tt] [Valid 1] [Valid 3] 2 "std::bad_alloc" Hmid eq_refl)
    as (Hwait & Hdtor & _).
  split; [exact Hmid |]. split; [exact Hwait |].
  change sample_group with (mkMulti (mkBase "grp") ([Valid 1] ++ Valid 2 :: [Valid 3]) [tt; tt]).
  now rewrite Hdtor.
Defined.

Lemma unregistration_in_excess_witness :
  registry_at 0 initial_world
  /\ live_after 0 [Reg; Unreg; Unreg; Reg] = None
  /\ exists (ops1 ops2 : list op) (w1 : World),
       [Reg; Unreg; Unreg; Reg] = ops1 ++ Unreg :: ops2
       /\ live_after 0 ops1 = Some 0%N
       /\ run_ops ops1 initial_world = (Normal tt, w1)
       /\ backend w1 = nullptr
       /\ run_ops [Reg; Unreg; Unreg; Reg] initial_world = (Undefined, w1).
Proof.
  split; [reflexivity |]. split; [reflexivity |].
  apply (unregistration_in_excess [Reg; Unreg; Unreg; Reg] 0 initial_world).
  - reflexivity.
  - reflexivity.
  - vm_compute. reflexivity.
Defined.

(** A group of three launched from the initial world; the workers end, the
    second with a failure, and the handle is destroyed. *)
Lemma group_lifecycle_witness :
  registry_at 0 initial_world
  /\ exists (h : __multi_thread unit) (w1 : World),
       __multi_thread_ctor (mkRef 7 tt) 3 "grp" initial_world = (Normal h, w1)
       /\ registry_at 1 w1
       /\ threads h = [Valid 0; Valid 1; Valid 2]
       /\ Forall (settled (finish 2 Ok (finish 1 (Threw (MRException boom)) (finish 0 Ok w1))))
                 (threads h)
       /\ exists w3,
            __multi_thread_dtor
              (finish 2 Ok (finish 1 (Threw (MRException boom)) (finish 0 Ok w1)), h)
            = (Normal tt, (w3, spent h))
            /\ backend w3 = nullptr
            /\ List.filter is_get
                 (logged (finish 2 Ok (finish 1 (Threw (MRException boom)) (finish 0 Ok w1))) w3)
               = [EvGet 0; EvGet 1; EvGet 2]
            /\ List.filter is_display
                 (logged (finish 2 Ok (finish 1 (Threw (MRException boom)) (finish 0 Ok w1))) w3)
               = [EvDisplay boom; EvDisplay (group_failure "grp")]
            /\ teardowns
                 (logged (finish 2 Ok (finish 1 (Threw (MRException boom)) (finish 0 Ok w1))) w3)
               = 1.
Proof.
  destruct (group_lifecycle (mkRef 7 tt) 3 "grp" 0 initial_world
              ltac:(lia) ltac:(vm_compute; reflexivity) eq_refl ltac:(vm_compute; reflexivity))
    as (h & w1 & Hctor & Hat & Hth & Hdtor & _).
  assert (Hc : __multi_thread_ctor (mkRef 7 tt) 3 "grp" initial_world
               = (Normal (mkMulti (mkBase "grp") [Valid 0; Valid 1; Valid 2] [tt; tt]),
                  mkWorld (live (mkBackend 1 false))
                          [mkUnit (Copy 0) Running; mkUnit (Copy 1) Running;
                           mkUnit (Original 7) Running]
                          [EvBackendCtor; EvRegister; multi_launching 3 "grp";
                           EvAsync 0 (Copy 0); EvAsync 1 (Copy 1); EvAsync 2 (Original 7)]))
    by (vm_compute; reflexivity).
  rewrite Hc in Hctor. injection Hctor as <- <-.
  assert (Hall : Forall (settled (finish 2 Ok (finish 1 (Threw (MRException boom))
                    (finish 0 Ok
                       (mkWorld (live (mkBackend 1 false))
                          [mkUnit (Copy 0) Running; mkUnit (Copy 1) Running;
                           mkUnit (Original 7) Running]
                          [EvBackendCtor; EvRegister; multi_launching 3 "grp";
                           EvAsync 0 (Copy 0); EvAsync 1 (Copy 1); EvAsync 2 (Original 7)])))))
                   [Valid 0; Valid 1; Valid 2]).
  { repeat (constructor; [first [left; reflexivity | right; eexists; reflexivity] |]).
    constructor. }
  destruct (Hdtor (finish 2 Ok (finish 1 (Threw (MRException boom))
                    (finish 0 Ok
                       (mkWorld (live (mkBackend 1 false))
                          [mkUnit (Copy 0) Running; mkUnit (Copy 1) Running;
                           mkUnit (Original 7) Running]
                          [EvBackendCtor; EvRegister; multi_launching 3 "grp";
                           EvAsync 0 (Copy 0); EvAsync 1 (Copy 1); EvAsync 2 (Original 7)]))))
                  eq_refl Hall) as (w3 & Hd & Hb & Hgets & Hdisplays & Htear).
  split; [reflexivity |].
  eexists _, _. split; [exact Hc |]. split; [exact Hat |]. split; [reflexivity |].
  split; [exact Hall |].
  exists w3. split; [exact Hd |]. split; [exact Hb |]. split; [exact Hgets |].
  split; [exact Hdisplays | exact Htear].
Defined.

Lemma moved_handle_unregisters_twice_witness :
  registry_at 1 lone_world
  /\ unit_status lone_world 0 = Some (Done Ok)
  /\ exists h' : __single_thread,
       __single_thread_move (lone_world, mkSingle (mkBase "job") (Valid 0))
       = (Normal h', (lone_world, mkSingle (mkBase "job") Invalid))
       /\ __single_thread_dtor (lone_world, mkSingle (mkBase "job") Invalid)
          = (Normal tt, (unregistered 1 lone_world, mkSingle (mkBase "job") Invalid))
       /\ fst (__single_thread_dtor (unregistered 1 lone_world, h')) = Undefined.
Proof.
  destruct (moved_handle_unregisters_twice 1 lone_world (mkSingle (mkBase "job") (Valid 0)) 0
              eq_refl ltac:(lia) ltac:(vm_compute; reflexivity) eq_refl eq_refl)
    as (h' & Hmove & _ & _ & Hsrc & Hlast & _).
  split; [reflexivity |]. split; [reflexivity |].
  exists h'. split; [exact Hmove |]. split; [exact Hsrc |].
  exact (proj2 (Hlast eq_refl)).
Defined.

Lemma single_teardown_foreign_witness :
  unit_status (mkWorld (live (mkBackend 1 false))
                       [mkUnit (Original 7) (Done (Threw (Foreign "std::bad_alloc")))] []) 0
  = Some (Done (Threw (Foreign "std::bad_alloc")))
  /\ fst (__single_thread_dtor
            (mkWorld (live (mkBackend 1 false))
                     [mkUnit (Original 7) (Done (Threw (Foreign "std::bad_alloc")))] [],
             mkSingle (mkBase "job") (Valid 0)))
     = Abort.
Proof.
  split; [reflexivity |].
  destruct (single_teardown_foreign
              (mkWorld (live (mkBackend 1 false))
                       [mkUnit (Original 7) (Done (Threw (Foreign "std::bad_alloc")))] [])
              (mkSingle (mkBase "job") (Valid 0)) 0 "std::bad_alloc" eq_refl eq_refl)
    as (_ & Hdtor & _).
  now rewrite Hdtor.
Defined.

(** * Merging direction sets *)

Section DirmergeFacts.
Import Dirmerge.
Context `{Arithmetic}.

(** ** Loops *)

Lemma for_each_invariant {A X} (P : A -> Prop) (v : list X) (body : X -> A -> result A)
    (init : A) :
  P init ->
  (forall x a, x ∈ v -> P a -> exists a', body x a = Normal a' /\ P a') ->
  exists a', for_each v body init = Normal a' /\ P a'.
Proof.
  unfold for_each. revert init.
  induction v as [| x v IH]; intros init Hinit Hstep; cbn [foldl].
  - eauto.
  - destruct (Hstep x init) as (a' & Hbody & Ha'); [left | assumption |].
    cbn [and_then]. rewrite Hbody. apply IH; [assumption |].
    intros y a Hy. apply Hstep. now right.
Qed.

Lemma for_upto_snoc {A} (n : nat) (body : N -> A -> result A) (init : A) :
  for_upto (N.of_nat (S n)) body init
  = let! a := for_upto (N.of_nat n) body init in body (N.of_nat n) a.
Proof.
  unfold for_upto. rewrite !Nat2N.id, seq_S, map_app, foldl_app. reflexivity.
Qed.

Lemma for_upto_invariant {A} (P : nat -> A -> Prop) (bound : nat) (body : N -> A -> result A)
    (init : A) :
  P 0%nat init ->
  (forall n a, (n < bound)%nat -> P n a ->
               exists a', body (N.of_nat n) a = Normal a' /\ P (S n) a') ->
  exists a', for_upto (N.of_nat bound) body init = Normal a' /\ P bound a'.
Proof.
  intros Hinit Hstep. induction bound as [| n IH].
  - exists init. split; [reflexivity | assumption].
  - destruct IH as (a & Hrun & Ha); [intros m b Hm; apply Hstep; lia |].
    destruct (Hstep n a) as (a' & Hbody & Ha'); [lia | assumption |].
    exists a'. rewrite for_upto_snoc, Hrun. cbn [and_then]. now split.
Qed.

(** ** Indexing *)

Lemma at_index_Normal {A} (v : list A) (i : N) (a : A) :
  at_index v i = Normal a <-> v !! N.to_nat i = Some a.
Proof.
  unfold at_index. destruct (v !! N.to_nat i); split; congruence.
Qed.

Lemma at_index_lt {A} (v : list A) (i : N) :
  (i < size v)%N -> exists a, at_index v i = Normal a.
Proof.
  unfold size. intros Hi.
  destruct (lookup_lt_is_Some_2 v (N.to_nat i)) as [a Ha]; [lia |].
  exists a. now apply at_index_Normal.
Qed.

Lemma at_index_Normal_lt {A} (v : list A) (i : N) (a : A) :
  at_index v i = Normal a -> (i < size v)%N.
Proof.
  rewrite at_index_Normal. intros Ha%lookup_lt_Some. unfold size. lia.
Qed.

Lemma subset_Normal (ds : list (list DirectionSet)) (b p : N) (set : DirectionSet) :
  subset ds b p = Normal set
  <-> exists shell, ds !! N.to_nat b = Some shell /\ shell !! N.to_nat p = Some set.
Proof.
  unfold subset, at_index. destruct (ds !! N.to_nat b) as [shell |]; cbn [and_then].
  - destruct (shell !! N.to_nat p) as [set' |] eqn:Hp; split.
    + intros [= <-]. eauto.
    + intros (? & [= <-] & Hp'). congruence.
    + discriminate.
    + intros (? & [= <-] & ?). congruence.
  - split; [discriminate | intros (? & ? & ?); discriminate].
Qed.

(** ** What is left in [dirs] *)

Lemma imap_middle {A B} (f : nat -> A -> B) (l1 l2 : list A) (a : A) :
  imap f (l1 ++ a :: l2)
  = imap f l1 ++ f (length l1) a :: imap (fun i => f (length l1 + S i)%nat) l2.
Proof.
  rewrite imap_app. cbn [imap]. rewrite Nat.add_0_r. reflexivity.
Qed.

Lemma concat_imap_insert {A B} (f : nat -> A -> list B) (l : list A) (i : nat)
    (a a' : A) (extra : list B) :
  l !! i = Some a ->
  f i a' ++ extra ≡ₚ f i a ->
  concat (imap f (<[i := a']> l)) ++ extra ≡ₚ concat (imap f l).
Proof.
  intros Hl Hperm.
  destruct (list_elem_of_split_length l i a Hl) as (l1 & l2 & -> & ->).
  rewrite insert_app_r_alt, Nat.sub_diag by lia. cbn [insert list_insert].
  rewrite !imap_middle, !concat_app. cbn [concat].
  rewrite <- Hperm, <- !app_assoc.
  apply Permutation_app_head. apply Permutation_app_head.
  apply Permutation_app_comm.
Qed.

Lemma tag_set_delete (b p n : nat) (set : DirectionSet) (x : Direction) :
  set !! n = Some x ->
  tag_set b p (delete n set) ++ [mkOutDir x (N.of_nat b) (N.of_nat p)] ≡ₚ tag_set b p set.
Proof.
  intros Hx. unfold tag_set.
  rewrite (delete_Permutation set n x Hx) at 2. cbn [map].
  rewrite <- Permutation_cons_append. reflexivity.
Qed.

Lemma tagged_remove (ds : list (list DirectionSet)) (b p n : nat)
    (shell : list DirectionSet) (set : DirectionSet) (x : Direction) :
  ds !! b = Some shell -> shell !! p = Some set -> set !! n = Some x ->
  tagged (<[b := <[p := delete n set]> shell]> ds) ++ [mkOutDir x (N.of_nat b) (N.of_nat p)]
  ≡ₚ tagged ds.
Proof.
  intros Hb Hp Hn. unfold tagged.
  apply concat_imap_insert with (a := shell); [assumption |].
  unfold tag_shell.
  apply concat_imap_insert with (a := set); [assumption |].
  now apply tag_set_delete.
Qed.

Lemma shape_remove (ds : list (list DirectionSet)) (b p : nat)
    (shell : list DirectionSet) (set' : DirectionSet) :
  ds !! b = Some shell ->
  shape (<[b := <[p := set']> shell]> ds) = shape ds.
Proof.
  intros Hb. unfold shape. rewrite list_fmap_insert, length_insert.
  apply list_insert_id. now rewrite list_lookup_fmap, Hb.
Qed.

Lemma push_spec (b p n : N) (st : State) (shell : list DirectionSet) (set : DirectionSet)
    (x : Direction) :
  dirs st !! N.to_nat b = Some shell -> shell !! N.to_nat p = Some set ->
  set !! N.to_nat n = Some x ->
  exists st',
    push b p n st = Normal st'
    /\ merged st' = merged st ++ [mkOutDir x b p]
    /\ tagged (dirs st') ++ [mkOutDir x b p] ≡ₚ tagged (dirs st)
    /\ shape (dirs st') = shape (dirs st).
Proof.
  intros Hb Hp Hn. unfold push.
  rewrite (proj2 (at_index_Normal _ _ _) Hb). cbn [and_then].
  rewrite (proj2 (at_index_Normal _ _ _) Hp). cbn [and_then].
  rewrite (proj2 (at_index_Normal _ _ _) Hn). cbn [and_then].
  eexists. split; [reflexivity |]. cbn [merged dirs]. destruct x as [x0 x1 x2]. cbn.
  split; [reflexivity |]. split.
  - rewrite <- (tagged_remove (dirs st) _ _ _ shell set (mkDirection x0 x1 x2) Hb Hp Hn).
    now rewrite !N2Nat.id.
  - now apply shape_remove.
Qed.

End DirmergeFacts.

Section DirmergeSteps.
Import Dirmerge.
Context `{Arithmetic}.

Lemma regular_subset (num_subsets : N) (ds : list (list DirectionSet)) (b p : N) :
  regular num_subsets ds -> (b < size ds)%N -> (p < num_subsets)%N ->
  exists set, subset ds b p = Normal set.
Proof.
  intros Hreg Hb Hp.
  destruct (at_index_lt ds b Hb) as [shell Hshell].
  assert (Hlen : N.of_nat (length shell) = num_subsets).
  { apply at_index_Normal in Hshell.
    unfold regular, shape in Hreg. rewrite Forall_lookup in Hreg.
    apply (Hreg (N.to_nat b)). now rewrite list_lookup_fmap, Hshell. }
  destruct (at_index_lt shell p) as [set Hset]; [unfold size; lia |].
  exists set. unfold subset. rewrite Hshell. exact Hset.
Qed.

Lemma regular_shape (num_subsets : N) (ds ds' : list (list DirectionSet)) :
  shape ds' = shape ds -> regular num_subsets ds -> regular num_subsets ds'.
Proof. unfold regular. now intros ->. Qed.

Lemma shape_size (ds ds' : list (list DirectionSet)) :
  shape ds' = shape ds -> size ds' = size ds.
Proof.
  unfold shape, size. intros Hs. apply (f_equal length) in Hs.
  rewrite !length_fmap in Hs. now rewrite Hs.
Qed.

Lemma energy_returns (b p n : N) (st : State) (set : DirectionSet) :
  subset (dirs st) b p = Normal set -> (n < size set)%N ->
  exists E, energy b p n st = Normal E.
Proof.
  intros Hset Hn. unfold energy.
  destruct (for_each_invariant (fun _ => True) (merged st)
              (fun d E => if (OutDir_b d =? b)%N
                          then let! set := subset (dirs st) b p in
                               let! x := at_index set n in
                               Normal (add E (energy_pair (OutDir_d d) x))
                          else Normal E) value_0_0 I) as (E & HE & _).
  - intros d E _ _. destruct (OutDir_b d =? b)%N; [| eauto].
    rewrite Hset. cbn [and_then].
    destruct (at_index_lt set n Hn) as [x ->]. cbn [and_then]. eauto.
  - eauto.
Qed.

Lemma find_lowest_energy_direction_spec (b p : N) (st : State) (set : DirectionSet) :
  subset (dirs st) b p = Normal set ->
  exists n, find_lowest_energy_direction b p st = Normal n
            /\ (set <> [] -> (n < size set)%N).
Proof.
  intros Hset. unfold find_lowest_energy_direction. rewrite Hset. cbn [and_then].
  destruct (for_upto_invariant
              (fun k (found : N * value_type) => fst found = 0%N \/ (fst found < N.of_nat k)%N)
              (length set)
              (fun n found => let! E := energy b p n st in
                              if less E (snd found) then Normal (n, E) else Normal found)
              (0%N, numeric_limits_max)) as (found & Hrun & Hfound).
  - now left.
  - intros n found Hn Hinv.
    destruct (energy_returns b p (N.of_nat n) st set Hset) as [E ->]; [unfold size; lia |].
    cbn [and_then]. destruct (less E (snd found)).
    + eexists. split; [reflexivity |]. right. cbn [fst]. lia.
    + eexists. split; [reflexivity |]. destruct Hinv; [now left | right; lia].
  - exists (fst found). unfold size. rewrite Hrun. split; [reflexivity |].
    intros Hne. destruct set; [congruence |]. cbn [length] in *. destruct Hfound; lia.
Qed.

Lemma shortfall_returns (n : N) (fraction : list float) (st : State) :
  (n < size fraction)%N -> exists f, shortfall n fraction st = Normal f.
Proof.
  intros Hn. unfold shortfall. destruct (at_index_lt fraction n Hn) as [share ->].
  cbn [and_then]. eauto.
Qed.

Lemma nonempty_or_not (ds : list (list DirectionSet)) (b p : N) (set : DirectionSet) :
  subset ds b p = Normal set ->
  (size set =? 0)%N = true /\ ~ nonempty_at ds b p
  \/ (size set =? 0)%N = false /\ nonempty_at ds b p.
Proof.
  intros Hset. destruct set as [| x set].
  - left. split; [reflexivity |]. intros (set' & Hset' & Hne). congruence.
  - right. split; [reflexivity |]. exists (x :: set). split; [assumption | discriminate].
Qed.

(** The scan of the shells answers shell 0 or a shell that has a direction
    left in the subset; when the shortfalls compare, it answers such a
    shell whenever there is one. *)
Lemma find_shell_spec (num_subsets num_bvalues nPE : N) (fraction : list float) (st : State) :
  regular num_subsets (dirs st) -> size (dirs st) = num_bvalues ->
  size fraction = num_bvalues -> (nPE < num_subsets)%N ->
  exists b, find_shell num_bvalues nPE fraction st = Normal b
    /\ (b = 0%N \/ (b < num_bvalues)%N /\ nonempty_at (dirs st) b nPE)
    /\ (comparable fraction st ->
        forall n, (n < num_bvalues)%N -> nonempty_at (dirs st) n nPE ->
                  nonempty_at (dirs st) b nPE).
Proof.
  intros Hreg Hsize Hfrac HnPE. unfold find_shell.
  destruct (for_upto_invariant
              (fun k (found : N * value_type) =>
                 (fst found = 0%N
                  /\ (comparable fraction st ->
                      snd found = numeric_limits_max
                      /\ forall n, (n < N.of_nat k)%N -> ~ nonempty_at (dirs st) n nPE))
                 \/ ((fst found < N.of_nat k)%N /\ nonempty_at (dirs st) (fst found) nPE))
              (N.to_nat num_bvalues)
              (fun n found =>
                 let! f_diff := shortfall n fraction st in
                 if less f_diff (snd found) then
                   let! set := subset (dirs st) n nPE in
                   if (size set =? 0)%N then Normal found else Normal (n, f_diff)
                 else Normal found)
              (0%N, numeric_limits_max)) as (found & Hrun & Hfound).
  - left. split; [reflexivity |]. intros _. split; [reflexivity |]. intros n Hn. lia.
  - intros n found Hn Hinv.
    destruct (shortfall_returns (N.of_nat n) fraction st) as [f Hf]; [lia |].
    rewrite Hf. cbn [and_then].
    destruct (regular_subset num_subsets (dirs st) (N.of_nat n) nPE Hreg) as [set Hset];
      [lia | assumption |].
    destruct (less f (snd found)) eqn:Hless.
    + rewrite Hset. cbn [and_then].
      destruct (nonempty_or_not _ _ _ _ Hset) as [[-> Hempty] | [-> Hne]].
      * eexists. split; [reflexivity |].
        destruct Hinv as [[H0 Hcmp] | [Hlt Hne]].
        -- left. split; [assumption |]. intros Hc. destruct (Hcmp Hc) as [Hmax Hall].
           split; [assumption |]. intros m Hm.
           destruct (N.eq_dec m (N.of_nat n)) as [-> | Hneq]; [assumption |].
           apply Hall. lia.
        -- right. split; [lia | assumption].
      * eexists. split; [reflexivity |]. right. cbn [fst]. split; [lia | assumption].
    + eexists. split; [reflexivity |].
      destruct Hinv as [[H0 Hcmp] | [Hlt Hne]].
      * left. split; [assumption |]. intros Hc. destruct (Hcmp Hc) as [Hmax Hall].
        rewrite Hmax, (Hc _ _ Hf) in Hless. discriminate.
      * right. split; [lia | assumption].
  - rewrite N2Nat.id in Hrun, Hfound. rewrite Hrun. cbn [and_then].
    exists (fst found). split; [reflexivity |]. split.
    + destruct Hfound as [[H0 _] | [Hlt Hne]]; [now left | right; now split].
    + intros Hc n Hn Hne. destruct Hfound as [[H0 Hcmp] | [Hlt Hne']]; [| assumption].
      destruct (Hcmp Hc) as [_ Hall]. now destruct (Hall n Hn).
Qed.

End DirmergeSteps.

Section DirmergeLoop.
Import Dirmerge.
Context `{Arithmetic}.

Lemma next_subset_mod (num_subsets nPE : N) :
  (nPE < num_subsets)%N -> (num_subsets < SIZE_MODULUS)%N ->
  next_subset num_subsets nPE = ((nPE + 1) mod num_subsets)%N.
Proof.
  intros HnPE Hns. unfold next_subset, size_succ.
  rewrite (N.mod_small (nPE + 1) SIZE_MODULUS) by lia.
  destruct (N.leb_spec num_subsets (nPE + 1)).
  - assert (nPE + 1 = num_subsets)%N as -> by lia. now rewrite N.Div0.mod_same.
  - now rewrite N.mod_small.
Qed.

Lemma iteration_eq (num_subsets num_bvalues : N) (fraction : list float) (st : State) (nPE : N) :
  iteration num_subsets num_bvalues fraction (st, nPE)
  = let! b := find_shell num_bvalues nPE fraction st in
    let! n := find_lowest_energy_direction b nPE st in
    let! set := subset (dirs st) b nPE in
    let! st' := (if (size set =? 0)%N then Normal st else push b nPE n st) in
    Normal (st', next_subset num_subsets nPE).
Proof. reflexivity. Qed.

(** One turn of the loop: it ends, keeps the shape of [dirs] and moves on
    to the next subset; it either changes nothing else, or moves one
    direction of subset [nPE] from [dirs] to the end of [merged]. *)
Lemma iteration_spec (num_subsets num_bvalues : N) (fraction : list float)
    (st : State) (nPE : N) :
  regular num_subsets (dirs st) -> size (dirs st) = num_bvalues ->
  size fraction = num_bvalues -> (1 <= num_bvalues)%N -> (nPE < num_subsets)%N ->
  exists st',
    iteration num_subsets num_bvalues fraction (st, nPE)
    = Normal (st', next_subset num_subsets nPE)
    /\ shape (dirs st') = shape (dirs st)
    /\ ((st' = st
         /\ (decisive num_bvalues fraction st ->
             forall n, (n < num_bvalues)%N -> ~ nonempty_at (dirs st) n nPE))
        \/ exists o, merged st' = merged st ++ [o]
                     /\ tagged (dirs st') ++ [o] ≡ₚ tagged (dirs st)
                     /\ OutDir_pe o = nPE).
Proof.
  intros Hreg Hsize Hfrac Hnb HnPE. rewrite iteration_eq.
  destruct (find_shell_spec num_subsets num_bvalues nPE fraction st Hreg Hsize Hfrac HnPE)
    as (b & -> & Hb & Hdec).
  cbn [and_then].
  assert (Hblt : (b < num_bvalues)%N) by (destruct Hb as [-> | [? _]]; lia).
  destruct (regular_subset num_subsets (dirs st) b nPE Hreg) as [set Hset];
    [lia | assumption |].
  destruct (find_lowest_energy_direction_spec b nPE st set Hset) as (n & -> & Hn).
  cbn [and_then]. rewrite Hset. cbn [and_then].
  destruct (nonempty_or_not _ _ _ _ Hset) as [[-> Hempty] | [-> Hne]]; cbn [and_then].
  - exists st. split; [reflexivity |]. split; [reflexivity |]. left.
    split; [reflexivity |]. intros [-> | Hcmp] m Hm Hnonempty.
    + assert (m = 0%N) as -> by lia. assert (b = 0%N) as -> by lia. contradiction.
    + apply Hempty. now apply (Hdec Hcmp m).
  - destruct Hne as (set' & Hset' & Hne). rewrite Hset in Hset'. injection Hset' as <-.
    apply subset_Normal in Hset as (shell & Hshell & Hset).
    destruct (at_index_lt set n (Hn Hne)) as [x Hx]. apply at_index_Normal in Hx.
    destruct (push_spec b nPE n st shell set x Hshell Hset Hx)
      as (st' & -> & Hmerged & Hperm & Hshape).
    cbn [and_then]. exists st'. split; [reflexivity |]. split; [assumption |].
    right. exists (mkOutDir x b nPE). now repeat split.
Qed.

Lemma kept_step (num_subsets num_bvalues : N) (input : list (list DirectionSet))
    (fraction : list float) (s : State * N) :
  kept num_subsets num_bvalues input s ->
  size fraction = num_bvalues -> (1 <= num_bvalues)%N -> (num_subsets < SIZE_MODULUS)%N ->
  exists s',
    iteration num_subsets num_bvalues fraction s = Normal s'
    /\ kept num_subsets num_bvalues input s'
    /\ snd s' = ((snd s + 1) mod num_subsets)%N
    /\ ((fst s' = fst s
         /\ (decisive num_bvalues fraction (fst s) ->
             forall n, (n < num_bvalues)%N -> ~ nonempty_at (dirs (fst s)) n (snd s)))
        \/ exists o, merged (fst s') = merged (fst s) ++ [o]
                     /\ tagged (dirs (fst s')) ++ [o] ≡ₚ tagged (dirs (fst s))).
Proof.
  destruct s as [st nPE]. intros (Hreg & Hsize & HnPE & Hne & Hperm) Hfrac Hnb Hns.
  cbn [fst snd] in *.
  destruct (iteration_spec num_subsets num_bvalues fraction st nPE Hreg Hsize Hfrac Hnb HnPE)
    as (st' & Hit & Hshape & Hcases).
  exists (st', next_subset num_subsets nPE). split; [assumption |]. cbn [fst snd].
  assert (Hnext : next_subset num_subsets nPE = ((nPE + 1) mod num_subsets)%N)
    by now apply next_subset_mod.
  split; [| split; [assumption |]].
  - unfold kept. cbn [fst snd]. split; [now apply (regular_shape _ _ _ Hshape) |].
    split; [now rewrite (shape_size _ _ Hshape) |].
    split; [rewrite Hnext; apply N.mod_lt; lia |].
    destruct Hcases as [[-> _] | (o & Hm & Hp & _)]; [now split |].
    split.
    + rewrite Hm. intros Heq. now apply app_eq_nil in Heq as [_ ?].
    + rewrite Hm, <- Hperm, <- Hp, <- app_assoc. apply Permutation_app_head.
      apply Permutation_app_comm.
  - destruct Hcases as [[-> Hq] | (o & Hm & Hp & _)]; [left; now split | right; eauto].
Qed.

(** The loop does nothing undefined, however much fuel it is given, and
    what it has merged stays where it is. *)
Lemma merge_loop_safe (fuel : nat) (num_subsets num_bvalues total : N)
    (input : list (list DirectionSet)) (fraction : list float) (s : State * N) :
  kept num_subsets num_bvalues input s ->
  size fraction = num_bvalues -> (1 <= num_bvalues)%N -> (num_subsets < SIZE_MODULUS)%N ->
  merge_loop fuel num_subsets num_bvalues total fraction s = None
  \/ exists s', merge_loop fuel num_subsets num_bvalues total fraction s = Some (Normal s')
                /\ kept num_subsets num_bvalues input s'
                /\ (total <= size (merged (fst s')))%N
                /\ exists more, merged (fst s') = merged (fst s) ++ more.
Proof.
  intros Hkept Hfrac Hnb Hns. revert s Hkept.
  induction fuel as [| fuel IH]; intros s Hkept; cbn [merge_loop];
    destruct (N.ltb_spec (size (merged (fst s))) total) as [Hlt | Hge].
  - now left.
  - right. exists s. split; [reflexivity | split; [assumption | split; [lia |]]].
    exists []. now rewrite app_nil_r.
  - destruct (kept_step num_subsets num_bvalues input fraction s Hkept Hfrac Hnb Hns)
      as (s' & -> & Hkept' & _ & Hcases).
    destruct (IH s' Hkept') as [-> | (s'' & -> & Hkept'' & Hge & more & Hmore)];
      [now left | right].
    exists s''. split; [reflexivity | split; [assumption | split; [assumption |]]].
    destruct Hcases as [[Hsame _] | (o & Hm & _)]; [exists more; now rewrite Hmore, Hsame |].
    exists (o :: more). now rewrite Hmore, Hm, <- app_assoc.
  - right. exists s. split; [reflexivity | split; [assumption | split; [lia |]]].
    exists []. now rewrite app_nil_r.
Qed.

End DirmergeLoop.

Section DirmergeCount.
Import Dirmerge.
Context `{Arithmetic}.

(** ** Counting *)

Lemma length_concat_imap {A B} (f : nat -> A -> list B) (g : A -> nat) (l : list A) :
  (forall i x, length (f i x) = g x) ->
  length (concat (imap f l)) = sum_list (g <$> l).
Proof.
  revert f. induction l as [| x l IH]; intros f Hf; [reflexivity |].
  cbn [imap concat fmap list_fmap sum_list]. rewrite length_app, Hf. f_equal.
  apply IH. intros i y. apply Hf.
Qed.

Lemma length_tag_shell (b : nat) (shell : list DirectionSet) :
  length (tag_shell b shell) = sum_list (length <$> shell).
Proof.
  unfold tag_shell. apply length_concat_imap. intros p set. apply length_fmap.
Qed.

Lemma length_tagged (ds : list (list DirectionSet)) :
  length (tagged ds) = sum_list ((fun shell => sum_list (length <$> shell)) <$> ds).
Proof. unfold tagged. apply length_concat_imap. intros b shell. apply length_tag_shell. Qed.

Lemma count_shell (shell : list DirectionSet) (n0 : N) :
  (foldl (fun n m => size_add n (size m)) n0 shell mod SIZE_MODULUS
   = (n0 + N.of_nat (sum_list (length <$> shell))) mod SIZE_MODULUS)%N.
Proof.
  revert n0. induction shell as [| m shell IH]; intros n0;
    cbn [foldl fmap list_fmap sum_list].
  - now rewrite N.add_0_r.
  - rewrite IH. unfold size_add, size.
    rewrite N.Div0.add_mod_idemp_l. f_equal. unfold id. lia.
Qed.

Lemma count_shell_lt (shell : list DirectionSet) (n0 : N) :
  (n0 < SIZE_MODULUS)%N ->
  (foldl (fun n m => size_add n (size m)) n0 shell < SIZE_MODULUS)%N.
Proof.
  revert n0. induction shell as [| m shell IH]; intros n0 Hn0; cbn [foldl]; [assumption |].
  apply IH. unfold size_add. now apply N.mod_lt.
Qed.

Lemma count_shells (ds : list (list DirectionSet)) (n0 : N) :
  (n0 < SIZE_MODULUS)%N ->
  (foldl (fun n d => foldl (fun n m => size_add n (size m)) n d) n0 ds
   = (n0 + N.of_nat (length (tagged ds))) mod SIZE_MODULUS)%N.
Proof.
  rewrite length_tagged. revert n0.
  induction ds as [| d ds IH]; intros n0 Hn0; cbn [foldl fmap list_fmap sum_list].
  - now rewrite N.add_0_r, N.mod_small.
  - rewrite IH by now apply count_shell_lt.
    rewrite <- N.Div0.add_mod_idemp_l, count_shell, N.Div0.add_mod_idemp_l.
    f_equal. unfold id. lia.
Qed.

Lemma total_count_tagged (ds : list (list DirectionSet)) :
  (N.of_nat (length (tagged ds)) < SIZE_MODULUS)%N ->
  total_count ds = N.of_nat (length (tagged ds)).
Proof.
  intros Hlt. unfold total_count. rewrite count_shells by reflexivity.
  now rewrite N.add_0_l, N.mod_small.
Qed.

Lemma shell_count_fractions (total : N) (ds : list (list DirectionSet)) :
  size (fractions total ds) = size ds.
Proof. unfold fractions, size. now rewrite length_map. Qed.

Lemma num_for_b_le (b : N) (st : State) :
  (num_for_b b st <= size (merged st))%N.
Proof.
  unfold num_for_b, size.
  assert (Hgen : forall l n0,
             (foldl (fun n d => if (OutDir_b d =? b)%N then size_succ n else n) n0 l
              <= n0 + N.of_nat (length l))%N).
  { induction l as [| d l IH]; intros n0; cbn [foldl length]; [lia |].
    etransitivity; [apply IH |].
    destruct (OutDir_b d =? b)%N; [| lia].
    unfold size_succ. pose proof (N.Div0.mod_le (n0 + 1) SIZE_MODULUS). lia. }
  apply (Hgen (merged st) 0%N).
Qed.

Lemma shortfalls_comparable (total : N) (fraction : list float) (st : State) :
  shortfalls_compare total fraction ->
  merged st <> [] -> (size (merged st) < total)%N ->
  comparable fraction st.
Proof.
  intros Hcmp Hne Hlt n f. unfold shortfall.
  destruct (at_index fraction n) as [share | | | |] eqn:Hshare; try discriminate.
  cbn [and_then]. intros [= <-]. apply Hcmp.
  - apply num_for_b_le.
  - unfold size. destruct (merged st); [congruence | cbn [length]; lia].
  - assumption.
  - apply at_index_Normal in Hshare. now apply list_elem_of_lookup_2 in Hshare.
Qed.

(** ** What is left *)

Lemma tagged_nonempty (num_subsets : N) (ds : list (list DirectionSet)) :
  regular num_subsets ds -> tagged ds <> [] ->
  exists n p, (n < size ds)%N /\ (p < num_subsets)%N /\ nonempty_at ds n p.
Proof.
  intros Hreg Hne.
  destruct (tagged ds) as [| o rest] eqn:Htag; [congruence |].
  assert (Ho : In o (tagged ds)) by (rewrite Htag; now left).
  unfold tagged in Ho. apply in_concat in Ho as (part & Hpart & Ho).
  apply list_elem_of_In, list_elem_of_lookup in Hpart as [b Hb].
  rewrite list_lookup_imap in Hb.
  destruct (ds !! b) as [shell |] eqn:Hshell; [| discriminate]. injection Hb as <-.
  unfold tag_shell in Ho. apply in_concat in Ho as (part & Hpart & Ho).
  apply list_elem_of_In, list_elem_of_lookup in Hpart as [p Hp].
  rewrite list_lookup_imap in Hp.
  destruct (shell !! p) as [set |] eqn:Hset; [| discriminate]. injection Hp as <-.
  exists (N.of_nat b), (N.of_nat p).
  split; [apply lookup_lt_Some in Hshell; unfold size; lia |].
  split.
  - unfold regular, shape in Hreg. rewrite Forall_lookup in Hreg.
    specialize (Hreg b (length shell)). rewrite list_lookup_fmap, Hshell in Hreg.
    specialize (Hreg eq_refl). apply lookup_lt_Some in Hset. lia.
  - exists set. split.
    + apply subset_Normal. exists shell. now rewrite !Nat2N.id.
    + intros ->. destruct Ho.
Qed.

End DirmergeCount.

Section DirmergeRun.
Import Dirmerge.
Context `{Arithmetic}.

Lemma kept_count (num_subsets num_bvalues : N) (input : list (list DirectionSet))
    (s : State * N) :
  kept num_subsets num_bvalues input s ->
  (length (merged (fst s)) + length (tagged (dirs (fst s))) = length (tagged input))%nat.
Proof.
  intros (_ & _ & _ & _ & Hperm). apply Permutation_length in Hperm.
  now rewrite length_app in Hperm.
Qed.

Lemma kept_exit (num_subsets num_bvalues : N) (input : list (list DirectionSet))
    (s : State * N) :
  kept num_subsets num_bvalues input s ->
  (N.of_nat (length (tagged input)) <= size (merged (fst s)))%N ->
  merged (fst s) ≡ₚ tagged input.
Proof.
  intros Hkept Hge. pose proof (kept_count _ _ _ _ Hkept) as Hcount.
  destruct Hkept as (_ & _ & _ & _ & Hperm). unfold size in Hge.
  destruct (tagged (dirs (fst s))) as [| o rest].
  - now rewrite app_nil_r in Hperm.
  - cbn [length] in Hcount. lia.
Qed.

Lemma cycle_reach (num_subsets a p : N) :
  (a < num_subsets)%N -> (p < num_subsets)%N ->
  ((a + (p + num_subsets - a) mod num_subsets) mod num_subsets = p)%N.
Proof.
  intros Ha Hp. rewrite N.Div0.add_mod_idemp_r.
  replace (a + (p + num_subsets - a))%N with (p + 1 * num_subsets)%N by lia.
  rewrite N.Div0.mod_add. now apply N.mod_small.
Qed.

(** With shortfalls that compare, or one shell only, the loop comes to its
    end: a turn that merges nothing is followed, within [num_subsets]
    turns, by one that does. *)
Lemma merge_loop_terminates (num_subsets num_bvalues total : N)
    (input : list (list DirectionSet)) (fraction : list float) :
  size fraction = num_bvalues -> (1 <= num_bvalues)%N -> (num_subsets < SIZE_MODULUS)%N ->
  total = N.of_nat (length (tagged input)) ->
  (forall st, merged st <> [] -> (size (merged st) < total)%N ->
              decisive num_bvalues fraction st) ->
  forall (fuel r k : nat) (s : State * N),
    kept num_subsets num_bvalues input s ->
    length (tagged (dirs (fst s))) = r ->
    (r <> 0%nat ->
     (N.to_nat num_subsets * (r - 1) + k < fuel)%nat
     /\ exists n, (n < num_bvalues)%N
                  /\ nonempty_at (dirs (fst s)) n ((snd s + N.of_nat k) mod num_subsets)) ->
    merge_loop fuel num_subsets num_bvalues total fraction s <> None.
Proof.
  intros Hfrac Hnb Hns -> Hdec.
  induction fuel as [| fuel IH]; intros r k s Hkept Hr Hbound;
    pose proof (kept_count _ _ _ _ Hkept) as Hcount; cbn [merge_loop];
    destruct (N.ltb_spec (size (merged (fst s))) (N.of_nat (length (tagged input))))
      as [Hlt | Hge]; unfold size in *; try discriminate.
  - destruct Hbound as [Hfuel _]; [lia | now apply Nat.nlt_0_r in Hfuel].
  - destruct Hbound as [Hfuel (n & Hn & Hne)]; [lia |].
    destruct (kept_step num_subsets num_bvalues input fraction s Hkept Hfrac Hnb Hns)
      as (s' & -> & Hkept' & Hnext & Hcases).
    assert (HnPE : (snd s < num_subsets)%N) by apply Hkept.
    destruct Hcases as [[Hsame Hquiet] | (o & Hm & Hp)].
    + assert (Hd : decisive num_bvalues fraction (fst s)).
      { apply Hdec; [apply Hkept | unfold size; lia]. }
      destruct k as [| k].
      * rewrite N.add_0_r, N.mod_small in Hne by assumption.
        now destruct (Hquiet Hd n Hn).
      * apply (IH r k); [assumption | now rewrite Hsame |].
        intros _. split; [lia |]. exists n. split; [assumption |].
        rewrite Hsame, Hnext, N.Div0.add_mod_idemp_l.
        now replace (snd s + 1 + N.of_nat k)%N with (snd s + N.of_nat (S k))%N by lia.
    + assert (Hr' : (length (tagged (dirs (fst s'))) + 1 = r)%nat).
      { apply Permutation_length in Hp. rewrite length_app in Hp. cbn [length] in Hp. lia. }
      destruct (decide (tagged (dirs (fst s')) = [])) as [Hnil | Hleft].
      * apply (IH 0%nat 0%nat); [assumption | now rewrite Hnil | intros []; reflexivity].
      * destruct Hkept' as (Hreg' & Hsize' & HnPE' & Hkept').
        destruct (tagged_nonempty num_subsets (dirs (fst s')) Hreg' Hleft)
          as (n' & p & Hn' & Hp' & Hne').
        apply (IH (r - 1)%nat (N.to_nat ((p + num_subsets - snd s') mod num_subsets)));
          [now repeat split | lia |].
        intros _. split.
        -- pose proof (N.mod_lt (p + num_subsets - snd s') num_subsets ltac:(lia)).
           destruct r as [| [| r]]; [lia | | ].
           ++ destruct (tagged (dirs (fst s'))); [congruence | cbn [length] in Hr'; lia].
           ++ replace (S (S r) - 1 - 1)%nat with r by lia.
              replace (S (S r) - 1)%nat with (S r) in Hfuel by lia.
              nia.
        -- exists n'. split; [lia |]. rewrite N2Nat.id.
           now rewrite cycle_reach.
Qed.

Lemma subset_in_tagged (ds : list (list DirectionSet)) (set : DirectionSet) :
  subset ds 0 0 = Normal set -> (length set <= length (tagged ds))%nat.
Proof.
  intros (shell & Hshell & Hset)%subset_Normal.
  destruct ds as [| shell' ds]; [discriminate |]. injection Hshell as ->.
  destruct shell as [| set' shell]; [discriminate |]. injection Hset as ->.
  unfold tagged, tag_shell, tag_set. cbn [imap concat].
  rewrite !length_app, length_map. lia.
Qed.

Lemma draw_in_range (ds : list (list DirectionSet)) (first : N) :
  (N.of_nat (length (tagged ds)) < SIZE_MODULUS)%N ->
  nonempty_at ds 0 0 -> may_draw ds first ->
  exists set x, subset ds 0 0 = Normal set /\ set !! N.to_nat first = Some x.
Proof.
  intros Hlen (set & Hset & Hne) (set' & Hset' & Hfirst).
  rewrite Hset in Hset'. injection Hset' as <-.
  pose proof (subset_in_tagged ds set Hset) as Hle.
  assert (Hlt : (first < size set)%N).
  { unfold size, size_pred in *. destruct set as [| x set]; [congruence |].
    cbn [length] in *.
    replace (N.of_nat (S (length set)) + (SIZE_MODULUS - 1))%N
      with (N.of_nat (length set) + 1 * SIZE_MODULUS)%N in Hfirst
      by (unfold SIZE_MODULUS in *; lia).
    rewrite N.Div0.mod_add, N.mod_small in Hfirst by lia. lia. }
  destruct (at_index_lt set first Hlt) as [x Hx]. apply at_index_Normal in Hx. eauto.
Qed.

(** The first direction goes from shell 0, subset 0 to the merged list, and
    the loop starts from a state it keeps to. *)
Lemma merge_start (num_subsets num_bvalues first : N) (ds : list (list DirectionSet))
    (set : DirectionSet) (x : Direction) :
  regular num_subsets ds -> size ds = num_bvalues ->
  subset ds 0 0 = Normal set -> set !! N.to_nat first = Some x ->
  (1 <= num_bvalues)%N
  /\ exists st,
       push 0 0 first (mkState ds []) = Normal st
       /\ merged st = [mkOutDir x 0 0]
       /\ kept num_subsets num_bvalues ds (st, if (1 <? num_subsets)%N then 1%N else 0%N).
Proof.
  intros Hreg Hsize Hset Hx.
  pose proof Hset as (shell & Hshell & Hset')%subset_Normal.
  assert (Hnb : (1 <= num_bvalues)%N).
  { apply lookup_lt_Some in Hshell. unfold size in Hsize. cbn in Hshell. lia. }
  assert (Hns : (1 <= num_subsets)%N).
  { unfold regular, shape in Hreg. rewrite Forall_lookup in Hreg.
    specialize (Hreg 0%nat (length shell)). rewrite list_lookup_fmap in Hreg.
    change (N.to_nat 0) with 0%nat in Hshell. rewrite Hshell in Hreg.
    specialize (Hreg eq_refl). apply lookup_lt_Some in Hset'. cbn in Hset'. lia. }
  split; [assumption |].
  destruct (push_spec 0 0 first (mkState ds []) shell set x Hshell Hset' Hx)
    as (st & Hpush & Hm & Hperm & Hshape).
  cbn [merged dirs app] in *. exists st. split; [assumption |]. split; [assumption |].
  unfold kept. cbn [fst snd].
  split; [now apply (regular_shape _ _ _ Hshape) |].
  split; [now rewrite (shape_size _ _ Hshape) |].
  split; [destruct (N.ltb_spec 1 num_subsets); lia |].
  split; [now rewrite Hm |].
  rewrite Hm, <- Hperm. cbn [app]. apply Permutation_cons_append.
Qed.

End DirmergeRun.

Section DirmergeMerge.
Import Dirmerge.
Context `{Arithmetic}.

Lemma merge_unfold (fuel : nat) (num_subsets num_bvalues first : N)
    (ds : list (list DirectionSet)) (st : State) :
  push 0 0 first (mkState ds []) = Normal st -> (1 <= num_bvalues)%N ->
  merge fuel num_subsets num_bvalues first ds
  = option_map (fun r => let! s := r in Normal (merged (fst s)))
               (merge_loop fuel num_subsets num_bvalues (total_count ds)
                           (fractions (total_count ds) ds)
                           (st, if (1 <? num_subsets)%N then 1%N else 0%N)).
Proof.
  intros Hpush Hnb. unfold merge. rewrite Hpush. cbn [and_then].
  destruct (N.eqb_spec num_bvalues 0); [lia | reflexivity].
Qed.

(** From a state it keeps to, the loop either runs out of fuel or ends with
    every direction of the input merged. *)
Lemma merge_loop_result (fuel : nat) (num_subsets num_bvalues : N)
    (ds : list (list DirectionSet)) (st : State) (o : OutDir) (nPE : N) :
  kept num_subsets num_bvalues ds (st, nPE) -> merged st = [o] ->
  size ds = num_bvalues -> (1 <= num_bvalues)%N -> (num_subsets < SIZE_MODULUS)%N ->
  (N.of_nat (length (tagged ds)) < SIZE_MODULUS)%N ->
  merge_loop fuel num_subsets num_bvalues (total_count ds)
             (fractions (total_count ds) ds) (st, nPE) = None
  \/ exists rest,
       option_map (fun r => let! s := r in Normal (merged (fst s)))
                  (merge_loop fuel num_subsets num_bvalues (total_count ds)
                              (fractions (total_count ds) ds) (st, nPE))
       = Some (Normal (o :: rest))
       /\ o :: rest ≡ₚ tagged ds.
Proof.
  intros Hkept Hm Hsize Hnb Hns Hlen.
  destruct (merge_loop_safe fuel num_subsets num_bvalues (total_count ds) ds
              (fractions (total_count ds) ds) (st, nPE) Hkept)
    as [Hnone | (s' & Hrun & Hkept' & Hge & more & Hmore)];
    [now rewrite shell_count_fractions | assumption | assumption | now left | right].
  cbn [fst] in Hmore. rewrite Hm in Hmore. cbn [app] in Hmore.
  exists more. rewrite Hrun. cbn [option_map and_then]. rewrite Hmore. split; [reflexivity |].
  rewrite <- Hmore. apply (kept_exit _ _ _ _ Hkept').
  now rewrite <- total_count_tagged.
Qed.

(** Whatever the arithmetic computes, merging does nothing undefined on
    sets read in the regular way with a first set that is not empty: no
    index leaves its vector.  When the loop ends, the merged list holds
    every direction of the input exactly once, under the shell and the
    subset it was read in, and starts with the direction drawn from shell
    0, subset 0. *)
Theorem merge_never_undefined (fuel : nat) (num_subsets num_bvalues first : N)
    (ds : list (list DirectionSet)) :
  regular num_subsets ds -> size ds = num_bvalues ->
  (num_subsets < SIZE_MODULUS)%N -> (N.of_nat (length (tagged ds)) < SIZE_MODULUS)%N ->
  nonempty_at ds 0 0 -> may_draw ds first ->
  merge fuel num_subsets num_bvalues first ds = None
  \/ exists set x rest,
       subset ds 0 0 = Normal set /\ set !! N.to_nat first = Some x
       /\ merge fuel num_subsets num_bvalues first ds
          = Some (Normal (mkOutDir x 0 0 :: rest))
       /\ mkOutDir x 0 0 :: rest ≡ₚ tagged ds.
Proof.
  intros Hreg Hsize Hns Hlen Hne Hdraw.
  destruct (draw_in_range ds first Hlen Hne Hdraw) as (set & x & Hset & Hx).
  destruct (merge_start num_subsets num_bvalues first ds set x Hreg Hsize Hset Hx)
    as (Hnb & st & Hpush & Hm & Hkept).
  rewrite (merge_unfold fuel num_subsets num_bvalues first ds st Hpush Hnb).
  destruct (merge_loop_result fuel num_subsets num_bvalues ds st (mkOutDir x 0 0) _
              Hkept Hm Hsize Hnb Hns Hlen) as [-> | (rest & Hrun & Hperm)];
    [now left | right].
  exists set, x, rest. now repeat split.
Qed.

(** The loop ends, within [num_subsets] turns for each direction, when
    there is one shell only or when every shortfall that can arise is below
    the largest [double]; the merged list then holds every direction of the
    input exactly once. *)
Lemma merge_complete (fuel : nat) (num_subsets num_bvalues first : N)
    (ds : list (list DirectionSet)) :
  regular num_subsets ds -> size ds = num_bvalues ->
  (num_subsets < SIZE_MODULUS)%N -> (N.of_nat (length (tagged ds)) < SIZE_MODULUS)%N ->
  nonempty_at ds 0 0 -> may_draw ds first ->
  num_bvalues = 1%N \/ shortfalls_compare (total_count ds) (fractions (total_count ds) ds) ->
  (N.to_nat (num_subsets * total_count ds) <= fuel)%nat ->
  exists out,
    merge fuel num_subsets num_bvalues first ds = Some (Normal out)
    /\ out ≡ₚ tagged ds
    /\ size out = total_count ds.
Proof.
  intros Hreg Hsize Hns Hlen Hne Hdraw Hdec Hfuel.
  destruct (draw_in_range ds first Hlen Hne Hdraw) as (set & x & Hset & Hx).
  destruct (merge_start num_subsets num_bvalues first ds set x Hreg Hsize Hset Hx)
    as (Hnb & st & Hpush & Hm & Hkept).
  rewrite (merge_unfold fuel num_subsets num_bvalues first ds st Hpush Hnb).
  pose proof (total_count_tagged ds Hlen) as Htotal.
  destruct (merge_loop_result fuel num_subsets num_bvalues ds st (mkOutDir x 0 0) _
              Hkept Hm Hsize Hnb Hns Hlen) as [Hnone | (rest & Hrun & Hperm)].
  - exfalso.
    pose proof (kept_count _ _ _ _ Hkept) as Hcount. cbn [fst] in Hcount.
    rewrite Hm in Hcount. cbn [length] in Hcount.
    assert (Hdecisive : forall st', merged st' <> [] -> (size (merged st') < total_count ds)%N ->
                                    decisive num_bvalues (fractions (total_count ds) ds) st').
    { intros st' Hne' Hlt'. destruct Hdec as [-> | Hcmp]; [now left | right].
      now apply (shortfalls_comparable (total_count ds)). }
    assert (Hfrac : size (fractions (total_count ds) ds) = num_bvalues)
      by now rewrite shell_count_fractions.
    destruct (decide (tagged (dirs st) = [])) as [Hnil | Hleft].
    + apply (merge_loop_terminates num_subsets num_bvalues (total_count ds) ds
               (fractions (total_count ds) ds) Hfrac Hnb Hns Htotal Hdecisive
               fuel 0%nat 0%nat _ Hkept);
        [cbn [fst]; now rewrite Hnil | intros Hf; now destruct Hf |].
      exact Hnone.
    + pose proof Hkept as (Hreg' & Hsize' & HnPE' & _). cbn [fst snd] in *.
      destruct (tagged_nonempty num_subsets (dirs st) Hreg' Hleft)
        as (n & p & Hn & Hp & Hnonempty).
      set (nPE := if (1 <? num_subsets)%N then 1%N else 0%N) in *.
      apply (merge_loop_terminates num_subsets num_bvalues (total_count ds) ds
               (fractions (total_count ds) ds) Hfrac Hnb Hns Htotal Hdecisive
               fuel (length (tagged (dirs st)))
               (N.to_nat ((p + num_subsets - nPE) mod num_subsets)) _ Hkept);
        [reflexivity | | exact Hnone].
      intros _. cbn [fst snd]. split.
      * pose proof (N.mod_lt (p + num_subsets - nPE) num_subsets ltac:(lia)).
        rewrite Htotal in Hfuel.
        destruct (tagged (dirs st)) as [| o' rest']; [congruence |]. cbn [length] in *.
        set (r := length rest') in *.
        replace (S r - 1)%nat with r by lia. nia.
      * exists n. split; [lia |]. rewrite N2Nat.id. now rewrite cycle_reach.
  - exists (mkOutDir x 0 0 :: rest). split; [assumption |]. split; [assumption |].
    unfold size. apply Permutation_length in Hperm. now rewrite Hperm, Htotal.
Qed.

End DirmergeMerge.

Section DirmergeRead.
Import Dirmerge.
Context `{Files}.

(** ** The argument count *)

Lemma size_add_small (a b : N) : (a + b < SIZE_MODULUS)%N -> size_add a b = (a + b)%N.
Proof. intros Hlt. unfold size_add. now apply N.mod_small. Qed.

Lemma size_mul_small (a b : N) : (a * b < SIZE_MODULUS)%N -> size_mul a b = (a * b)%N.
Proof. intros Hlt. unfold size_mul. now apply N.mod_small. Qed.

Lemma size_sub_small (a b : N) :
  (b <= a)%N -> (a < SIZE_MODULUS)%N -> size_sub a b = (a - b)%N.
Proof.
  intros Hle Hlt. unfold size_sub. rewrite (N.mod_small b) by lia.
  replace (a + (SIZE_MODULUS - b))%N with (a - b + 1 * SIZE_MODULUS)%N by lia.
  rewrite N.Div0.mod_add. apply N.mod_small. lia.
Qed.

Lemma size_pred_small (a : N) :
  (1 <= a)%N -> (a < SIZE_MODULUS)%N -> size_pred a = (a - 1)%N.
Proof.
  intros Hle Hlt. unfold size_pred.
  replace (a + (SIZE_MODULUS - 1))%N with (a - 1 + 1 * SIZE_MODULUS)%N
    by (unfold SIZE_MODULUS in *; lia).
  rewrite N.Div0.mod_add. apply N.mod_small. lia.
Qed.

Lemma check_arguments_eq (num_subsets argument_size : N) :
  (2 <= argument_size)%N -> (argument_size < SIZE_MODULUS)%N ->
  (1 + num_subsets < SIZE_MODULUS)%N ->
  check_arguments num_subsets argument_size
  = if ((argument_size - 2) mod (1 + num_subsets) =? 0)%N
    then Normal ((argument_size - 2) / (1 + num_subsets))%N
    else Raise inconsistent.
Proof.
  intros Hlo Hhi Hns. unfold check_arguments, expected_bvalues.
  rewrite (size_add_small 1 num_subsets) by assumption.
  destruct (N.eqb_spec (1 + num_subsets) 0) as [Hz | _]; [lia |].
  cbn [and_then]. rewrite size_sub_small by assumption.
  pose proof (N.Div0.div_mod (argument_size - 2) (1 + num_subsets)) as Hdm.
  pose proof (N.mod_lt (argument_size - 2) (1 + num_subsets) ltac:(lia)) as Hrem.
  set (q := ((argument_size - 2) / (1 + num_subsets))%N) in *.
  set (r := ((argument_size - 2) mod (1 + num_subsets))%N) in *.
  assert (Hq : (q * (1 + num_subsets) <= argument_size - 2)%N) by nia.
  rewrite size_mul_small, size_add_small by lia.
  destruct (N.eqb_spec r 0) as [Hr | Hr];
    destruct (N.eqb_spec (q * (1 + num_subsets) + 2) argument_size) as [He | He];
    try reflexivity; exfalso; nia.
Qed.

End DirmergeRead.

Section DirmergeReading.
Import Dirmerge.
Context `{Files}.

(** ** Reading *)

(** The files of one shell, read in order. *)
Lemma read_files (argument pre files post : list string) (sets : list DirectionSet) :
  argument = pre ++ files ++ post ->
  Forall2 loads_as files sets ->
  (N.of_nat (length argument) < SIZE_MODULUS)%N ->
  for_upto (size files) (fun _ cd => read_subset argument cd) (size pre, [])
  = Normal (size (pre ++ files), sets).
Proof.
  intros -> Hloads Hsize. unfold size in *.
  destruct (for_upto_invariant
              (fun i (cd : N * list DirectionSet) =>
                 cd = (N.of_nat (length pre + i), take i sets))
              (length files)
              (fun _ cd => read_subset (pre ++ files ++ post) cd)
              (N.of_nat (length pre), [])) as (cd & Hrun & ->).
  - now rewrite Nat.add_0_r, take_0.
  - intros i cd Hi ->. unfold read_subset. cbn [fst snd].
    destruct (lookup_lt_is_Some_2 files i Hi) as [name Hname].
    destruct (Forall2_lookup_l _ _ _ _ _ Hloads Hname) as (set & Hset & m & Hload & Hrows).
    assert (Harg : at_index (pre ++ files ++ post) (N.of_nat (length pre + i)) = Normal name).
    { apply at_index_Normal. rewrite Nat2N.id, lookup_app_r by lia.
      replace (length pre + i - length pre)%nat with i by lia.
      now rewrite lookup_app_l. }
    rewrite Harg. cbn [and_then]. rewrite Hload. cbn [and_then]. rewrite Hrows.
    cbn [and_then]. eexists. split; [reflexivity |]. f_equal.
    + unfold size_succ. rewrite N.mod_small; [lia |].
      rewrite !length_app in Hsize. lia.
    + now rewrite (take_S_r _ _ _ Hset).
  - rewrite Hrun. f_equal. rewrite length_app. f_equal.
    apply take_ge. apply Forall2_length in Hloads. lia.
Qed.

Lemma read_loop_unfold (fuel : nat) (num_subsets : N) (argument : list string) (r : Reader) :
  read_loop fuel num_subsets argument r
  = if (current r <? size_pred (size argument))%N then
      match fuel with
      | O => None
      | S fuel' =>
          match read_shell num_subsets argument r with
          | Normal r' => read_loop fuel' num_subsets argument r'
          | other => Some other
          end
      end
    else Some (Normal r).
Proof. destruct fuel; reflexivity. Qed.

Lemma shell_texts_app (done rest : list (string * list string)) :
  shell_texts (done ++ rest) = shell_texts done ++ shell_texts rest.
Proof. unfold shell_texts. now rewrite map_app, concat_app. Qed.

Lemma shell_texts_cons (s : string * list string) (rest : list (string * list string)) :
  shell_texts (s :: rest) = fst s :: snd s ++ shell_texts rest.
Proof. reflexivity. Qed.

Lemma length_shell_texts (shells : list (string * list string)) :
  (length shells <= length (shell_texts shells))%nat.
Proof.
  induction shells as [| s shells IH]; [reflexivity |].
  rewrite shell_texts_cons. cbn [length]. rewrite length_app. lia.
Qed.

Ltac lengths :=
  unfold size in *;
  repeat (progress (cbn [length] in *; rewrite ?length_app, ?length_map, ?length_replicate in * )).

(** The shells of the command line, read one after the other. *)
Lemma read_loop_spec (num_subsets : N) (subsets out : string) :
  forall (rest done : list (string * list string))
         (crest cdone : list (value_type * list DirectionSet)) (fuel : nat),
    (N.of_nat (length (command_line subsets (done ++ rest) out)) < SIZE_MODULUS)%N ->
    Forall (fun s => size (snd s) = num_subsets) rest ->
    Forall2 (fun s c => shell_reads s (fst c) (snd c)) rest crest ->
    length done = length cdone ->
    (length rest <= fuel)%nat ->
    read_loop fuel num_subsets (command_line subsets (done ++ rest) out)
              (mkReader (size (subsets :: shell_texts done)) (size done)
                        (map fst cdone ++ replicate (length rest) value_0_0)
                        (map snd cdone))
    = Some (Normal (mkReader (size (subsets :: shell_texts (done ++ rest)))
                             (size (done ++ rest))
                             (map fst (cdone ++ crest))
                             (map snd (cdone ++ crest)))).
Proof.
  induction rest as [| s rest IH]; intros done crest cdone fuel Hsize Hfiles Hreads Hlen Hfuel;
    rewrite read_loop_unfold; cbn [current nb bvalue read].
  - apply Forall2_nil_inv_l in Hreads as ->. rewrite !app_nil_r in *.
    unfold command_line in *.
    replace (size_pred (size (subsets :: shell_texts done ++ [out])))
      with (size (subsets :: shell_texts done))
      by (rewrite size_pred_small; lengths; lia).
    now rewrite N.ltb_irrefl.
  - apply Forall2_cons_inv_l in Hreads as (c & crest' & [Hvalue Hloads] & Hreads & ->).
    apply Forall_cons in Hfiles as [Hfile Hfiles].
    destruct fuel as [| fuel]; [cbn [length] in Hfuel; lia |].
    assert (Hargument : command_line subsets (done ++ s :: rest) out
                        = ((subsets :: shell_texts done) ++ [fst s])
                          ++ snd s ++ (shell_texts rest ++ [out])).
    { unfold command_line. rewrite shell_texts_app, shell_texts_cons.
      cbn [app]. f_equal. rewrite <- !app_assoc. cbn [app]. now rewrite <- app_assoc. }
    assert (Hbound : (N.of_nat (length (subsets :: shell_texts done) + 1 + length (snd s)
                                + length (shell_texts rest) + 1) < SIZE_MODULUS)%N).
    { rewrite Hargument in Hsize. lengths. lia. }
    assert (Htest : (size (subsets :: shell_texts done)
                     <? size_pred (size (command_line subsets (done ++ s :: rest) out)))%N
                    = true).
    { rewrite Hargument. rewrite size_pred_small; [apply N.ltb_lt | |]; lengths; lia. }
    rewrite Htest. unfold read_shell. cbn [current nb bvalue read].
    assert (Htext : at_index (command_line subsets (done ++ s :: rest) out)
                             (size (subsets :: shell_texts done)) = Normal (fst s)).
    { apply at_index_Normal. unfold size. rewrite Nat2N.id, Hargument.
      rewrite <- !app_assoc. rewrite lookup_app_r by lia.
      now rewrite Nat.sub_diag. }
    rewrite Htext. cbn [and_then].
    assert (Hnb : (size done <? size (map fst cdone ++ replicate (length (s :: rest)) value_0_0))%N
                  = true).
    { apply N.ltb_lt. lengths. lia. }
    rewrite Hnb, Hvalue. cbn [and_then].
    assert (Hsucc : size_succ (size (subsets :: shell_texts done))
                    = size ((subsets :: shell_texts done) ++ [fst s])).
    { unfold size_succ. rewrite N.mod_small; lengths; lia. }
    rewrite Hsucc, <- Hfile.
    rewrite (read_files _ ((subsets :: shell_texts done) ++ [fst s]) (snd s)
               (shell_texts rest ++ [out]) (snd c) Hargument Hloads Hsize).
    cbn [and_then fst snd].
    specialize (IH (done ++ [s]) crest' (cdone ++ [c]) fuel).
    rewrite <- !app_assoc in IH. cbn [app] in IH.
    rewrite <- IH.
    + f_equal; [assumption |]. f_equal.
      * rewrite shell_texts_app, shell_texts_cons.
        unfold shell_texts at 3. cbn [map concat]. rewrite app_nil_r.
        lengths. lia.
      * pose proof (length_shell_texts done).
        unfold size_succ. rewrite N.mod_small; lengths; lia.
      * rewrite map_app. cbn [map length replicate]. unfold size. rewrite Nat2N.id.
        rewrite insert_app_r_alt by (rewrite length_map; lia).
        rewrite length_map, Hlen, Nat.sub_diag. cbn [insert list_insert].
        now rewrite <- app_assoc.
      * now rewrite map_app.
    + assumption.
    + assumption.
    + assumption.
    + rewrite !length_app. cbn [length]. lia.
    + cbn [length] in Hfuel. lia.
Qed.

End DirmergeReading.

Section DirmergeCommand.
Import Dirmerge.
Context `{Files}.

Lemma length_shell_texts_regular (num_subsets : N) (shells : list (string * list string)) :
  Forall (fun s => size (snd s) = num_subsets) shells ->
  N.of_nat (length (shell_texts shells)) = (size shells * (1 + num_subsets))%N.
Proof.
  induction 1 as [| s shells Hs _ IH]; [reflexivity |].
  rewrite shell_texts_cons. unfold size in *. cbn [length]. rewrite length_app. lia.
Qed.

Lemma read_arguments_spec (fuel : nat) (num_subsets : N) (subsets out : string)
    (shells : list (string * list string)) (contents : list (value_type * list DirectionSet)) :
  Forall (fun s => size (snd s) = num_subsets) shells ->
  Forall2 (fun s c => shell_reads s (fst c) (snd c)) shells contents ->
  (size (command_line subsets shells out) < SIZE_MODULUS)%N ->
  (1 + num_subsets < SIZE_MODULUS)%N ->
  (length shells <= fuel)%nat ->
  read_arguments fuel num_subsets (command_line subsets shells out)
  = Some (Normal (mkReader (size (subsets :: shell_texts shells)) (size shells)
                           (map fst contents) (map snd contents))).
Proof.
  intros Hfiles Hreads Hsize Hns Hfuel. unfold read_arguments.
  pose proof (length_shell_texts_regular num_subsets shells Hfiles) as Htexts.
  assert (Hargc : size (command_line subsets shells out)
                  = (2 + size shells * (1 + num_subsets))%N).
  { unfold command_line, size in *. cbn [length]. rewrite length_app. cbn [length]. lia. }
  rewrite check_arguments_eq by (rewrite ?Hargc; lia || assumption).
  rewrite Hargc.
  replace (2 + size shells * (1 + num_subsets) - 2)%N
    with (size shells * (1 + num_subsets))%N by lia.
  rewrite N.Div0.mod_mul, N.div_mul by lia. cbn [N.eqb]. unfold size at 1. rewrite Nat2N.id.
  exact (read_loop_spec num_subsets subsets out shells [] contents [] fuel
           Hsize Hfiles Hreads eq_refl Hfuel).
Qed.

Lemma contents_regular (num_subsets : N) (shells : list (string * list string))
    (contents : list (value_type * list DirectionSet)) :
  Forall (fun s => size (snd s) = num_subsets) shells ->
  Forall2 (fun s c => shell_reads s (fst c) (snd c)) shells contents ->
  regular num_subsets (map snd contents).
Proof.
  intros Hfiles Hreads. unfold regular, shape. rewrite Forall_fmap, Forall_fmap.
  induction Hreads as [| s c shells contents [_ Hloads] _ IH]; [constructor |].
  apply Forall_cons in Hfiles as [Hfile Hfiles]. constructor; [| now apply IH].
  cbn. apply Forall2_length in Hloads. unfold size in Hfile. lia.
Qed.

(** The check of the argument count lets through the command lines that
    hold, between the first and the last argument, a whole number of groups
    of one b-value and [num_subsets] files, and no other: for them it gives
    the number of groups, the others raise the exception before anything is
    read. *)
Theorem argument_count_checked (num_subsets argument_size : N) :
  (2 <= argument_size)%N -> (argument_size < SIZE_MODULUS)%N ->
  (1 + num_subsets < SIZE_MODULUS)%N ->
  (forall n, check_arguments num_subsets argument_size = Normal n
             <-> argument_size = (2 + n * (1 + num_subsets))%N)
  /\ ((forall n, argument_size <> (2 + n * (1 + num_subsets))%N) ->
      forall fuel argument, size argument = argument_size ->
        read_arguments fuel num_subsets argument = Some (Raise inconsistent)).
Proof.
  intros Hlo Hhi Hns.
  pose proof (check_arguments_eq num_subsets argument_size Hlo Hhi Hns) as Hcheck.
  pose proof (N.Div0.div_mod (argument_size - 2) (1 + num_subsets)) as Hdm.
  assert (Hmul : forall n, argument_size = (2 + n * (1 + num_subsets))%N ->
                           ((argument_size - 2) mod (1 + num_subsets) = 0
                            /\ (argument_size - 2) / (1 + num_subsets) = n)%N).
  { intros n Heq.
    assert (Hsub : (argument_size - 2 = n * (1 + num_subsets))%N) by lia.
    rewrite Hsub. split; [apply N.Div0.mod_mul | apply N.div_mul; lia]. }
  destruct (N.eqb_spec ((argument_size - 2) mod (1 + num_subsets)) 0) as [Hz | Hnz].
  - rewrite Hz, N.add_0_r, N.mul_comm in Hdm. split.
    + intros n. rewrite Hcheck. split.
      * intros [= <-]. lia.
      * intros Heq. f_equal. now apply Hmul.
    + intros Hnone. exfalso.
      apply (Hnone ((argument_size - 2) / (1 + num_subsets))%N). lia.
  - split.
    + intros n. rewrite Hcheck. split; [discriminate |].
      intros Heq. exfalso. apply Hnz. now apply (Hmul n).
    + intros _ fuel argument Hsize. unfold read_arguments. now rewrite Hsize, Hcheck.
Qed.

(** Reading gives back the command line: the b-values and the sets of
    the shells, in the order of the arguments, every shell with
    [num_subsets] sets.  No index leaves [argument] or [bvalue], and as
    many turns as there are shells are enough. *)
Theorem reading_recovers_shells (fuel : nat) (num_subsets : N) (subsets out : string)
    (shells : list (string * list string)) (contents : list (value_type * list DirectionSet)) :
  Forall (fun s => size (snd s) = num_subsets) shells ->
  Forall2 (fun s c => shell_reads s (fst c) (snd c)) shells contents ->
  (size (command_line subsets shells out) < SIZE_MODULUS)%N ->
  (1 + num_subsets < SIZE_MODULUS)%N ->
  (length shells <= fuel)%nat ->
  exists r,
    read_arguments fuel num_subsets (command_line subsets shells out) = Some (Normal r)
    /\ bvalue r = map fst contents
    /\ read r = map snd contents
    /\ nb r = size shells
    /\ size_succ (current r) = size (command_line subsets shells out)
    /\ regular num_subsets (read r)
    /\ size (read r) = size (bvalue r).
Proof.
  intros Hfiles Hreads Hsize Hns Hfuel.
  rewrite (read_arguments_spec fuel num_subsets subsets out shells contents
             Hfiles Hreads Hsize Hns Hfuel).
  eexists. split; [reflexivity |]. cbn [bvalue read nb current].
  split; [reflexivity |]. split; [reflexivity |]. split; [reflexivity |].
  split; [| split].
  - unfold command_line, size, size_succ in *. cbn [length] in *.
    rewrite length_app in *. cbn [length] in *. rewrite N.mod_small; lia.
  - now apply (contents_regular num_subsets shells).
  - unfold size. now rewrite !length_map.
Qed.

(** [run] on a command line of the layout the usage describes, whose
    texts convert and whose first set is not empty: when there is one
    b-value only, or every shortfall that can arise is below the largest
    [double], the command reads the sets, merges them and ends, and the
    list it writes holds every direction read exactly once, with the shell
    and the subset it was read in. *)
Theorem run_merges_every_direction (fuel : nat) (num_subsets first : N) (subsets out : string)
    (shells : list (string * list string)) (contents : list (value_type * list DirectionSet)) :
  Forall (fun s => size (snd s) = num_subsets) shells ->
  Forall2 (fun s c => shell_reads s (fst c) (snd c)) shells contents ->
  (size (command_line subsets shells out) < SIZE_MODULUS)%N ->
  (1 + num_subsets < SIZE_MODULUS)%N ->
  (N.of_nat (length (tagged (map snd contents))) < SIZE_MODULUS)%N ->
  nonempty_at (map snd contents) 0 0 -> may_draw (map snd contents) first ->
  size shells = 1%N
  \/ shortfalls_compare (total_count (map snd contents))
                        (fractions (total_count (map snd contents)) (map snd contents)) ->
  (length shells <= fuel)%nat ->
  (N.to_nat (num_subsets * total_count (map snd contents)) <= fuel)%nat ->
  exists merged,
    run fuel num_subsets (command_line subsets shells out) first = Some (Normal merged)
    /\ merged ≡ₚ tagged (map snd contents)
    /\ size merged = total_count (map snd contents).
Proof.
  intros Hfiles Hreads Hsize Hns Hlen Hne Hdraw Hdec Hfuel1 Hfuel2. unfold run.
  rewrite (read_arguments_spec fuel num_subsets subsets out shells contents
             Hfiles Hreads Hsize Hns Hfuel1).
  cbn [bvalue read].
  pose proof (Forall2_length _ _ _ Hreads) as Hlength.
  apply merge_complete; try assumption.
  - now apply (contents_regular num_subsets shells).
  - unfold size. now rewrite !length_map.
  - lia.
  - destruct Hdec as [Hone | Hcmp]; [left | now right].
    unfold size in *. rewrite length_map. lia.
Qed.

(** When the first set of the first shell is empty, the bound of the draw
    wraps: any index may be drawn, and whichever is, the first [push] reads
    outside the set, whatever the other sets hold. *)
Theorem empty_first_set_undefined (ds : list (list DirectionSet)) :
  subset ds 0 0 = Normal [] ->
  (forall first, (first < SIZE_MODULUS)%N -> may_draw ds first)
  /\ forall fuel num_subsets num_bvalues first,
       merge fuel num_subsets num_bvalues first ds = Some Undefined.
Proof.
  intros Hset. split.
  - intros first Hfirst. exists []. split; [assumption |].
    unfold size, size_pred. cbn [length N.of_nat]. rewrite N.add_0_l, N.mod_small; lia.
  - intros fuel num_subsets num_bvalues first. unfold merge, push.
    unfold subset in Hset. cbn [dirs].
    destruct (at_index ds 0) as [shell | | | |]; try discriminate. cbn [and_then] in *.
    rewrite Hset. cbn [and_then]. unfold at_index. now rewrite lookup_nil.
Qed.

End DirmergeCommand.

Section DirmergeChoice.
Import Dirmerge.
Context `{Arithmetic}.

(** When [<] is a strict order on the values compared, the direction
    chosen has the lowest energy of its subset: no direction of the subset
    has an energy below it.  When no energy is below the largest [double]
    (two coincident directions give an infinite one), the choice is
    direction 0. *)
Theorem lowest_energy_chosen (b p : N) (st : State) (set : DirectionSet) :
  (forall x, less x x = false) ->
  (forall x y z, less x y = true -> less y z = true -> less x z = true) ->
  subset (dirs st) b p = Normal set ->
  exists n,
    find_lowest_energy_direction b p st = Normal n
    /\ ((n = 0%N
         /\ forall m E, (m < size set)%N -> energy b p m st = Normal E ->
                        less E numeric_limits_max = false)
        \/ exists En,
             (n < size set)%N /\ energy b p n st = Normal En
             /\ less En numeric_limits_max = true
             /\ forall m E, (m < size set)%N -> energy b p m st = Normal E ->
                            less E En = false).
Proof.
  intros Hirrefl Htrans Hset. unfold find_lowest_energy_direction.
  rewrite Hset. cbn [and_then].
  assert (Hdown : forall x y z, less x y = false -> less z y = true -> less x z = false).
  { intros x y z Hxy Hzy. destruct (less x z) eqn:Hxz; [| reflexivity].
    now rewrite (Htrans x z y Hxz Hzy) in Hxy. }
  destruct (for_upto_invariant
              (fun k (found : N * value_type) =>
                 (forall m E, (m < N.of_nat k)%N -> energy b p m st = Normal E ->
                              less E (snd found) = false)
                 /\ ((fst found = 0%N /\ snd found = numeric_limits_max)
                     \/ ((fst found < N.of_nat k)%N
                         /\ energy b p (fst found) st = Normal (snd found)
                         /\ less (snd found) numeric_limits_max = true)))
              (length set)
              (fun n found => let! E := energy b p n st in
                              if less E (snd found) then Normal (n, E) else Normal found)
              (0%N, numeric_limits_max)) as (found & Hrun & Hall & Hfound).
  - split; [intros m E Hm; lia | now left].
  - intros k found Hk [Hall Hfound].
    destruct (energy_returns b p (N.of_nat k) st set Hset) as [E HE]; [unfold size; lia |].
    rewrite HE. cbn [and_then]. destruct (less E (snd found)) eqn:Hless.
    + eexists. split; [reflexivity |]. cbn [fst snd]. split.
      * intros m E' Hm HE'. destruct (N.eq_dec m (N.of_nat k)) as [-> | Hneq].
        -- rewrite HE in HE'. injection HE' as <-. apply Hirrefl.
        -- apply (Hdown E' (snd found) E); [apply (Hall m); [lia | assumption] | assumption].
      * right. split; [lia |]. split; [assumption |].
        destruct Hfound as [[_ Hmax] | (_ & _ & Hbelow)]; [now rewrite <- Hmax |].
        now apply (Htrans E (snd found)).
    + eexists. split; [reflexivity |]. split.
      * intros m E' Hm HE'. destruct (N.eq_dec m (N.of_nat k)) as [-> | Hneq].
        -- rewrite HE in HE'. now injection HE' as <-.
        -- apply (Hall m); [lia | assumption].
      * destruct Hfound as [? | (Hlt & ? & ?)]; [now left | right]. split; [lia | now split].
  - unfold size. rewrite Hrun. cbn [and_then]. exists (fst found). split; [reflexivity |].
    destruct Hfound as [[H0 Hmax] | (Hlt & HE & Hbelow)].
    + left. split; [assumption |]. intros m E Hm HE. rewrite <- Hmax. now apply (Hall m).
    + right. exists (snd found). split; [assumption |]. split; [assumption |].
      split; [assumption |]. exact Hall.
Qed.

(** When [<] is a strict order on the values compared, the shell chosen
    is, among the shells that have a direction left in the subset, one that
    is furthest behind its share: none of them has a shortfall below its
    own.  When none of them has a shortfall below the largest [double], the
    choice is shell 0. *)
Theorem greatest_shortfall_chosen (num_subsets num_bvalues nPE : N) (fraction : list float)
    (st : State) :
  (forall x, less x x = false) ->
  (forall x y z, less x y = true -> less y z = true -> less x z = true) ->
  regular num_subsets (dirs st) -> size (dirs st) = num_bvalues ->
  size fraction = num_bvalues -> (nPE < num_subsets)%N ->
  exists b,
    find_shell num_bvalues nPE fraction st = Normal b
    /\ ((b = 0%N
         /\ forall n f, (n < num_bvalues)%N -> nonempty_at (dirs st) n nPE ->
                        shortfall n fraction st = Normal f ->
                        less f numeric_limits_max = false)
        \/ exists fb,
             (b < num_bvalues)%N /\ nonempty_at (dirs st) b nPE
             /\ shortfall b fraction st = Normal fb
             /\ less fb numeric_limits_max = true
             /\ forall n f, (n < num_bvalues)%N -> nonempty_at (dirs st) n nPE ->
                            shortfall n fraction st = Normal f ->
                            less f fb = false).
Proof.
  intros Hirrefl Htrans Hreg Hsize Hfrac HnPE. unfold find_shell.
  assert (Hdown : forall x y z, less x y = false -> less z y = true -> less x z = false).
  { intros x y z Hxy Hzy. destruct (less x z) eqn:Hxz; [| reflexivity].
    now rewrite (Htrans x z y Hxz Hzy) in Hxy. }
  destruct (for_upto_invariant
              (fun k (found : N * value_type) =>
                 (forall n f, (n < N.of_nat k)%N -> nonempty_at (dirs st) n nPE ->
                              shortfall n fraction st = Normal f ->
                              less f (snd found) = false)
                 /\ ((fst found = 0%N /\ snd found = numeric_limits_max)
                     \/ ((fst found < N.of_nat k)%N
                         /\ nonempty_at (dirs st) (fst found) nPE
                         /\ shortfall (fst found) fraction st = Normal (snd found)
                         /\ less (snd found) numeric_limits_max = true)))
              (N.to_nat num_bvalues)
              (fun n found =>
                 let! f_diff := shortfall n fraction st in
                 if less f_diff (snd found) then
                   let! set := subset (dirs st) n nPE in
                   if (size set =? 0)%N then Normal found else Normal (n, f_diff)
                 else Normal found)
              (0%N, numeric_limits_max)) as (found & Hrun & Hall & Hfound).
  - split; [intros n f Hn; lia | now left].
  - intros k found Hk [Hall Hfound].
    destruct (shortfall_returns (N.of_nat k) fraction st) as [f Hf]; [lia |].
    rewrite Hf. cbn [and_then].
    destruct (regular_subset num_subsets (dirs st) (N.of_nat k) nPE Hreg) as [set Hset];
      [lia | assumption |].
    assert (Hkeep : forall found',
               found' = found ->
               (nonempty_at (dirs st) (N.of_nat k) nPE -> less f (snd found) = false) ->
               (forall n f', (n < N.of_nat (S k))%N -> nonempty_at (dirs st) n nPE ->
                             shortfall n fraction st = Normal f' ->
                             less f' (snd found') = false)
               /\ ((fst found' = 0%N /\ snd found' = numeric_limits_max)
                   \/ ((fst found' < N.of_nat (S k))%N
                       /\ nonempty_at (dirs st) (fst found') nPE
                       /\ shortfall (fst found') fraction st = Normal (snd found')
                       /\ less (snd found') numeric_limits_max = true))).
    { intros found' -> Hk'. split.
      - intros n f' Hn Hne Hf'. destruct (N.eq_dec n (N.of_nat k)) as [-> | Hneq].
        + rewrite Hf in Hf'. injection Hf' as <-. now apply Hk'.
        + apply (Hall n); [lia | assumption | assumption].
      - destruct Hfound as [? | (Hlt & ? & ? & ?)]; [now left | right].
        split; [lia | now repeat split]. }
    destruct (less f (snd found)) eqn:Hless.
    + rewrite Hset. cbn [and_then].
      destruct (nonempty_or_not _ _ _ _ Hset) as [[-> Hempty] | [-> Hne]].
      * eexists. split; [reflexivity |]. apply Hkeep; [reflexivity |].
        intros Hne. contradiction.
      * eexists. split; [reflexivity |]. cbn [fst snd]. split.
        -- intros n f' Hn Hne' Hf'. destruct (N.eq_dec n (N.of_nat k)) as [-> | Hneq].
           ++ rewrite Hf in Hf'. injection Hf' as <-. apply Hirrefl.
           ++ apply (Hdown f' (snd found) f); [| assumption].
              apply (Hall n); [lia | assumption | assumption].
        -- right. split; [lia |]. split; [assumption |]. split; [assumption |].
           destruct Hfound as [[_ Hmax] | (_ & _ & _ & Hbelow)]; [now rewrite <- Hmax |].
           now apply (Htrans f (snd found)).
    + eexists. split; [reflexivity |]. apply Hkeep; [reflexivity | now intros _].
  - rewrite N2Nat.id in Hrun, Hall, Hfound. rewrite Hrun. cbn [and_then].
    exists (fst found). split; [reflexivity |].
    destruct Hfound as [[H0 Hmax] | (Hlt & Hne & Hf & Hbelow)].
    + left. split; [assumption |]. intros n f Hn Hne Hf. rewrite <- Hmax.
      now apply (Hall n).
    + right. exists (snd found). now repeat split.
Qed.

End DirmergeChoice.

(** IEEE 754 comparison is a strict order. *)
Lemma SFltb_irrefl (x : SpecFloat.spec_float) : SpecFloat.SFltb x x = false.
Proof.
  unfold SpecFloat.SFltb. destruct x as [s | s | | s m e]; cbn; try reflexivity.
  - now destruct s.
  - destruct s; rewrite Z.compare_refl, Pos.compare_cont_refl; reflexivity.
Qed.

Lemma SFltb_trans (x y z : SpecFloat.spec_float) :
  SpecFloat.SFltb x y = true -> SpecFloat.SFltb y z = true -> SpecFloat.SFltb x z = true.
Proof.
  assert (Hlex : forall e1 e2 e3 m1 m2 m3,
             match (e1 ?= e2)%Z with Lt => Lt | Gt => Gt | Eq => Pos.compare_cont Eq m1 m2 end = Lt ->
             match (e2 ?= e3)%Z with Lt => Lt | Gt => Gt | Eq => Pos.compare_cont Eq m2 m3 end = Lt ->
             match (e1 ?= e3)%Z with Lt => Lt | Gt => Gt | Eq => Pos.compare_cont Eq m1 m3 end = Lt).
  { intros e1 e2 e3 m1 m2 m3. change (Pos.compare_cont Eq) with Pos.compare.
    destruct (Z.compare_spec e1 e2), (Z.compare_spec e2 e3), (Z.compare_spec e1 e3);
      try discriminate; try lia; try reflexivity.
    rewrite !Pos.compare_lt_iff. lia. }
  assert (Hlex' : forall e1 e2 e3 m1 m2 m3,
             match (e1 ?= e2)%Z with Lt => Gt | Gt => Lt | Eq => CompOpp (Pos.compare_cont Eq m1 m2) end = Lt ->
             match (e2 ?= e3)%Z with Lt => Gt | Gt => Lt | Eq => CompOpp (Pos.compare_cont Eq m2 m3) end = Lt ->
             match (e1 ?= e3)%Z with Lt => Gt | Gt => Lt | Eq => CompOpp (Pos.compare_cont Eq m1 m3) end = Lt).
  { intros e1 e2 e3 m1 m2 m3. change (Pos.compare_cont Eq) with Pos.compare.
    destruct (Z.compare_spec e1 e2), (Z.compare_spec e2 e3), (Z.compare_spec e1 e3);
      try discriminate; try lia; try reflexivity.
    destruct (Pos.compare_spec m1 m2), (Pos.compare_spec m2 m3), (Pos.compare_spec m1 m3);
      cbn; try discriminate; try lia; try reflexivity. }
  unfold SpecFloat.SFltb.
  destruct x as [s1 | s1 | | s1 m1 e1], y as [s2 | s2 | | s2 m2 e2], z as [s3 | s3 | | s3 m3 e3];
    cbn; try discriminate; try reflexivity;
    try (destruct s1; try discriminate; try reflexivity);
    try (destruct s2; try discriminate; try reflexivity);
    try (destruct s3; try discriminate; try reflexivity).
  - intros H1 H2. specialize (Hlex' e1 e2 e3 m1 m2 m3).
    destruct (match (e1 ?= e2)%Z with Lt => Gt | Gt => Lt | Eq => CompOpp (Pos.compare_cont Eq m1 m2) end);
      try discriminate.
    destruct (match (e2 ?= e3)%Z with Lt => Gt | Gt => Lt | Eq => CompOpp (Pos.compare_cont Eq m2 m3) end);
      try discriminate.
    now rewrite Hlex'.
  - intros H1 H2. specialize (Hlex e1 e2 e3 m1 m2 m3).
    destruct (match (e1 ?= e2)%Z with Lt => Lt | Gt => Gt | Eq => Pos.compare_cont Eq m1 m2 end);
      try discriminate.
    destruct (match (e2 ?= e3)%Z with Lt => Lt | Gt => Gt | Eq => Pos.compare_cont Eq m2 m3 end);
      try discriminate.
    now rewrite Hlex.
Qed.

(** ** The statements about merging at sample inputs *)

Lemma sample_shells_read :
  Forall2 (fun s c => Dirmerge.shell_reads s (fst c) (snd c)) sample_shells sample_contents.
Proof.
  repeat constructor; cbn; try (eexists; split; reflexivity).
Qed.

Lemma sample_shortfalls_compare :
  Dirmerge.shortfalls_compare (Dirmerge.total_count sample_sets)
    (Dirmerge.fractions (Dirmerge.total_count sample_sets) sample_sets).
Proof.
  intros k m share Hk Hm1 Hm Hin.
  change (Dirmerge.total_count sample_sets) with (4%N) in *.
  assert (Hm' : (m = 1 \/ m = 2 \/ m = 3)%N) by lia.
  assert (Hk' : (k = 0 \/ k = 1 \/ k = 2 \/ k = 3)%N) by lia.
  apply list_elem_of_In in Hin. cbn [Dirmerge.fractions sample_sets sample_contents map snd In] in Hin.
  destruct Hin as [<- | [<- | []]];
    destruct Hm' as [-> | [-> | ->]]; destruct Hk' as [-> | [-> | [-> | ->]]];
    vm_compute; reflexivity.
Qed.

Lemma sample_sets_regular : Dirmerge.regular 2 sample_sets.
Proof. repeat constructor. Qed.

Lemma sample_sets_nonempty : Dirmerge.nonempty_at sample_sets 0 0.
Proof. eexists. split; [reflexivity | discriminate]. Qed.

Lemma sample_sets_draw : Dirmerge.may_draw sample_sets 1.
Proof. eexists. split; [reflexivity | vm_compute; discriminate]. Qed.

Lemma sample_shells_files :
  Forall (fun s => Dirmerge.size (snd s) = 2%N) sample_shells.
Proof. repeat constructor. Qed.

Lemma argument_count_checked_witness :
  (2 <= 8)%N /\ (8 < SIZE_MODULUS)%N /\ (1 + 2 < SIZE_MODULUS)%N
  /\ (Dirmerge.check_arguments 2 8 = Normal 2%N <-> 8%N = (2 + 2 * (1 + 2))%N).
Proof.
  assert (H1 : (2 <= 8)%N) by lia.
  assert (H2 : (8 < SIZE_MODULUS)%N) by (vm_compute; reflexivity).
  assert (H3 : (1 + 2 < SIZE_MODULUS)%N) by (vm_compute; reflexivity).
  split; [exact H1 |]. split; [exact H2 |]. split; [exact H3 |].
  exact (proj1 (argument_count_checked 2 8 H1 H2 H3) 2%N).
Defined.

Lemma reading_recovers_shells_witness :
  Forall (fun s => Dirmerge.size (snd s) = 2%N) sample_shells
  /\ Forall2 (fun s c => Dirmerge.shell_reads s (fst c) (snd c)) sample_shells sample_contents
  /\ exists r,
       Dirmerge.read_arguments 2 2 (Dirmerge.command_line "2" sample_shells "out.txt")
       = Some (Normal r)
       /\ Dirmerge.read r = sample_sets
       /\ Dirmerge.regular 2 (Dirmerge.read r).
Proof.
  split; [exact sample_shells_files |]. split; [exact sample_shells_read |].
  destruct (reading_recovers_shells 2 2 "2" "out.txt" sample_shells sample_contents
              sample_shells_files sample_shells_read
              ltac:(vm_compute; reflexivity) ltac:(vm_compute; reflexivity) ltac:(cbn; lia))
    as (r & Hread & _ & Hsets & _ & _ & Hreg & _).
  exists r. split; [exact Hread |]. split; [exact Hsets | exact Hreg].
Defined.

Lemma merge_never_undefined_witness :
  Dirmerge.regular 2 sample_sets /\ Dirmerge.nonempty_at sample_sets 0 0
  /\ Dirmerge.may_draw sample_sets 1
  /\ (Dirmerge.merge 8 2 2 1 sample_sets = None
      \/ exists set x rest,
           Dirmerge.subset sample_sets 0 0 = Normal set /\ set !! N.to_nat 1 = Some x
           /\ Dirmerge.merge 8 2 2 1 sample_sets
              = Some (Normal (Dirmerge.mkOutDir x 0 0 :: rest))
           /\ Dirmerge.mkOutDir x 0 0 :: rest ≡ₚ Dirmerge.tagged sample_sets).
Proof.
  split; [exact sample_sets_regular |]. split; [exact sample_sets_nonempty |].
  split; [exact sample_sets_draw |].
  apply (merge_never_undefined 8 2 2 1 sample_sets sample_sets_regular eq_refl).
  - vm_compute. reflexivity.
  - vm_compute. reflexivity.
  - exact sample_sets_nonempty.
  - exact sample_sets_draw.
Defined.

Lemma run_merges_every_direction_witness :
  Dirmerge.shortfalls_compare (Dirmerge.total_count sample_sets)
    (Dirmerge.fractions (Dirmerge.total_count sample_sets) sample_sets)
  /\ exists merged,
       Dirmerge.run 8 2 (Dirmerge.command_line "2" sample_shells "out.txt") 1
       = Some (Normal merged)
       /\ merged ≡ₚ Dirmerge.tagged sample_sets
       /\ Dirmerge.size merged = 4%N.
Proof.
  split; [exact sample_shortfalls_compare |].
  apply (run_merges_every_direction 8 2 1 "2" "out.txt" sample_shells sample_contents
           sample_shells_files sample_shells_read).
  - vm_compute. reflexivity.
  - vm_compute. reflexivity.
  - vm_compute. reflexivity.
  - exact sample_sets_nonempty.
  - exact sample_sets_draw.
  - right. exact sample_shortfalls_compare.
  - cbn. lia.
  - vm_compute. lia.
Defined.

Lemma empty_first_set_undefined_witness :
  Dirmerge.subset [[[]; [axis 1 0 0]]] 0 0 = Normal []
  /\ Dirmerge.may_draw [[[]; [axis 1 0 0]]] 5
  /\ Dirmerge.merge 8 2 1 5 [[[]; [axis 1 0 0]]] = Some Undefined.
Proof.
  split; [reflexivity |].
  destruct (empty_first_set_undefined [[[]; [axis 1 0 0]]] eq_refl) as [Hdraw Hmerge].
  split; [apply Hdraw; vm_compute; reflexivity | apply Hmerge].
Defined.

Lemma choice_state_reached :
  Dirmerge.push 0 0 0 (Dirmerge.mkState choice_sets []) = Normal choice_state.
Proof. reflexivity. Qed.

Lemma lowest_energy_chosen_witness :
  Dirmerge.subset (Dirmerge.dirs choice_state) 0 0
  = Normal [axis 1 1 0; axis 0 1 0; axis 0 1 1]
  /\ Dirmerge.find_lowest_energy_direction 0 0 choice_state = Normal 2%N
  /\ exists E2,
       Dirmerge.energy 0 0 2 choice_state = Normal E2
       /\ Dirmerge.less E2 Dirmerge.numeric_limits_max = true
       /\ (forall m E, (m < 3)%N -> Dirmerge.energy 0 0 m choice_state = Normal E ->
                       Dirmerge.less E E2 = false)
       /\ exists E0 E1,
            Dirmerge.energy 0 0 0 choice_state = Normal E0
            /\ Dirmerge.energy 0 0 1 choice_state = Normal E1
            /\ Dirmerge.less E1 E0 = true
            /\ Dirmerge.less E2 E1 = true.
Proof.
  split; [reflexivity |].
  destruct (lowest_energy_chosen 0 0 choice_state [axis 1 1 0; axis 0 1 0; axis 0 1 1]
              SFltb_irrefl SFltb_trans eq_refl) as (n & Hn & Hbest).
  assert (Hrun : Dirmerge.find_lowest_energy_direction 0 0 choice_state = Normal 2%N)
    by (vm_compute; reflexivity).
  rewrite Hrun in Hn. injection Hn as <-.
  split; [exact Hrun |].
  destruct Hbest as [[Hzero _] | (En & _ & HEn & Hbelow & Hleast)]; [discriminate Hzero |].
  exists En.
  split; [exact HEn |]. split; [exact Hbelow |]. split; [exact Hleast |].
  pose proof HEn as Hvalue. vm_compute in Hvalue. injection Hvalue as Hvalue.
  rewrite <- Hvalue.
  eexists _, _.
  split; [vm_compute; reflexivity |]. split; [vm_compute; reflexivity |].
  split; vm_compute; reflexivity.
Defined.

Lemma greatest_shortfall_chosen_witness :
  Dirmerge.regular 2 (Dirmerge.dirs choice_state)
  /\ Dirmerge.nonempty_at (Dirmerge.dirs choice_state) 0 1
  /\ Dirmerge.find_shell 2 1 (Dirmerge.fractions 7 choice_sets) choice_state = Normal 1%N
  /\ exists f1,
       Dirmerge.nonempty_at (Dirmerge.dirs choice_state) 1 1
       /\ Dirmerge.shortfall 1 (Dirmerge.fractions 7 choice_sets) choice_state = Normal f1
       /\ Dirmerge.less f1 Dirmerge.numeric_limits_max = true
       /\ (forall n f, (n < 2)%N -> Dirmerge.nonempty_at (Dirmerge.dirs choice_state) n 1 ->
                       Dirmerge.shortfall n (Dirmerge.fractions 7 choice_sets) choice_state
                       = Normal f ->
                       Dirmerge.less f f1 = false)
       /\ exists f0,
            Dirmerge.shortfall 0 (Dirmerge.fractions 7 choice_sets) choice_state = Normal f0
            /\ Dirmerge.less f1 f0 = true.
Proof.
  assert (Hreg : Dirmerge.regular 2 (Dirmerge.dirs choice_state)) by repeat constructor.
  split; [exact Hreg |].
  destruct (greatest_shortfall_chosen 2 2 1 (Dirmerge.fractions 7 choice_sets) choice_state
              SFltb_irrefl SFltb_trans Hreg eq_refl eq_refl ltac:(lia)) as (b & Hb & Hbest).
  assert (Hrun : Dirmerge.find_shell 2 1 (Dirmerge.fractions 7 choice_sets) choice_state
                 = Normal 1%N) by (vm_compute; reflexivity).
  rewrite Hrun in Hb. injection Hb as <-.
  destruct Hbest as [[Hzero _] | (fb & _ & Hne1 & Hfb & Hbelow & Hleast)];
    [discriminate Hzero |].
  split. { exists [axis 0 0 1]. split; [reflexivity | intros Hnil; discriminate Hnil]. }
  split; [exact Hrun |].
  exists fb.
  split; [exact Hne1 |]. split; [exact Hfb |]. split; [exact Hbelow |].
  split; [exact Hleast |].
  pose proof Hfb as Hvalue. vm_compute in Hvalue. injection Hvalue as Hvalue.
  rewrite <- Hvalue.
  eexists. split; vm_compute; reflexivity.
Defined.

(** * The models of the file dialog: properties *)

Section DialogSeries.
Import Dialog.
Context {Series : Type}.

Lemma foldl_concat {A B} (f : A -> B -> A) (a : A) (ls : list (list B)) :
  foldl (fun acc l => foldl f acc l) a ls = foldl f a (concat ls).
Proof.
  revert a. induction ls as [| l ls IH]; intros a; [reflexivity |].
  cbn [foldl concat]. now rewrite foldl_app, IH.
Qed.

Lemma scan_flat (tree : list (list (list Series))) (index : N) :
  FileModel.scan tree index
  = foldl (FileModel.scan_step index) (0%N, None) (FileModel.all_series tree).
Proof.
  unfold FileModel.scan, FileModel.all_series.
  rewrite <- (foldl_concat (FileModel.scan_step index)).
  now rewrite <- (foldl_concat (fun acc l => foldl (FileModel.scan_step index) acc l)).
Qed.

Lemma scan_found (index : N) (l : list Series) (i : N) (s : Series) :
  foldl (FileModel.scan_step index) (i, Some s) l = (i, Some s).
Proof. induction l as [| x l IH]; [reflexivity | exact IH]. Qed.

(** The counter runs over the series in order and stops at [index]. *)
Lemma scan_flat_spec (index : N) (l : list Series) (i : N) :
  (i + N.of_nat (length l) < SIZE_MODULUS)%N -> (i <= index)%N ->
  snd (foldl (FileModel.scan_step index) (i, None) l) = l !! N.to_nat (index - i).
Proof.
  revert i. induction l as [| x l IH]; intros i Hbound Hi; [reflexivity |].
  cbn [foldl length] in *. unfold FileModel.scan_step at 2. cbn [fst snd].
  assert (Hsucc : size_succ i = (i + 1)%N) by (unfold size_succ; apply N.mod_small; lia).
  rewrite Hsucc. destruct (N.eqb_spec i index) as [-> | Hneq].
  - rewrite scan_found, N.sub_diag. reflexivity.
  - rewrite IH by lia.
    replace (N.to_nat (index - i)) with (S (N.to_nat (index - (i + 1)))) by lia.
    reflexivity.
Qed.

Lemma count_series_flat (tree : list (list (list Series))) :
  (N.of_nat (length (FileModel.all_series tree)) < SIZE_MODULUS)%N ->
  FileModel.count_series tree = N.of_nat (length (FileModel.all_series tree)).
Proof.
  unfold FileModel.count_series, FileModel.all_series.
  assert (Hgen : forall (studies : list (list Series)) n,
             (foldl (fun n study => size_add n (N.of_nat (length study))) n studies
              mod SIZE_MODULUS
              = (n + N.of_nat (length (concat studies))) mod SIZE_MODULUS)%N).
  { induction studies as [| study studies IH]; intros n; cbn [foldl concat].
    - now rewrite N.add_0_r.
    - rewrite IH, length_app. unfold size_add. rewrite N.Div0.add_mod_idemp_l.
      f_equal. lia. }
  assert (Hlt : forall (studies : list (list Series)) n, (n < SIZE_MODULUS)%N ->
             (foldl (fun n study => size_add n (N.of_nat (length study))) n studies
              < SIZE_MODULUS)%N).
  { induction studies as [| study studies IH]; intros n Hn; cbn [foldl]; [assumption |].
    apply IH. unfold size_add. now apply N.mod_lt. }
  rewrite foldl_concat. intros Hbound.
  rewrite <- (N.mod_small _ _ (Hlt (concat tree) 0%N ltac:(reflexivity))).
  rewrite Hgen, N.add_0_l. now apply N.mod_small.
Qed.

End DialogSeries.

Section DialogConversions.
Import Dialog.

Lemma int_of_size_t_small (n : N) :
  (Z.of_N n <= INT_MAX)%Z -> int_of_size_t n = Z.of_N n.
Proof.
  intros Hn. unfold int_of_size_t, INT_MAX in *.
  rewrite Z.mod_small by lia.
  destruct (Z.leb_spec (Z.of_N n) (2 ^ 31 - 1)); [reflexivity | lia].
Qed.

Lemma size_t_of_int_small (z : Z) :
  (0 <= z)%Z -> (z <= INT_MAX)%Z -> size_t_of_int z = Z.to_N z.
Proof.
  intros Hlo Hhi. unfold size_t_of_int, INT_MAX, SIZE_MODULUS in *.
  rewrite Z.mod_small; [reflexivity |]. change (Z.of_N (2 ^ 64)) with (2 ^ 64)%Z. lia.
Qed.

Lemma int_in_range {S} (z : Z) (s : S) :
  (INT_MIN <= z)%Z -> (z <= INT_MAX)%Z -> int z s = (Normal z, s).
Proof.
  intros Hlo Hhi. unfold int.
  destruct (Z.leb_spec INT_MIN z); [| lia]. destruct (Z.leb_spec z INT_MAX); [| lia].
  reflexivity.
Qed.

Lemma at_lookup {A} (v : list A) (i : nat) :
  at_ v (Z.of_nat i) = match v !! i with Some a => Normal a | None => Undefined end.
Proof.
  unfold at_. destruct (Z.ltb_spec (Z.of_nat i) 0); [lia |]. now rewrite Nat2Z.id.
Qed.

End DialogConversions.

Section DialogFiles.
Import Dialog.
Context {Series : Type}.
Variable display_text : Series -> string.
Variable tool_tip_text : Series -> string.

Lemma get_dicom_series_below (ndebug : bool) (index : N) (m : @FileModel.t Series) :
  (N.of_nat (length (FileModel.all_series (FileModel.dicom_tree m))) < SIZE_MODULUS)%N ->
  FileModel.num_dicom_series m = FileModel.count_series (FileModel.dicom_tree m) ->
  (index < FileModel.num_dicom_series m)%N ->
  exists series,
    FileModel.all_series (FileModel.dicom_tree m) !! N.to_nat index = Some series
    /\ FileModel.get_dicom_series ndebug index m = Normal series.
Proof.
  intros Hbound Hnum. rewrite Hnum, (count_series_flat _ Hbound). intros Hindex.
  pose proof (scan_flat_spec index (FileModel.all_series (FileModel.dicom_tree m)) 0
                ltac:(lia) ltac:(lia)) as Hscan.
  rewrite N.sub_0_r, <- scan_flat in Hscan.
  unfold FileModel.get_dicom_series. rewrite Hnum, (count_series_flat _ Hbound), Hscan.
  destruct (lookup_lt_is_Some_2 (FileModel.all_series (FileModel.dicom_tree m))
              (N.to_nat index)) as [series Hseries]; [lia |].
  exists series. split; [assumption |]. rewrite Hseries.
  destruct (N.ltb_spec index (N.of_nat (length (FileModel.all_series (FileModel.dicom_tree m)))));
    [| lia].
  now rewrite andb_false_r.
Qed.

(** [get_dicom_series] numbers the series patient by patient and study by
    study: below the number of series in the tree it returns the series of
    that number.  From that number on, it fails its assertion, or with the
    assertions compiled out returns the first series of the first study of
    the first patient, which need not exist. *)
Theorem dicom_series_by_row (ndebug : bool) (index : N) (m : @FileModel.t Series) :
  (N.of_nat (length (FileModel.all_series (FileModel.dicom_tree m))) < SIZE_MODULUS)%N ->
  FileModel.num_dicom_series m = FileModel.count_series (FileModel.dicom_tree m) ->
  ((index < FileModel.num_dicom_series m)%N ->
   exists series,
     FileModel.all_series (FileModel.dicom_tree m) !! N.to_nat index = Some series
     /\ FileModel.get_dicom_series ndebug index m = Normal series)
  /\ ((FileModel.num_dicom_series m <= index)%N ->
      FileModel.get_dicom_series ndebug index m
      = if ndebug then
          match FileModel.dicom_tree m with
          | ((series :: _) :: _) :: _ => Normal series
          | _ => Undefined
          end
        else Abort).
Proof.
  intros Hbound Hnum. split; [now apply get_dicom_series_below |].
  rewrite Hnum, (count_series_flat _ Hbound). intros Hindex.
  pose proof (scan_flat_spec index (FileModel.all_series (FileModel.dicom_tree m)) 0
                ltac:(lia) ltac:(lia)) as Hscan.
  rewrite N.sub_0_r, <- scan_flat in Hscan.
  unfold FileModel.get_dicom_series. rewrite Hnum, (count_series_flat _ Hbound), Hscan.
  destruct (N.ltb_spec index (N.of_nat (length (FileModel.all_series (FileModel.dicom_tree m)))));
    [lia |].
  destruct ndebug; [| reflexivity]. cbn [negb andb].
  rewrite (lookup_ge_None_2 _ (N.to_nat index)) by lia.
  destruct (FileModel.dicom_tree m) as [| [| [| series study] patient] tree]; reflexivity.
Qed.

(** In a model whose count of series is up to date, the rows are the
    series of the tree in order, then the files in the order of [list]:
    [data] gives for each row the text of that entry, and no text from the
    number of rows on. *)
Theorem rows_are_series_then_files (ndebug : bool) (r : nat) (m : @FileModel.t Series) :
  FileModel.num_dicom_series m = FileModel.count_series (FileModel.dicom_tree m) ->
  (Z.of_nat (length (FileModel.all_series (FileModel.dicom_tree m))
             + length (FileModel.list_ m)) <= INT_MAX)%Z ->
  (Z.of_nat r <= INT_MAX)%Z ->
  FileModel.data display_text tool_tip_text ndebug (mkIndex true (Z.of_nat r)) DisplayRole m
  = match (map display_text (FileModel.all_series (FileModel.dicom_tree m))
           ++ FileModel.list_ m) !! r with
    | Some text => Normal (QVariant_string text)
    | None => Normal QVariant_invalid
    end.
Proof.
  intros Hnum Hbound Hr.
  assert (Hflat : (N.of_nat (length (FileModel.all_series (FileModel.dicom_tree m)))
                   < SIZE_MODULUS)%N).
  { unfold INT_MAX, SIZE_MODULUS in *. lia. }
  pose proof (count_series_flat _ Hflat) as Hcount.
  pose proof (get_dicom_series_below ndebug (N.of_nat r) m Hflat Hnum) as Hbelow.
  unfold FileModel.data. cbn [isValid row is_DisplayRole].
  rewrite Hnum, Hcount in *.
  rewrite int_of_size_t_small by (unfold INT_MAX in *; lia).
  rewrite size_t_of_int_small by lia.
  replace (Z.to_N (Z.of_nat r)) with (N.of_nat r) by lia.
  destruct (Z.ltb_spec (Z.of_nat r)
              (Z.of_N (N.of_nat (length (FileModel.all_series (FileModel.dicom_tree m))))))
    as [Hlt | Hge].
  - destruct Hbelow as (series & Hseries & ->); [lia |].
    rewrite Nat2N.id in Hseries.
    rewrite lookup_app_l by (rewrite length_map; lia).
    now rewrite list_lookup_fmap, Hseries.
  - unfold size_add. rewrite N.mod_small by (unfold INT_MAX, SIZE_MODULUS in *; lia).
    rewrite int_of_size_t_small by (unfold INT_MAX in *; lia).
    rewrite lookup_app_r by (rewrite length_map; lia). rewrite length_map.
    assert (Hsub : N.to_nat (size_sub (N.of_nat r)
                      (N.of_nat (length (FileModel.all_series (FileModel.dicom_tree m)))))
                   = (r - length (FileModel.all_series (FileModel.dicom_tree m)))%nat).
    { unfold size_sub. rewrite (N.mod_small (N.of_nat (length _))) by assumption.
      replace (N.of_nat r + (SIZE_MODULUS - N.of_nat (length (FileModel.all_series (FileModel.dicom_tree m)))))%N
        with (N.of_nat (r - length (FileModel.all_series (FileModel.dicom_tree m)))
              + 1 * SIZE_MODULUS)%N by lia.
      rewrite N.Div0.mod_add, N.mod_small by (unfold INT_MAX, SIZE_MODULUS in *; lia).
      lia. }
    rewrite Hsub.
    destruct (Z.ltb_spec (Z.of_nat r)
                (Z.of_N (N.of_nat (length (FileModel.all_series (FileModel.dicom_tree m)))
                         + N.of_nat (length (FileModel.list_ m))))) as [Hlt' | Hge'].
    + destruct (lookup_lt_is_Some_2 (FileModel.list_ m)
                  (r - length (FileModel.all_series (FileModel.dicom_tree m)))) as [name ->];
        [lia | reflexivity].
    + now rewrite lookup_ge_None_2 by lia.
Qed.

End DialogFiles.

Section DialogFolders.
Import Dialog.

Lemma folder_data_lookup (i : nat) (m : FolderModel.t) :
  FolderModel.data (mkIndex true (Z.of_nat i)) DisplayRole m
  = match FolderModel.list_ m !! i with
    | Some name => Normal (QVariant_string name)
    | None => Normal QVariant_invalid
    end.
Proof.
  unfold FolderModel.data. cbn [isValid row is_DisplayRole andb].
  rewrite andb_true_r, at_lookup.
  destruct (Z.ltb_spec (Z.of_nat i) (Z.of_nat (length (FolderModel.list_ m)))) as [Hlt | Hge].
  - destruct (lookup_lt_is_Some_2 (FolderModel.list_ m) i) as [name ->]; [lia | reflexivity].
  - now rewrite lookup_ge_None_2 by lia.
Qed.

Lemma folder_add_entries_eq (more : list string) (m : FolderModel.t) :
  more <> [] ->
  (Z.of_nat (length (FolderModel.list_ m) + length more) <= INT_MAX)%Z ->
  FolderModel.add_entries more m
  = (Normal tt,
     FolderModel.mk (FolderModel.list_ m ++ more)
       (FolderModel.signals m
        ++ [BeginInsertRows (Z.of_nat (length (FolderModel.list_ m)))
                            (Z.of_nat (length (FolderModel.list_ m) + length more) - 1);
            EndInsertRows; LayoutChanged])).
Proof.
  intros Hmore Hbound. destruct more as [| name more]; [congruence |].
  unfold FolderModel.add_entries.
  set (k := length (name :: more)) in *.
  assert (Hk : (1 <= k)%nat) by (unfold k; cbn [length]; lia).
  unfold INT_MAX in Hbound.
  unfold bind at 1. unfold gets at 1.
  unfold bind at 1. rewrite int_in_range by (unfold INT_MIN, INT_MAX; lia).
  unfold bind at 1. rewrite int_in_range by (unfold INT_MIN, INT_MAX; lia).
  unfold bind, FolderModel.notify, modify. cbn [FolderModel.list_ FolderModel.signals].
  rewrite <- !app_assoc. cbn [app]. do 5 f_equal. lia.
Qed.

Lemma folder_clear_eq (m : FolderModel.t) :
  (Z.of_nat (length (FolderModel.list_ m)) <= INT_MAX)%Z ->
  FolderModel.clear m
  = (Normal tt,
     FolderModel.mk []
       (FolderModel.signals m
        ++ match FolderModel.list_ m with
           | [] => []
           | _ :: _ => [BeginRemoveRows 0 (Z.of_nat (length (FolderModel.list_ m)) - 1);
                        EndRemoveRows]
           end
        ++ [LayoutChanged])).
Proof.
  intros Hbound. unfold FolderModel.clear. unfold INT_MAX in Hbound.
  unfold bind at 1. unfold gets at 1. unfold bind at 1.
  destruct m as [[| name names] sigs]; cbn [FolderModel.list_ FolderModel.signals length] in *.
  - reflexivity.
  - destruct (Z.eqb_spec (Z.of_nat (S (length names))) 0); [lia |].
    unfold bind at 1. rewrite int_in_range by (unfold INT_MIN, INT_MAX; lia).
    unfold bind, FolderModel.notify, modify. cbn [FolderModel.list_ FolderModel.signals].
    now rewrite <- !app_assoc.
Qed.

(** [FolderModel::add_entries] announces the rows it adds: the range it
    passes to [beginInsertRows] runs from the former number of rows to the
    new last row, the rows it had keep their text, and the rows of the
    range show the new entries in order. *)
Theorem folder_rows_announced (more : list string) (m : FolderModel.t) :
  more <> [] ->
  (Z.of_nat (length (FolderModel.list_ m) + length more) <= INT_MAX)%Z ->
  exists m',
    FolderModel.add_entries more m = (Normal tt, m')
    /\ FolderModel.signals m'
       = FolderModel.signals m
         ++ [BeginInsertRows (FolderModel.rowCount m) (FolderModel.rowCount m' - 1);
             EndInsertRows; LayoutChanged]
    /\ FolderModel.rowCount m' = (FolderModel.rowCount m + Z.of_nat (length more))%Z
    /\ (forall i name, FolderModel.list_ m !! i = Some name ->
          FolderModel.data (mkIndex true (Z.of_nat i)) DisplayRole m'
          = Normal (QVariant_string name))
    /\ (forall i name, more !! i = Some name ->
          FolderModel.data (mkIndex true (FolderModel.rowCount m + Z.of_nat i)) DisplayRole m'
          = Normal (QVariant_string name)).
Proof.
  intros Hmore Hbound. eexists. split; [now apply folder_add_entries_eq |].
  unfold FolderModel.rowCount. cbn [FolderModel.list_ FolderModel.signals].
  rewrite length_app. split; [reflexivity |]. split; [lia |]. split.
  - intros i name Hi. rewrite folder_data_lookup. cbn [FolderModel.list_].
    now rewrite (lookup_app_l_Some _ _ _ _ Hi).
  - intros i name Hi. rewrite <- Nat2Z.inj_add, folder_data_lookup. cbn [FolderModel.list_].
    now rewrite lookup_app_r, Nat.add_sub', Hi by lia.
Qed.

(** Refilling the folder model as [File::update] does, [clear()] and then
    [add_entries()]: the model holds the new entries and nothing else, and
    has announced the removal of every row it had and the insertion of
    every row it has. *)
Theorem folder_refilled (more : list string) (m : FolderModel.t) :
  (Z.of_nat (length (FolderModel.list_ m)) <= INT_MAX)%Z ->
  (Z.of_nat (length more) <= INT_MAX)%Z ->
  exists m',
    (FolderModel.clear >> FolderModel.add_entries more) m = (Normal tt, m')
    /\ FolderModel.list_ m' = more
    /\ FolderModel.signals m'
       = FolderModel.signals m
         ++ (if decide (FolderModel.rowCount m = 0%Z)
             then []
             else [BeginRemoveRows 0 (FolderModel.rowCount m - 1); EndRemoveRows])
         ++ [LayoutChanged]
         ++ (if decide (FolderModel.rowCount m' = 0%Z)
             then []
             else [BeginInsertRows 0 (FolderModel.rowCount m' - 1); EndInsertRows;
                   LayoutChanged]).
Proof.
  intros Hold Hnew. unfold bind at 1. rewrite folder_clear_eq by assumption.
  destruct more as [| name more].
  - eexists. split; [reflexivity |]. cbn [FolderModel.list_ FolderModel.signals].
    split; [reflexivity |]. unfold FolderModel.rowCount. cbn [FolderModel.list_ length].
    rewrite app_nil_r.
    destruct (FolderModel.list_ m) as [| x l]; cbn [length];
      destruct (decide (_ = 0)%Z) as [Hz | Hz]; try lia; try reflexivity.
  - rewrite folder_add_entries_eq by (cbn [FolderModel.list_ length] in *; congruence || lia).
    eexists. split; [reflexivity |]. cbn [FolderModel.list_ FolderModel.signals app].
    split; [reflexivity |]. unfold FolderModel.rowCount. cbn [FolderModel.list_ length].
    rewrite <- !app_assoc. f_equal.
    destruct (FolderModel.list_ m) as [| x l]; cbn [length];
      destruct (decide (_ = 0)%Z) as [Hz | Hz]; try lia;
      destruct (decide (Z.of_nat (S (length more)) = 0)%Z) as [Hz' | Hz']; try lia;
      cbn [app]; repeat f_equal; lia.
Qed.

End DialogFolders.

Section DialogFileModel.
Import Dialog.
Context {Series : Type}.

#[local] Instance string_le_total : Total string_le.
Proof. intros a b. unfold string_le. apply String.leb_total. Qed.

Lemma size_sub_one (n : N) :
  (Z.of_N n <= INT_MAX)%Z -> int_of_size_t (size_sub n 1) = (Z.of_N n - 1)%Z.
Proof.
  intros Hn. unfold INT_MAX in Hn. destruct (N.eq_dec n 0%N) as [-> | Hpos].
  - vm_compute. reflexivity.
  - unfold size_sub. rewrite (N.mod_small 1) by (unfold SIZE_MODULUS; lia).
    replace (n + (SIZE_MODULUS - 1))%N with (n - 1 + 1 * SIZE_MODULUS)%N
      by (unfold SIZE_MODULUS; lia).
    rewrite N.Div0.mod_add, N.mod_small by (unfold SIZE_MODULUS; lia).
    rewrite int_of_size_t_small by (unfold INT_MAX; lia). lia.
Qed.

Lemma size_add_exact (a b : N) :
  (Z.of_N a + Z.of_N b <= INT_MAX)%Z -> size_add a b = (a + b)%N.
Proof.
  intros Hab. unfold size_add. apply N.mod_small. unfold INT_MAX, SIZE_MODULUS in *. lia.
Qed.

(** [FileModel::clear] announces the removal of the rows of the files
    only: the range it passes to [beginRemoveRows] ends at [list.size()-1]
    while the model loses [list.size() + num_dicom_series] rows.  With series
    and no file, the range is (0, -1). *)
Theorem file_clear_announces_files_only (m : @FileModel.t Series) :
  (Z.of_nat (length (FileModel.list_ m)) + Z.of_N (FileModel.num_dicom_series m) <= INT_MAX)%Z ->
  (0 < FileModel.rowCount m)%Z ->
  exists m',
    FileModel.clear m = (Normal tt, m')
    /\ FileModel.signals m'
       = FileModel.signals m
         ++ [BeginRemoveRows 0 (Z.of_nat (length (FileModel.list_ m)) - 1);
             EndRemoveRows; LayoutChanged]
    /\ FileModel.rowCount m
       = (Z.of_nat (length (FileModel.list_ m)) + Z.of_N (FileModel.num_dicom_series m))%Z
    /\ FileModel.rowCount m' = 0%Z
    /\ FileModel.list_ m' = [] /\ FileModel.dicom_tree m' = [].
Proof.
  intros Hbound Hrows. unfold FileModel.rowCount in *.
  assert (Hadd : size_add (N.of_nat (length (FileModel.list_ m))) (FileModel.num_dicom_series m)
                 = (N.of_nat (length (FileModel.list_ m)) + FileModel.num_dicom_series m)%N)
    by (apply size_add_exact; lia).
  rewrite Hadd in *. rewrite int_of_size_t_small in Hrows by lia.
  rewrite int_of_size_t_small by lia.
  unfold FileModel.clear. unfold bind at 1. unfold gets at 1. unfold bind at 1.
  unfold id. rewrite Hadd.
  destruct (N.eqb_spec (N.of_nat (length (FileModel.list_ m)) + FileModel.num_dicom_series m) 0%N)
    as [Hz | Hnz]; [lia |].
  unfold bind, FileModel.notify, modify.
  cbn [FileModel.list_ FileModel.dicom_tree FileModel.num_dicom_series FileModel.signals].
  eexists. split; [reflexivity |].
  cbn [FileModel.list_ FileModel.dicom_tree FileModel.num_dicom_series FileModel.signals].
  rewrite size_sub_one by lia. rewrite <- !app_assoc. cbn [app].
  split; [do 4 f_equal; lia |]. split; [lia |]. split; [reflexivity |]. now split.
Qed.

(** [FileModel::add_entries] brings the count of series up to date.  With
    nothing to add and the count unchanged it leaves [list] as it was and
    sends nothing.  In every other case [list] is afterwards in order and
    holds the names it held and the new ones, and the model announces the
    rows it has gained, placed after the rows it had, and then the change
    of layout. *)
Theorem file_entries_sorted (more : list string) (m : @FileModel.t Series) :
  (Z.of_nat (length (FileModel.list_ m) + length more)
   + Z.of_N (FileModel.count_series (FileModel.dicom_tree m)) <= INT_MAX)%Z ->
  exists m',
    FileModel.add_entries more m = (Normal tt, m')
    /\ FileModel.num_dicom_series m' = FileModel.count_series (FileModel.dicom_tree m)
    /\ FileModel.dicom_tree m' = FileModel.dicom_tree m
    /\ (more = [] ->
        FileModel.num_dicom_series m = FileModel.count_series (FileModel.dicom_tree m) ->
        FileModel.list_ m' = FileModel.list_ m
        /\ FileModel.signals m' = FileModel.signals m)
    /\ (more <> []
        \/ FileModel.num_dicom_series m <> FileModel.count_series (FileModel.dicom_tree m) ->
        Sorted string_le (FileModel.list_ m')
        /\ FileModel.list_ m' ≡ₚ FileModel.list_ m ++ more
        /\ FileModel.signals m'
           = FileModel.signals m
             ++ [BeginInsertRows (FileModel.rowCount m) (FileModel.rowCount m' - 1);
                 EndInsertRows; LayoutChanged]).
Proof.
  intros Hnew. unfold FileModel.add_entries.
  unfold bind at 1. unfold gets at 1. unfold bind at 1. unfold modify at 1.
  unfold bind at 1. unfold gets at 1. unfold id.
  cbn [FileModel.list_ FileModel.dicom_tree FileModel.num_dicom_series FileModel.signals].
  set (num := FileModel.count_series (FileModel.dicom_tree m)) in *.
  destruct (match more with [] => true | _ :: _ => false end
            && (FileModel.num_dicom_series m =? num)%N) eqn:Hearly.
  - apply andb_prop in Hearly as [Hmore Hsame]. apply N.eqb_eq in Hsame.
    destruct more; [| discriminate].
    eexists. split; [reflexivity |].
    cbn [FileModel.list_ FileModel.dicom_tree FileModel.num_dicom_series FileModel.signals].
    split; [reflexivity |]. split; [reflexivity |].
    split; [intros _ _; split; reflexivity |].
    intros [Hne | Hne]; [now destruct Hne | contradiction].
  - unfold bind, FileModel.notify, modify.
    cbn [FileModel.list_ FileModel.dicom_tree FileModel.num_dicom_series FileModel.signals].
    eexists. split; [reflexivity |].
    cbn [FileModel.list_ FileModel.dicom_tree FileModel.num_dicom_series FileModel.signals].
    split; [reflexivity |]. split; [reflexivity |].
    split.
    { intros -> Hsame. rewrite Hsame, N.eqb_refl in Hearly. discriminate Hearly. }
    intros _.
    split; [apply Sorted_merge_sort; apply _ |].
    split; [apply merge_sort_Permutation |].
    rewrite <- !app_assoc. cbn [app]. unfold FileModel.rowCount.
    cbn [FileModel.list_ FileModel.dicom_tree FileModel.num_dicom_series FileModel.signals].
    do 2 f_equal. f_equal.
    assert (Hlen : length (sort (FileModel.list_ m ++ more))
                   = (length (FileModel.list_ m) + length more)%nat).
    { unfold sort. rewrite (Permutation_length (merge_sort_Permutation _ _)).
      apply length_app. }
    rewrite Hlen.
    rewrite (size_add_exact (N.of_nat (length (FileModel.list_ m))) (N.of_nat (length more)))
      by lia.
    rewrite (size_add_exact _ num) by lia.
    rewrite (size_add_exact _ num) by lia.
    rewrite size_sub_one by lia. rewrite int_of_size_t_small by lia. lia.
Qed.

End DialogFileModel.

(** ** The statements about the models at sample inputs *)

Lemma dicom_series_by_row_witness :
  Dialog.FileModel.num_dicom_series sample_file_model
  = Dialog.FileModel.count_series (Dialog.FileModel.dicom_tree sample_file_model)
  /\ (exists series,
        Dialog.FileModel.all_series sample_tree !! 2%nat = Some series
        /\ Dialog.FileModel.get_dicom_series true 2 sample_file_model = Normal series)
  /\ Dialog.FileModel.get_dicom_series true 3 sample_file_model = Normal "T1"
  /\ Dialog.FileModel.get_dicom_series false 3 sample_file_model = Abort.
Proof.
  split; [reflexivity |].
  destruct (dicom_series_by_row true 2 sample_file_model
              ltac:(vm_compute; reflexivity) eq_refl) as [Hbelow _].
  destruct (dicom_series_by_row true 3 sample_file_model
              ltac:(vm_compute; reflexivity) eq_refl) as [_ Hfrom].
  destruct (dicom_series_by_row false 3 sample_file_model
              ltac:(vm_compute; reflexivity) eq_refl) as [_ Hfrom'].
  split; [apply Hbelow; vm_compute; reflexivity |].
  split; [apply Hfrom | apply Hfrom']; vm_compute; discriminate.
Defined.

Lemma rows_are_series_then_files_witness :
  Dialog.FileModel.data id id true (Dialog.mkIndex true 3) Dialog.DisplayRole sample_file_model
  = Normal (Dialog.QVariant_string "a.mif")
  /\ Dialog.FileModel.data id id true (Dialog.mkIndex true 5) Dialog.DisplayRole
       sample_file_model
     = Normal Dialog.QVariant_invalid.
Proof.
  split.
  - exact (rows_are_series_then_files id id true 3 sample_file_model eq_refl
             ltac:(vm_compute; discriminate) ltac:(vm_compute; discriminate)).
  - exact (rows_are_series_then_files id id true 5 sample_file_model eq_refl
             ltac:(vm_compute; discriminate) ltac:(vm_compute; discriminate)).
Defined.

Lemma folder_rows_announced_witness :
  exists m',
    Dialog.FolderModel.add_entries ["lib"] sample_folder_model = (Normal tt, m')
    /\ Dialog.FolderModel.signals m'
       = [Dialog.BeginInsertRows 2 2; Dialog.EndInsertRows; Dialog.LayoutChanged]
    /\ Dialog.FolderModel.data (Dialog.mkIndex true 2) Dialog.DisplayRole m'
       = Normal (Dialog.QVariant_string "lib").
Proof.
  destruct (folder_rows_announced ["lib"] sample_folder_model
              ltac:(discriminate) ltac:(vm_compute; discriminate))
    as (m' & Hadd & Hsignals & Hrows & _ & Hnew).
  exists m'. split; [exact Hadd |]. split.
  - rewrite Hsignals, Hrows. reflexivity.
  - exact (Hnew 0%nat "lib" eq_refl).
Defined.

Lemma folder_refilled_witness :
  exists m',
    (Dialog.FolderModel.clear >> Dialog.FolderModel.add_entries ["lib"]) sample_folder_model
    = (Normal tt, m')
    /\ Dialog.FolderModel.list_ m' = ["lib"].
Proof.
  destruct (folder_refilled ["lib"] sample_folder_model
              ltac:(vm_compute; discriminate) ltac:(vm_compute; discriminate))
    as (m' & Hrun & Hlist & _).
  exists m'. split; [exact Hrun | exact Hlist].
Defined.

Lemma file_clear_announces_files_only_witness :
  exists m',
    Dialog.FileModel.clear series_only_model = (Normal tt, m')
    /\ Dialog.FileModel.signals m'
       = [Dialog.BeginRemoveRows 0 (-1); Dialog.EndRemoveRows; Dialog.LayoutChanged]
    /\ Dialog.FileModel.rowCount series_only_model = 3%Z
    /\ Dialog.FileModel.rowCount m' = 0%Z.
Proof.
  destruct (file_clear_announces_files_only series_only_model
              ltac:(vm_compute; discriminate) ltac:(vm_compute; reflexivity))
    as (m' & Hclear & Hsignals & Hrows & Hrows' & _).
  exists m'. split; [exact Hclear |]. split; [exact Hsignals |].
  split; [exact Hrows | exact Hrows'].
Defined.

Lemma file_entries_sorted_witness :
  (exists m',
     Dialog.FileModel.add_entries ["b.mif"] stale_file_model = (Normal tt, m')
     /\ Dialog.FileModel.num_dicom_series m' = 3%N
     /\ Sorted Dialog.string_le (Dialog.FileModel.list_ m')
     /\ Dialog.FileModel.list_ m' ≡ₚ ["a.mif"; "c.mif"; "b.mif"]
     /\ Dialog.FileModel.signals m'
        = [Dialog.BeginInsertRows 2 5; Dialog.EndInsertRows; Dialog.LayoutChanged])
  /\ exists m',
       Dialog.FileModel.add_entries [] sample_file_model = (Normal tt, m')
       /\ Dialog.FileModel.list_ m' = ["a.mif"; "c.mif"]
       /\ Dialog.FileModel.signals m' = [].
Proof.
  split.
  - destruct (file_entries_sorted ["b.mif"] stale_file_model ltac:(vm_compute; discriminate))
      as (m' & Hadd & Hnum & _ & _ & Hgrown).
    assert (Hne : ["b.mif"] <> ([] : list string)) by (intros Hnil; discriminate Hnil).
    destruct (Hgrown (or_introl Hne)) as (Hsorted & Hperm & Hsignals).
    exists m'. split; [exact Hadd |]. split; [exact Hnum |].
    split; [exact Hsorted |]. split; [exact Hperm |].
    rewrite Hsignals.
    assert (Hm : Dialog.FileModel.add_entries ["b.mif"] stale_file_model
                 = (Normal tt,
                    Dialog.FileModel.mk ["a.mif"; "b.mif"; "c.mif"] sample_tree 3
                      [Dialog.BeginInsertRows 2 5; Dialog.EndInsertRows; Dialog.LayoutChanged]))
      by (vm_compute; reflexivity).
    rewrite Hm in Hadd. injection Hadd as <-. vm_compute. reflexivity.
  - destruct (file_entries_sorted [] sample_file_model ltac:(vm_compute; discriminate))
      as (m' & Hadd & _ & _ & Hsame & _).
    destruct (Hsame eq_refl ltac:(vm_compute; reflexivity)) as (Hlist & Hsignals).
    exists m'. split; [exact Hadd |]. split; [exact Hlist | exact Hsignals].
Defined.

(** * The table of mask directions: properties *)

Section MrpermuteReshape.
Import Dirmerge Mrpermute.
Context {float : Type}.
Variable junk : float.
Variable check : range_check.

Lemma fill_unfold (fuel : nat) (dir_vector : list float) (i : N) (directions : Matrix) :
  fill check fuel dir_vector i directions
  = if (i <? size dir_vector)%N then
      match fuel with
      | O => None
      | S fuel' =>
          match assign_pair check dir_vector i directions with
          | Normal directions' => fill check fuel' dir_vector (size_add i 2) directions'
          | other => Some other
          end
      end
    else Some (Normal directions).
Proof. destruct fuel; reflexivity. Qed.

Lemma assign_row (filled rest : list (list float)) (r : list float) (j : N) (v : float) :
  (j < size r)%N ->
  assign check (filled ++ r :: rest) (N.of_nat (length filled)) j v
  = Normal (filled ++ <[N.to_nat j := v]> r :: rest).
Proof.
  intros Hj. unfold assign, Matrix. rewrite Nat2N.id, list_lookup_middle by reflexivity.
  destruct (N.ltb_spec j (size r)); [| lia].
  now rewrite insert_app_r_alt, Nat.sub_diag by lia.
Qed.

Lemma assign_outside (m : list (list float)) (i j : N) (v : float) :
  (size m <= i)%N -> assign check m i j v = out_of_range check.
Proof.
  intros Hi. unfold assign, Matrix, size in *. now rewrite lookup_ge_None_2 by lia.
Qed.

Lemma length_concat_pairs (filled : list (list float)) :
  Forall (fun r => length r = 2%nat) filled ->
  length (concat filled) = (2 * length filled)%nat.
Proof.
  induction 1 as [| r filled Hr _ IH]; [reflexivity |].
  cbn [concat length]. rewrite length_app. lia.
Qed.

Lemma concat_pairs_even (l : list float) :
  Nat.even (length l) = true -> concat (pairs l) = l.
Proof.
  induction l as [l IH] using (induction_ltof1 _ (@length float)). unfold ltof in IH.
  destruct l as [| a [| b l]]; [reflexivity | discriminate |].
  cbn [length Nat.even pairs concat app]. intros Heven. do 2 f_equal.
  apply IH; [cbn [length]; lia | assumption].
Qed.

(** The loop from an even position on: the pairs already made stay, the
    numbers left are put two by two into the rows that follow, and a
    number left alone at the end goes to a row the matrix does not have. *)
Lemma fill_spec (dir_vector : list float) :
  (N.of_nat (length dir_vector) + 2 < SIZE_MODULUS)%N ->
  forall (fuel : nat) (rest : list float) (filled : list (list float)),
    dir_vector = concat filled ++ rest ->
    Forall (fun r => length r = 2%nat) filled ->
    (length rest <= fuel)%nat ->
    fill check fuel dir_vector (N.of_nat (length (concat filled)))
         (filled ++ replicate (length dir_vector / 2 - length filled) [junk; junk])
    = Some (if Nat.even (length rest)
            then Normal (filled ++ pairs rest)
            else out_of_range check).
Proof.
  intros Hbound. induction fuel as [| fuel IH]; intros rest filled Hvec Hfilled Hfuel;
    rewrite fill_unfold; pose proof (length_concat_pairs filled Hfilled) as Hlen;
    assert (Hn : length dir_vector = (2 * length filled + length rest)%nat)
      by (rewrite Hvec, length_app; lia).
  - destruct rest; [| cbn [length] in Hfuel; lia]. cbn [length] in Hn.
    unfold size. destruct (N.ltb_spec (N.of_nat (length (concat filled)))
                             (N.of_nat (length dir_vector))); [lia |].
    cbn [Nat.even pairs]. rewrite Hn, Nat.add_0_r, Nat.mul_comm, Nat.div_mul by lia.
    now rewrite Nat.sub_diag.
  - destruct rest as [| a [| b rest]].
    + cbn [length] in Hn.
      unfold size. destruct (N.ltb_spec (N.of_nat (length (concat filled)))
                               (N.of_nat (length dir_vector))); [lia |].
      cbn [Nat.even pairs]. rewrite Hn, Nat.add_0_r, Nat.mul_comm, Nat.div_mul by lia.
      now rewrite Nat.sub_diag.
    + cbn [length] in Hn.
      unfold size. destruct (N.ltb_spec (N.of_nat (length (concat filled)))
                               (N.of_nat (length dir_vector))); [| lia].
      cbn [length Nat.even]. unfold assign_pair.
      assert (Ha : at_index dir_vector (N.of_nat (length (concat filled))) = Normal a).
      { apply at_index_Normal. rewrite Nat2N.id, Hvec, lookup_app_r by lia.
        now rewrite Nat.sub_diag. }
      rewrite Ha. cbn [and_then].
      assert (Hrows : (length dir_vector / 2 = length filled)%nat).
      { rewrite Hn. replace (2 * length filled + 1)%nat with (1 + length filled * 2)%nat by lia.
        rewrite Nat.div_add by lia. reflexivity. }
      rewrite Hrows, Nat.sub_diag. cbn [replicate]. rewrite app_nil_r.
      rewrite assign_outside; [now destruct check |].
      unfold size. rewrite Hlen. 
      replace (N.of_nat (2 * length filled) / 2)%N with (N.of_nat (length filled)); [lia |].
      replace (N.of_nat (2 * length filled)) with (N.of_nat (length filled) * 2)%N by lia.
      now rewrite N.div_mul.
    + cbn [length] in Hn, Hfuel.
      unfold size. destruct (N.ltb_spec (N.of_nat (length (concat filled)))
                               (N.of_nat (length dir_vector))); [| lia].
      cbn [length Nat.even pairs]. unfold assign_pair.
      assert (Ha : at_index dir_vector (N.of_nat (length (concat filled))) = Normal a).
      { apply at_index_Normal. rewrite Nat2N.id, Hvec, lookup_app_r by lia.
        now rewrite Nat.sub_diag. }
      assert (Hb : at_index dir_vector (size_add (N.of_nat (length (concat filled))) 1)
                   = Normal b).
      { apply at_index_Normal. unfold size_add. rewrite N.mod_small by lia.
        replace (N.to_nat (N.of_nat (length (concat filled)) + 1))
          with (S (length (concat filled))) by lia.
        rewrite Hvec, lookup_app_r by lia.
        now replace (S (length (concat filled)) - length (concat filled))%nat with 1%nat by lia. }
      rewrite Ha. cbn [and_then].
      assert (Hrow : (N.of_nat (length (concat filled)) / 2 = N.of_nat (length filled))%N).
      { rewrite Hlen.
        replace (N.of_nat (2 * length filled)) with (N.of_nat (length filled) * 2)%N by lia.
        now rewrite N.div_mul. }
      rewrite Hrow.
      assert (Hrows : (length dir_vector / 2 = length filled + 1 + length rest / 2)%nat).
      { rewrite Hn.
        replace (2 * length filled + S (S (length rest)))%nat
          with (length rest + (length filled + 1) * 2)%nat by lia.
        rewrite Nat.div_add by lia. lia. }
      replace (length dir_vector / 2 - length filled)%nat with (S (length rest / 2)) by lia.
      cbn [replicate].
      rewrite assign_row by reflexivity. cbn [and_then].
      rewrite Hb. cbn [and_then].
      rewrite assign_row by reflexivity.
      change (<[N.to_nat 1 := b]> (<[N.to_nat 0 := a]> [junk; junk])) with [a; b].
      transitivity
        (fill check fuel dir_vector (N.of_nat (length (concat (filled ++ [[a; b]]))))
              ((filled ++ [[a; b]])
               ++ replicate (length dir_vector / 2 - length (filled ++ [[a; b]]))
                            [junk; junk])).
      { f_equal.
        - unfold size_add. rewrite N.mod_small by lia.
          rewrite concat_app, length_app. cbn [concat length app]. lia.
        - rewrite <- app_assoc. cbn [app]. do 3 f_equal.
          rewrite length_app. cbn [length]. lia. }
      rewrite (IH rest (filled ++ [[a; b]])).
      * now rewrite <- app_assoc.
      * rewrite Hvec, concat_app, <- app_assoc. reflexivity.
      * apply Forall_app. split; [assumption | now repeat constructor].
      * lia.
Qed.

(** An even number of values makes the table: as many rows as half the
    values, the values two by two in their order, so that the rows read
    one after the other give the values back, and as many turns as there
    are values are enough.  With an odd number of values the last value is
    assigned to a row the matrix does not have, before [dir_vector[i+1]]
    is read past the end. *)
Theorem directions_from_pairs (fuel : nat) (dir_vector : list float) :
  (N.of_nat (length dir_vector) + 2 < SIZE_MODULUS)%N ->
  (length dir_vector <= fuel)%nat ->
  (Nat.even (length dir_vector) = true ->
   reshape junk check fuel dir_vector = Some (Normal (pairs dir_vector))
   /\ concat (pairs dir_vector) = dir_vector
   /\ length (pairs dir_vector) = (length dir_vector / 2)%nat
   /\ Forall (fun r => length r = 2%nat) (pairs dir_vector))
  /\ (Nat.even (length dir_vector) = false ->
      reshape junk check fuel dir_vector = Some (out_of_range check)).
Proof.
  intros Hbound Hfuel.
  pose proof (fill_spec dir_vector Hbound fuel dir_vector [] eq_refl ltac:(constructor) Hfuel)
    as Hfill.
  cbn [concat length app] in Hfill. rewrite Nat.sub_0_r in Hfill.
  assert (Hreshape : reshape junk check fuel dir_vector
                     = Some (if Nat.even (length dir_vector)
                             then Normal (pairs dir_vector) else out_of_range check)).
  { etransitivity; [| exact Hfill]. unfold reshape, resize, size.
    change (N.to_nat 2) with 2%nat. cbn [replicate N.of_nat]. do 2 f_equal.
    change 2%N with (N.of_nat 2). rewrite <- Nat2N.inj_div. now rewrite Nat2N.id. }
  split; intros Heven; rewrite Heven in Hreshape; [| assumption].
  split; [assumption |]. pose proof (concat_pairs_even dir_vector Heven) as Hconcat.
  split; [assumption |].
  assert (Hrows : Forall (fun r => length r = 2%nat) (pairs dir_vector)).
  { clear. induction dir_vector as [l IH] using (induction_ltof1 _ (@length float)).
    unfold ltof in IH. destruct l as [| a [| b l]]; cbn [pairs]; try constructor.
    - reflexivity.
    - apply IH. cbn [length]. lia. }
  split; [| assumption].
  pose proof (length_concat_pairs _ Hrows) as Hlen. rewrite Hconcat in Hlen.
  rewrite Hlen, Nat.mul_comm, Nat.div_mul; lia.
Qed.

End MrpermuteReshape.

(** ** The statement at sample inputs *)

Lemma directions_from_pairs_witness :
  Mrpermute.reshape 0%Z Mrpermute.Unchecked 4 [1; 2; 3; 4]%Z
  = Some (Normal [[1; 2]; [3; 4]]%Z)
  /\ Mrpermute.reshape 0%Z Mrpermute.Unchecked 3 [1; 2; 3]%Z = Some Undefined.
Proof.
  split.
  - exact (proj1 (proj1 (directions_from_pairs 0%Z Mrpermute.Unchecked 4 [1; 2; 3; 4]%Z
                           ltac:(vm_compute; reflexivity) ltac:(cbn; lia)) eq_refl)).
  - exact (proj2 (directions_from_pairs 0%Z Mrpermute.Unchecked 3 [1; 2; 3]%Z
                    ltac:(vm_compute; reflexivity) ltac:(cbn; lia)) eq_refl).
Defined.
